(** * sad-go-logger: the remote sync writers

    A shallow embedding of [logger/remotesync_elk.go] (the streaming
    writer for Logstash) and [logger/remotesync_newrelic.go] (the batch
    HTTP writer for New Relic), the two implementations of the
    [RemoteSyncWriter] interface of [logger/remote_sync.go], and of the
    package initialisation of [logger/logger.go] that hands them to zap.

    Each writer is a record of the fields of its Go struct.  Every method
    takes the writer and the trace of what the process has done to the
    outside world so far, and returns its Go results, the writer after the
    call and the extended trace.  Calls into the Go standard library that
    reach outside the process (dialling, writing to the socket, the HTTP
    round trip, the clock) or whose algorithm lives outside this
    repository (the JSON codec, URL parsing) are parameters of the
    embedding; the outside world answers as a function of the trace, and
    every such call is added to the trace.

    The mutex [mu] of both structs is not modelled: a method body runs
    from Lock to the deferred Unlock without interleaving, so each method
    is one function on the state. *)

From Stdlib Require Import ZArith Ascii String List Lia.
From stdpp Require Import base gmap list strings pretty.

(** ** Go values *)

(** A Go [error], by the text of its [Error()] method; a nil error is
    [None] in [option error]. *)
Definition error : Type := string.

(** The pair (value, error) returned by a fallible library call. *)
Inductive result (A : Type) : Type :=
| Ok (a : A)
| Err (e : error).
Arguments Ok {A} a.
Arguments Err {A} e.

(** How a call ends: it returns, or the goroutine panics. *)
Inductive outcome (A : Type) : Type :=
| Return (a : A)
| Panic (msg : string).
Arguments Return {A} a.
Arguments Panic {A} msg.

(** The dynamic values an [interface{}] holds in this program: what
    [encoding/json] stores when it decodes into an interface (nil, bool,
    float64, string, []interface{}, map[string]interface{}), and the
    []map[string]interface{} that [flush] puts under the key logs.  A
    float64 is kept as the numeric literal it was converted from; no
    writer computes with it. *)
#[warnings="-register-all"]
Inductive value : Type :=
| VNil
| VBool (b : bool)
| VNumber (lit : string)
| VString (s : string)
| VSlice (l : list value)
| VMap (m : gmap string value)
| VMaps (l : list (option (gmap string value))).

(** A variable of type [map[string]interface{}]: nil, or a map. *)
Abbreviation Entry := (option (gmap string value)).

(** [len] of a slice, as a Go int. *)
Definition len {A : Type} (l : list A) : Z := Z.of_nat (length l).

(** The events a call has added to the trace [t] when it leaves [t']. *)
Definition since {A : Type} (t t' : list A) : list A := drop (length t) t'.

Definition newline : string := String (ascii_of_nat 10) EmptyString.

(** ** The clock *)

(** The value of [time.Now().UTC()], by its civil fields. *)
Record Time : Type := mkTime {
  year : Z; month : Z; day : Z;
  hour : Z; minute : Z; second : Z;
  nanosecond : Z
}.

(** [appendInt] of package time, for a non-negative [x]: decimal, padded
    with zeros on the left to [width] digits. *)
Definition appendInt (x : Z) (width : nat) : string :=
  let s := pretty (Z.to_N x) in
  String.concat EmptyString (replicate (width - String.length s) "0"%string) +:+ s.

Fixpoint trimZeros (rev_digits : list ascii) : list ascii :=
  match rev_digits with
  | "0"%char :: r => trimZeros r
  | _ => rev_digits
  end.

(** [appendNano] for the layout element [.999999999]: nothing when the
    nanoseconds are zero, else a dot and nine digits with the trailing
    zeros cut. *)
Definition appendNano (nanosec : Z) : string :=
  if (nanosec =? 0)%Z then EmptyString
  else "." +:+ string_of_list_ascii
         (rev (trimZeros (rev (list_ascii_of_string (appendInt nanosec 9))))).

(** [t.Format(time.RFC3339Nano)], layout 2006-01-02T15:04:05.999999999Z07:00,
    for a time in UTC (zone written Z). *)
Definition FormatRFC3339Nano (t : Time) : string :=
  appendInt (year t) 4 +:+ "-" +:+ appendInt (month t) 2 +:+ "-" +:+
  appendInt (day t) 2 +:+ "T" +:+ appendInt (hour t) 2 +:+ ":" +:+
  appendInt (minute t) 2 +:+ ":" +:+ appendInt (second t) 2 +:+
  appendNano (nanosecond t) +:+ "Z".

(** ** The streaming writer: remotesync_elk.go *)

Module ELK.

(** A [net.Conn], by the number the dialler gave it. *)
Definition Conn : Type := nat.

(** What the writer does to the outside world, in the order it does it. *)
Inductive Event : Type :=
| EvClose (c : Conn) (err : option error)
| EvDial (tls : bool) (address : string) (r : result Conn)
| EvNow (tm : Time)
| EvEncode (c : Conn) (entry : Entry) (err : option error)
| EvPrint (text : string)
| EvSleep (d : Z).

Record ELKRemoteSyncWriter : Type := mkWriter {
  host : string;
  port : string;
  useTLS : bool;
  conn : option Conn;
  (** the connection the [json.Encoder] writes to; nil until the first
      successful [connect] *)
  encoder : option Conn;
  buffer : list Entry;
  batchSize : Z;
  (** a [time.Duration], in nanoseconds *)
  reconnectInterval : Z
}.

Definition set_conn (c : option Conn) (w : ELKRemoteSyncWriter) :=
  mkWriter (host w) (port w) (useTLS w) c (encoder w) (buffer w)
           (batchSize w) (reconnectInterval w).

Definition set_encoder (e : option Conn) (w : ELKRemoteSyncWriter) :=
  mkWriter (host w) (port w) (useTLS w) (conn w) e (buffer w)
           (batchSize w) (reconnectInterval w).

Definition set_buffer (b : list Entry) (w : ELKRemoteSyncWriter) :=
  mkWriter (host w) (port w) (useTLS w) (conn w) (encoder w) b
           (batchSize w) (reconnectInterval w).

(** The connection state of the spec: [conn] is nil or not. *)
Inductive ConnState : Type := Disconnected | Connected.

Definition state (w : ELKRemoteSyncWriter) : ConnState :=
  match conn w with None => Disconnected | Some _ => Connected end.

(** The library calls of the writer.  The outside world answers the
    calls that reach it from the trace so far. *)
Record Env : Type := mkEnv {
  (** [json.NewDecoder(bytes.NewReader(p)).Decode(&logEntry)]: the error,
      or the value left in [logEntry] *)
  Decode : list Byte.byte -> result Entry;
  (** [time.Now().UTC()] *)
  Now : list Event -> Time;
  (** [tls.Dial] (first argument true) and [net.Dial], network tcp *)
  Dial : list Event -> bool -> string -> result Conn;
  (** [Encode] of the [json.Encoder] of a connection *)
  Encode : list Event -> Conn -> Entry -> option error;
  (** [Close] of a [net.Conn] *)
  ConnClose : list Event -> Conn -> option error
}.

Section Methods.

Variable E : Env.

(** [connect]: close the old connection if there is one, dial, and on
    success install the connection and a fresh encoder on it. *)
Definition connect (w : ELKRemoteSyncWriter) (t : list Event)
  : option error * ELKRemoteSyncWriter * list Event :=
  let t1 := match conn w with
            | Some c => t ++ [EvClose c (ConnClose E t c)]
            | None => t
            end in
  let address := host w +:+ ":" +:+ port w in
  let r := Dial E t1 (useTLS w) address in
  let t2 := t1 ++ [EvDial (useTLS w) address r] in
  match r with
  | Err err => (Some err, w, t2)
  | Ok c => (None, set_encoder (Some c) (set_conn (Some c) w), t2)
  end.

(** The loop of [flushBuffer]: encode the entries in order and stop at
    the first error.  Calling [Encode] on a nil encoder panics. *)
Fixpoint encodeEntries (enc : option Conn) (entries : list Entry)
  (t : list Event) : outcome (option error) * list Event :=
  match entries with
  | [] => (Return None, t)
  | entry :: rest =>
    match enc with
    | None => (Panic "invalid memory address or nil pointer dereference", t)
    | Some c =>
      let r := Encode E t c entry in
      let t1 := t ++ [EvEncode c entry r] in
      match r with
      | Some err => (Return (Some err), t1)
      | None => encodeEntries enc rest t1
      end
    end
  end.

Definition flushBuffer (w : ELKRemoteSyncWriter) (t : list Event)
  : outcome unit * ELKRemoteSyncWriter * list Event :=
  match conn w with
  | None => (Return tt, w, t)
  | Some _ =>
    match encodeEntries (encoder w) (buffer w) t with
    | (Panic msg, t1) => (Panic msg, w, t1)
    | (Return (Some err), t1) =>
      (Return tt, set_conn None w,
       t1 ++ [EvPrint ("Failed to encode log entry for ELK: " +:+ err +:+ newline)])
    | (Return None, t1) => (Return tt, set_buffer [] w, t1)
    end
  end.

(** [Write].  Assigning to an entry of a nil map panics; the right-hand
    side of the assignment, the clock call, is evaluated first. *)
Definition Write (p : list Byte.byte) (w : ELKRemoteSyncWriter) (t : list Event)
  : outcome (Z * option error) * ELKRemoteSyncWriter * list Event :=
  match Decode E p with
  | Err err => (Return (0%Z, Some ("failed to decode log entry: " +:+ err)), w, t)
  | Ok logEntry =>
    let tm := Now E t in
    let t1 := t ++ [EvNow tm] in
    match logEntry with
    | None => (Panic "assignment to entry in nil map", w, t1)
    | Some m =>
      let m1 := <["@timestamp" := VString (FormatRFC3339Nano tm)]> m in
      let m2 := <["@version" := VString "1"]> m1 in
      let w1 := set_buffer (buffer w ++ [Some m2]) w in
      if (batchSize w1 <=? len (buffer w1))%Z then
        match flushBuffer w1 t1 with
        | (Panic msg, w2, t2) => (Panic msg, w2, t2)
        | (Return _, w2, t2) => (Return (len p, None), w2, t2)
        end
      else (Return (len p, None), w1, t1)
    end
  end.

Definition Sync (w : ELKRemoteSyncWriter) (t : list Event)
  : outcome (option error) * ELKRemoteSyncWriter * list Event :=
  match flushBuffer w t with
  | (Panic msg, w1, t1) => (Panic msg, w1, t1)
  | (Return _, w1, t1) => (Return None, w1, t1)
  end.

Definition Close (w : ELKRemoteSyncWriter) (t : list Event)
  : outcome (option error) * ELKRemoteSyncWriter * list Event :=
  match flushBuffer w t with
  | (Panic msg, w1, t1) => (Panic msg, w1, t1)
  | (Return _, w1, t1) =>
    match conn w1 with
    | Some c => let r := ConnClose E t1 c in (Return r, w1, t1 ++ [EvClose c r])
    | None => (Return None, w1, t1)
    end
  end.

(** One turn of the loop of [reconnectionLoop].  The loop tests [conn]
    and calls [flushBuffer] without holding the lock; the turn is taken
    here as if no other method ran during it. *)
Definition reconnectionTick (w : ELKRemoteSyncWriter) (t : list Event)
  : outcome unit * ELKRemoteSyncWriter * list Event :=
  let t0 := t ++ [EvSleep (reconnectInterval w)] in
  match conn w with
  | Some _ => (Return tt, w, t0)
  | None =>
    match connect w t0 with
    | (Some err, w1, t1) =>
      (Return tt, w1,
       t1 ++ [EvPrint ("Failed to reconnect to Logstash: " +:+ err +:+
                       ". Will retry later." +:+ newline)])
    | (None, w1, t1) =>
      flushBuffer w1 (t1 ++ [EvPrint ("Successfully reconnected to Logstash." +:+ newline)])
    end
  end.

(** [reconnectionLoop] never returns; [turns] bounds how many turns of it
    are observed. *)
Fixpoint reconnectionLoop (turns : nat) (w : ELKRemoteSyncWriter) (t : list Event)
  : outcome unit * ELKRemoteSyncWriter * list Event :=
  match turns with
  | O => (Return tt, w, t)
  | S n =>
    match reconnectionTick w t with
    | (Panic msg, w1, t1) => (Panic msg, w1, t1)
    | (Return _, w1, t1) => reconnectionLoop n w1 t1
    end
  end.

(** [NewRemoteSyncWriter], up to the start of the reconnection goroutine;
    [getenv] is [os.Getenv].  A nil interface value is [None]. *)
Definition NewRemoteSyncWriter (getenv : string -> string) (t : list Event)
  : option ELKRemoteSyncWriter * list Event :=
  let host := getenv "LOGSTASH_HOST" in
  let port := getenv "LOGSTASH_PORT" in
  let useTLS := bool_decide (getenv "LOGSTASH_USE_TLS" = "true") in
  let batchSize := 100%Z in
  let reconnectInterval := (5 * 1000000000)%Z in
  if bool_decide (host = EmptyString) || bool_decide (port = EmptyString) then
    (None, t ++ [EvPrint ("LOGSTASH_HOST or LOGSTASH_PORT not set. Remote sync disabled."
                          +:+ newline)])
  else
    let writer := mkWriter host port useTLS None None [] batchSize reconnectInterval in
    match connect writer t with
    | (Some err, w1, t1) =>
      (Some w1, t1 ++ [EvPrint ("Failed to connect to Logstash: " +:+ err +:+
                                ". Will retry later." +:+ newline)])
    | (None, w1, t1) => (Some w1, t1)
    end.

End Methods.

(** *** Notions used to state the properties of the writer *)

(** The struct as the constructor and the methods keep it: while a
    connection is installed, the encoder is the one made for it. *)
Definition wf (w : ELKRemoteSyncWriter) : Prop :=
  conn w = None \/ encoder w = conn w.

(** The events of entries written, each without an error, on [c]. *)
Definition delivered (c : Conn) (entries : list Entry) : list Event :=
  map (fun entry => EvEncode c entry None) entries.

(** Among the events of a call, one dial that succeeded. *)
Definition dialSucceeded (new : list Event) : Prop :=
  exists tls address c, In (EvDial tls address (Ok c)) new.

(** Among the events of a call, one Encode that returned an error. *)
Definition encodeFailed (new : list Event) : Prop :=
  exists c entry err, In (EvEncode c entry (Some err)) new.

(** The transition rules of the connection state: it goes from
    disconnected to connected only on a successful dial, and from
    connected to disconnected only on an Encode error. *)
Definition followsRules (before : ConnState) (new : list Event) (after : ConnState)
  : Prop :=
  (before = Disconnected -> after = Connected -> dialSucceeded new) /\
  (before = Connected -> after = Disconnected -> encodeFailed new).

(** The record [Write] puts in the buffer for a decoded map [m] at time
    [tm]. *)
Definition enriched (tm : Time) (m : gmap string value) : gmap string value :=
  <["@version" := VString "1"]> (<["@timestamp" := VString (FormatRFC3339Nano tm)]> m).

(** The line [flushBuffer] prints when an Encode fails. *)
Definition encodeErrorLine (err : error) : Event :=
  EvPrint ("Failed to encode log entry for ELK: " +:+ err +:+ newline).

(** What every method of the writer keeps: the trace only grows, the
    connection state changes by the rules, [wf] stays. *)
Definition keeps {A : Type} (w : ELKRemoteSyncWriter) (t : list Event)
  (r : A * ELKRemoteSyncWriter * list Event) : Prop :=
  exists new, r.2 = t ++ new /\
              followsRules (state w) new (state r.1.2) /\
              (wf w -> wf r.1.2).

Section Runs.

Variable E : Env.

(** How the loop of [flushBuffer] ends on an encoder that is there: every
    entry written, or the entries before the first failing one. *)
Inductive loop_run (c : Conn) (entries : list Entry) (t : list Event)
  : outcome (option error) * list Event -> Prop :=
| loop_sent :
    loop_run c entries t (Return None, t ++ delivered c entries)
| loop_failed done entry rest err :
    entries = done ++ entry :: rest ->
    Encode E (t ++ delivered c done) c entry = Some err ->
    loop_run c entries t
      (Return (Some err), t ++ delivered c done ++ [EvEncode c entry (Some err)]).

(** How a call of [flushBuffer] ends. *)
Inductive flush_run (w : ELKRemoteSyncWriter) (t : list Event)
  : outcome unit * ELKRemoteSyncWriter * list Event -> Prop :=
| flush_disconnected :
    conn w = None ->
    flush_run w t (Return tt, w, t)
| flush_sent c :
    conn w <> None ->
    flush_run w t (Return tt, set_buffer [] w, t ++ delivered c (buffer w))
| flush_failed c done entry rest err :
    conn w <> None ->
    encoder w = Some c ->
    buffer w = done ++ entry :: rest ->
    Encode E (t ++ delivered c done) c entry = Some err ->
    flush_run w t
      (Return tt, set_conn None w,
       t ++ delivered c done ++ [EvEncode c entry (Some err); encodeErrorLine err])
| flush_panicked msg :
    conn w <> None ->
    encoder w = None ->
    buffer w <> [] ->
    flush_run w t (Panic msg, w, t).

End Runs.

End ELK.

(** ** The batch HTTP writer: remotesync_newrelic.go *)

Module NewRelic.

(** An [*http.Request], by the parts [flush] sets. *)
Record Request : Type := mkRequest {
  Method : string;
  URL : string;
  (** an [http.Header]: each key holds a list of values *)
  Header : gmap string (list string);
  Body : list Byte.byte
}.

(** [req.Header.Set(key, v)], for a key already in canonical form. *)
Definition Header_Set (key v : string) (req : Request) : Request :=
  mkRequest (Method req) (URL req) (<[key := [v]]> (Header req)) (Body req).

Record Response : Type := mkResponse { StatusCode : Z }.

(** An [*http.Client], by its timeout in nanoseconds. *)
Record Client : Type := mkClient { Timeout : Z }.

Definition StatusAccepted : Z := 202.

Inductive Event : Type :=
| EvDo (c : Client) (req : Request) (r : result Response)
| EvPrint (text : string).

Record NewRelicRemoteSyncWriter : Type := mkWriter {
  apiKey : string;
  endpoint : string;
  client : Client;
  buffer : list Entry;
  batchSize : Z
}.

Definition set_buffer (b : list Entry) (w : NewRelicRemoteSyncWriter) :=
  mkWriter (apiKey w) (endpoint w) (client w) b (batchSize w).

(** The library calls of the writer. *)
Record Env : Type := mkEnv {
  (** [json.NewDecoder(bytes.NewReader(p)).Decode(&logEntry)] *)
  Decode : list Byte.byte -> result Entry;
  (** [json.Marshal] *)
  Marshal : value -> result (list Byte.byte);
  (** the error of [url.Parse], the one way [http.NewRequest] fails for
      the method POST *)
  ParseURL : string -> option error;
  (** [Do] of the [http.Client]: a transport error, or the response *)
  Do : list Event -> Client -> Request -> result Response
}.

Section Methods.

Variable E : Env.

Definition NewRequest (method url : string) (body : list Byte.byte) : result Request :=
  match ParseURL E url with
  | Some err => Err err
  | None => Ok (mkRequest method url ∅ body)
  end.

(** [flush].  The deferred [resp.Body.Close()] touches neither the writer
    nor the result and is left out. *)
Definition flush (w : NewRelicRemoteSyncWriter) (t : list Event)
  : option error * NewRelicRemoteSyncWriter * list Event :=
  if (len (buffer w) =? 0)%Z then (None, w, t)
  else
    let payload := VMap {[ "logs" := VMaps (buffer w) ]} in
    match Marshal E payload with
    | Err err => (Some ("failed to marshal log entries: " +:+ err), w, t)
    | Ok jsonPayload =>
      match NewRequest "POST" (endpoint w) jsonPayload with
      | Err err => (Some ("failed to create request: " +:+ err), w, t)
      | Ok req0 =>
        let req := Header_Set "Api-Key" (apiKey w)
                     (Header_Set "Content-Type" "application/json" req0) in
        let r := Do E t (client w) req in
        let t1 := t ++ [EvDo (client w) req r] in
        match r with
        | Err err => (Some ("failed to send logs to New Relic: " +:+ err), w, t1)
        | Ok resp =>
          if negb (StatusCode resp =? StatusAccepted)%Z then
            (Some ("new relic API returned unexpected status code: "
                   +:+ pretty (StatusCode resp)), w, t1)
          else (None, set_buffer [] w, t1)
        end
      end
    end.

Definition Write (p : list Byte.byte) (w : NewRelicRemoteSyncWriter) (t : list Event)
  : (Z * option error) * NewRelicRemoteSyncWriter * list Event :=
  match Decode E p with
  | Err err => ((0%Z, Some ("failed to decode log entry: " +:+ err)), w, t)
  | Ok logEntry =>
    let w1 := set_buffer (buffer w ++ [logEntry]) w in
    if (batchSize w1 <=? len (buffer w1))%Z then
      match flush w1 t with
      | (Some err, w2, t2) => ((0%Z, Some err), w2, t2)
      | (None, w2, t2) => ((len p, None), w2, t2)
      end
    else ((len p, None), w1, t)
  end.

Definition Sync (w : NewRelicRemoteSyncWriter) (t : list Event)
  : option error * NewRelicRemoteSyncWriter * list Event :=
  flush w t.

End Methods.

(** *** Notions used to state the properties of the writer *)

(** The document [flush] marshals: the buffer under the key logs. *)
Definition payloadOf (w : NewRelicRemoteSyncWriter) : value :=
  VMap {[ "logs" := VMaps (buffer w) ]}.

(** The request [flush] sends for a marshalled document [body]. *)
Definition requestOf (w : NewRelicRemoteSyncWriter) (body : list Byte.byte) : Request :=
  Header_Set "Api-Key" (apiKey w)
    (Header_Set "Content-Type" "application/json"
       (mkRequest "POST" (endpoint w) ∅ body)).

(** [NewNewRelicRemoteSyncWriter]; [getenv] is [os.Getenv]. *)
Definition NewNewRelicRemoteSyncWriter (getenv : string -> string) (t : list Event)
  : option NewRelicRemoteSyncWriter * list Event :=
  let apiKey := getenv "NEW_RELIC_API_KEY" in
  if bool_decide (apiKey = EmptyString) then
    (None, t ++ [EvPrint ("NEW_RELIC_API_KEY not set. New Relic logging disabled."
                          +:+ newline)])
  else
    let endpoint := getenv "NEW_RELIC_LOGS_ENDPOINT" in
    let endpoint := if bool_decide (endpoint = EmptyString)
                    then "https://log-api.newrelic.com/log/v1"%string
                    else endpoint in
    (Some (mkWriter apiKey endpoint (mkClient (10 * 1000000000)) [] 100), t).

End NewRelic.

(** ** encoding/json, for running the writers

    A model of the two calls the writers make into [encoding/json], used
    to instantiate the [Decode] and [Marshal] fields of the environments
    on concrete payloads: the decoder's scanner, the decoding of a scanned
    value into a variable of type map[string]interface{}, and a printer. *)

Module Json.

Local Open Scope string_scope.

(** A scanned JSON text: strings and numbers as they stand in the input. *)
#[warnings="-register-all"]
Inductive json : Type :=
| JNull
| JBool (b : bool)
| JNumber (lit : string)
| JString (raw : string)
| JArray (elems : list json)
| JObject (members : list (string * json)).

Inductive scan (A : Type) : Type :=
| Scanned (a : A) (rest : string)
| SyntaxError (msg : string)
| UnexpectedEOF.
Arguments Scanned {A} a rest.
Arguments SyntaxError {A} msg.
Arguments UnexpectedEOF {A}.

Definition scan_map {A B : Type} (f : A -> B) (r : scan A) : scan B :=
  match r with
  | Scanned a rest => Scanned (f a) rest
  | SyntaxError msg => SyntaxError msg
  | UnexpectedEOF => UnexpectedEOF
  end.

Definition dquote : ascii := "034"%char.
Definition squote : ascii := "039"%char.
Definition backslash : ascii := "092"%char.

Definition str (c : ascii) : string := String c EmptyString.

Definition isSpace (c : ascii) : bool :=
  match c with
  | " "%char | "009"%char | "010"%char | "013"%char => true
  | _ => false
  end.

Definition isDigit (c : ascii) : bool :=
  ((48 <=? N_of_ascii c) && (N_of_ascii c <=? 57))%N.

Fixpoint skipSpace (s : string) : string :=
  match s with
  | String c r => if isSpace c then skipSpace r else s
  | EmptyString => s
  end.

Definition hexChar (n : N) : ascii :=
  nth (N.to_nat n) (list_ascii_of_string "0123456789abcdef") "0"%char.

Definition hex2 (n : N) : string :=
  String (hexChar (n / 16)) (String (hexChar (n mod 16)) EmptyString).

(** [utf8.EncodeRune], for a rune that is valid. *)
Definition encodeRune (r : N) : string :=
  let b (n : N) := str (ascii_of_N n) in
  (if r <? 128 then b r
   else if r <? 2048 then b (192 + r / 64) ++ b (128 + r mod 64)
   else if r <? 65536 then
     b (224 + r / 4096) ++ b (128 + (r / 64) mod 64) ++ b (128 + r mod 64)
   else
     b (240 + r / 262144) ++ b (128 + (r / 4096) mod 64) ++
     b (128 + (r / 64) mod 64) ++ b (128 + r mod 64))%N.

(** [quoteChar] of scanner.go: the byte as the error text shows it. *)
Definition quoteChar (c : ascii) : string :=
  let n := N_of_ascii c in
  if Ascii.eqb c squote then str squote ++ str backslash ++ str squote ++ str squote
  else if Ascii.eqb c dquote then str squote ++ str dquote ++ str squote
  else
    let body :=
      (if Ascii.eqb c backslash then str backslash ++ str backslash
       else if (32 <=? n) && (n <=? 126) then str c
       else if (161 <=? n) && negb (n =? 173) then encodeRune n
       else if n =? 7 then str backslash ++ "a"
       else if n =? 8 then str backslash ++ "b"
       else if n =? 12 then str backslash ++ "f"
       else if n =? 10 then str backslash ++ "n"
       else if n =? 13 then str backslash ++ "r"
       else if n =? 9 then str backslash ++ "t"
       else if n =? 11 then str backslash ++ "v"
       else if (n <? 32) || (n =? 127) then str backslash ++ "x" ++ hex2 n
       else str backslash ++ "u00" ++ hex2 n)%N in
    str squote ++ body ++ str squote.

(** The text of a [SyntaxError] raised at byte [c]. *)
Definition invalid (c : ascii) (context : string) : string :=
  "invalid character " ++ quoteChar c ++ " " ++ context.

Definition push (c : ascii) (r : scan string) : scan string :=
  scan_map (String c) r.

(** *** Strings: stateInString and the escape states *)

Inductive stringState : Type :=
| InString
| InStringEsc
| InStringEscU (remaining : nat).

Definition isHex (c : ascii) : bool :=
  let n := N_of_ascii c in
  (isDigit c || ((97 <=? n) && (n <=? 102)) || ((65 <=? n) && (n <=? 70)))%N.

(** From just after the opening quote: the text up to the closing quote,
    escapes not yet resolved, and what follows the closing quote. *)
Fixpoint scanString (st : stringState) (s : string) : scan string :=
  match s with
  | EmptyString => UnexpectedEOF
  | String c r =>
    match st with
    | InString =>
      if Ascii.eqb c dquote then Scanned EmptyString r
      else if Ascii.eqb c backslash then push c (scanString InStringEsc r)
      else if (N_of_ascii c <? 32)%N then SyntaxError (invalid c "in string literal")
      else push c (scanString InString r)
    | InStringEsc =>
      match c with
      | "b"%char | "f"%char | "n"%char | "r"%char | "t"%char
      | "092"%char | "/"%char | "034"%char => push c (scanString InString r)
      | "u"%char => push c (scanString (InStringEscU 4) r)
      | _ => SyntaxError (invalid c "in string escape code")
      end
    | InStringEscU k =>
      if isHex c then
        push c (scanString (match k with
                            | S (S k') => InStringEscU (S k')
                            | _ => InString
                            end) r)
      else SyntaxError (invalid c ("in " ++ str backslash ++ "u hexadecimal character escape"))
    end
  end.

(** *** Numbers: stateNeg, state1, state0, stateDot, stateDot0, stateE,
    stateESign, stateE0 *)

Inductive numberState : Type :=
| StNeg | St1 | St0 | StDot | StDot0 | StE | StESign | StE0.

(** From inside a number: the rest of its literal, and what follows it. *)
Fixpoint scanNumber (st : numberState) (s : string) : scan string :=
  match s with
  | EmptyString =>
    match st with
    | St1 | St0 | StDot0 | StE0 => Scanned EmptyString EmptyString
    | _ => UnexpectedEOF
    end
  | String c r =>
    match st with
    | StNeg =>
      if Ascii.eqb c "0"%char then push c (scanNumber St0 r)
      else if isDigit c then push c (scanNumber St1 r)
      else SyntaxError (invalid c "in numeric literal")
    | St1 =>
      if isDigit c then push c (scanNumber St1 r)
      else if Ascii.eqb c "."%char then push c (scanNumber StDot r)
      else if Ascii.eqb c "e"%char || Ascii.eqb c "E"%char then push c (scanNumber StE r)
      else Scanned EmptyString s
    | St0 =>
      if Ascii.eqb c "."%char then push c (scanNumber StDot r)
      else if Ascii.eqb c "e"%char || Ascii.eqb c "E"%char then push c (scanNumber StE r)
      else Scanned EmptyString s
    | StDot =>
      if isDigit c then push c (scanNumber StDot0 r)
      else SyntaxError (invalid c "after decimal point in numeric literal")
    | StDot0 =>
      if isDigit c then push c (scanNumber StDot0 r)
      else if Ascii.eqb c "e"%char || Ascii.eqb c "E"%char then push c (scanNumber StE r)
      else Scanned EmptyString s
    | StE =>
      if Ascii.eqb c "+"%char || Ascii.eqb c "-"%char then push c (scanNumber StESign r)
      else if isDigit c then push c (scanNumber StE0 r)
      else SyntaxError (invalid c "in exponent of numeric literal")
    | StESign =>
      if isDigit c then push c (scanNumber StE0 r)
      else SyntaxError (invalid c "in exponent of numeric literal")
    | StE0 => if isDigit c then push c (scanNumber StE0 r) else Scanned EmptyString s
    end
  end.

(** *** The literals true, false and null, after their first letter *)
Fixpoint scanLiteral (name expected : string) (s : string) : scan unit :=
  match expected with
  | EmptyString => Scanned tt s
  | String e expected' =>
    match s with
    | EmptyString => UnexpectedEOF
    | String c r =>
      if Ascii.eqb c e then scanLiteral name expected' r
      else SyntaxError (invalid c ("in literal " ++ name ++
                                   " (expecting " ++ quoteChar e ++ ")"))
    end
  end.

Definition maxNestingDepth : N := 10000.

(** *** Values.  [depth] counts the objects and arrays that are open.  A
    call spends one unit of fuel and an opening bracket two, one for the
    value and one for its first element or member; every unit spent is
    paid by a byte consumed, so a fuel above twice the length of the
    input is never used up. *)
Fixpoint scanValue (fuel : nat) (depth : N) (s : string) {struct fuel} : scan json :=
  match fuel with
  | O => UnexpectedEOF
  | S fuel =>
    match skipSpace s with
    | EmptyString => UnexpectedEOF
    | String c r =>
      match c with
      | "{"%char =>
        if (maxNestingDepth <? depth + 1)%N then SyntaxError (invalid c "exceeded max depth")
        else match skipSpace r with
             | String "}"%char r' => Scanned (JObject []) r'
             | _ => scan_map JObject (scanMembers fuel (depth + 1)%N r)
             end
      | "["%char =>
        if (maxNestingDepth <? depth + 1)%N then SyntaxError (invalid c "exceeded max depth")
        else match skipSpace r with
             | String "]"%char r' => Scanned (JArray []) r'
             | _ => scan_map JArray (scanElements fuel (depth + 1)%N r)
             end
      | "034"%char => scan_map JString (scanString InString r)
      | "-"%char => scan_map JNumber (push c (scanNumber StNeg r))
      | "0"%char => scan_map JNumber (push c (scanNumber St0 r))
      | "t"%char => scan_map (fun _ => JBool true) (scanLiteral "true" "rue" r)
      | "f"%char => scan_map (fun _ => JBool false) (scanLiteral "false" "alse" r)
      | "n"%char => scan_map (fun _ => JNull) (scanLiteral "null" "ull" r)
      | _ =>
        if isDigit c then scan_map JNumber (push c (scanNumber St1 r))
        else SyntaxError (invalid c "looking for beginning of value")
      end
    end
  end
with scanElements (fuel : nat) (depth : N) (s : string) {struct fuel}
  : scan (list json) :=
  match fuel with
  | O => UnexpectedEOF
  | S fuel =>
    match scanValue fuel depth s with
    | Scanned v rest =>
      match skipSpace rest with
      | EmptyString => UnexpectedEOF
      | String c r =>
        if Ascii.eqb c ","%char then scan_map (cons v) (scanElements fuel depth r)
        else if Ascii.eqb c "]"%char then Scanned [v] r
        else SyntaxError (invalid c "after array element")
      end
    | SyntaxError msg => SyntaxError msg
    | UnexpectedEOF => UnexpectedEOF
    end
  end
with scanMembers (fuel : nat) (depth : N) (s : string) {struct fuel}
  : scan (list (string * json)) :=
  match fuel with
  | O => UnexpectedEOF
  | S fuel =>
    match skipSpace s with
    | EmptyString => UnexpectedEOF
    | String c r =>
      if negb (Ascii.eqb c dquote)
      then SyntaxError (invalid c "looking for beginning of object key string")
      else
        match scanString InString r with
        | Scanned key rest =>
          match skipSpace rest with
          | EmptyString => UnexpectedEOF
          | String c1 r1 =>
            if negb (Ascii.eqb c1 ":"%char)
            then SyntaxError (invalid c1 "after object key")
            else
              match scanValue fuel depth r1 with
              | Scanned v rest2 =>
                match skipSpace rest2 with
                | EmptyString => UnexpectedEOF
                | String c2 r2 =>
                  if Ascii.eqb c2 ","%char
                  then scan_map (cons (key, v)) (scanMembers fuel depth r2)
                  else if Ascii.eqb c2 "}"%char then Scanned [(key, v)] r2
                  else SyntaxError (invalid c2 "after object key:value pair")
                end
              | SyntaxError msg => SyntaxError msg
              | UnexpectedEOF => UnexpectedEOF
              end
          end
        | SyntaxError msg => SyntaxError msg
        | UnexpectedEOF => UnexpectedEOF
        end
    end
  end.

(** *** Resolving a scanned string: unquoteBytes of decode.go *)

Definition hexVal (c : ascii) : N :=
  let n := N_of_ascii c in
  (if isDigit c then n - 48 else if 97 <=? n then n - 87 else n - 55)%N.

(** [getu4]: the rune of an escape of the form backslash, u, four hex
    digits at the head of [s], and what follows it. *)
Definition getu4 (s : string) : option (N * string) :=
  match s with
  | String "092"%char (String "u"%char (String a (String b (String c (String d r))))) =>
    if isHex a && isHex b && isHex c && isHex d
    then Some ((((hexVal a * 16 + hexVal b) * 16 + hexVal c) * 16 + hexVal d)%N, r)
    else None
  | _ => None
  end.

Definition replacementChar : N := 65533.

(** [utf16.IsSurrogate] and [utf16.DecodeRune] *)
Definition isSurrogate (r : N) : bool := ((55296 <=? r) && (r <? 57344))%N.

Definition decodeSurrogates (r1 r2 : N) : N :=
  (if (55296 <=? r1) && (r1 <? 56320) && (56320 <=? r2) && (r2 <? 57344)
   then (r1 - 55296) * 1024 + (r2 - 56320) + 65536
   else replacementChar)%N.

Fixpoint takeBytes (n : nat) (s : string) : string :=
  match n, s with
  | S n', String c r => String c (takeBytes n' r)
  | _, _ => EmptyString
  end.

Fixpoint dropBytes (n : nat) (s : string) : string :=
  match n, s with
  | S n', String _ r => dropBytes n' r
  | _, _ => s
  end.

(** The size of the rune [utf8.DecodeRune] reads at the head of [s], when
    it starts with a byte above 127 and is well formed. *)
Definition runeLen (s : string) : option nat :=
  let between (lo hi : N) (o : option ascii) :=
    match o with
    | Some c => ((lo <=? N_of_ascii c) && (N_of_ascii c <=? hi))%N
    | None => false
    end in
  let at_ (i : nat) := String.get i s in
  match at_ 0%nat with
  | None => None
  | Some p0 =>
    let x := N_of_ascii p0 in
    let shape : option (nat * N * N) :=
      (if (194 <=? x) && (x <=? 223) then Some (2%nat, 128, 191)
       else if x =? 224 then Some (3%nat, 160, 191)
       else if x =? 237 then Some (3%nat, 128, 159)
       else if (225 <=? x) && (x <=? 239) then Some (3%nat, 128, 191)
       else if x =? 240 then Some (4%nat, 144, 191)
       else if (241 <=? x) && (x <=? 243) then Some (4%nat, 128, 191)
       else if x =? 244 then Some (4%nat, 128, 143)
       else None)%N in
    match shape with
    | None => None
    | Some (sz, lo, hi) =>
      if between lo hi (at_ 1%nat)
         && ((sz <=? 2)%nat || between 128%N 191%N (at_ 2%nat))
         && ((sz <=? 3)%nat || between 128%N 191%N (at_ 3%nat))
      then Some sz else None
    end
  end.

(** The Go string of a scanned string: escapes resolved, a lone surrogate
    and every byte that is not UTF-8 replaced by U+FFFD.  The scanner has
    checked the escapes, so the branches that give up are not reached. *)
Fixpoint unquoteBytes (fuel : nat) (s : string) : string :=
  match fuel with
  | O => EmptyString
  | S fuel =>
    match s with
    | EmptyString => EmptyString
    | String c r =>
      if Ascii.eqb c backslash then
        match r with
        | EmptyString => EmptyString
        | String "u"%char _ =>
          match getu4 s with
          | None => EmptyString
          | Some (rr, r1) =>
            if isSurrogate rr then
              match getu4 r1 with
              | Some (rr1, r2) =>
                if (decodeSurrogates rr rr1 =? replacementChar)%N
                then encodeRune replacementChar ++ unquoteBytes fuel r1
                else encodeRune (decodeSurrogates rr rr1) ++ unquoteBytes fuel r2
              | None => encodeRune replacementChar ++ unquoteBytes fuel r1
              end
            else encodeRune rr ++ unquoteBytes fuel r1
          end
        | String e r' =>
          let b := match e with
                   | "b"%char => "008"%char
                   | "f"%char => "012"%char
                   | "n"%char => "010"%char
                   | "r"%char => "013"%char
                   | "t"%char => "009"%char
                   | _ => e
                   end in
          String b (unquoteBytes fuel r')
        end
      else if (N_of_ascii c <? 128)%N then String c (unquoteBytes fuel r)
      else
        match runeLen s with
        | Some k => takeBytes k s ++ unquoteBytes fuel (dropBytes k s)
        | None => encodeRune replacementChar ++ unquoteBytes fuel r
        end
    end
  end.

Definition unquote (raw : string) : string :=
  unquoteBytes (String.length raw) raw.

(** *** Numbers: convertNumber, that is strconv.ParseFloat at 64 bits *)

Fixpoint readDigits (acc count : Z) (s : string) : Z * Z * string :=
  match s with
  | String c r =>
    if isDigit c
    then readDigits (acc * 10 + Z.of_N (N_of_ascii c - 48)) (count + 1) r
    else (acc, count, s)
  | EmptyString => (acc, count, s)
  end.

(** The magnitude of a numeric literal as [m * 10 ^ e]. *)
Definition decimalOf (lit : string) : Z * Z :=
  let s := match lit with String "-"%char r => r | _ => lit end in
  let '(m1, _, s1) := readDigits 0 0 s in
  let '(m, k, s2) := match s1 with
                     | String "."%char r => readDigits m1 0 r
                     | _ => (m1, 0%Z, s1)
                     end in
  let e := match s2 with
           | String _ (String "-"%char r) => (- (readDigits 0 0 r).1.1)%Z
           | String _ (String "+"%char r) => (readDigits 0 0 r).1.1
           | String _ r => (readDigits 0 0 r).1.1
           | EmptyString => 0%Z
           end in
  (m, (e - k)%Z).

(** ParseFloat reports a range error when the number rounds to infinity:
    from half an ulp above the largest float64, (2^54 - 1) * 2^970. *)
Definition overflowsFloat64 (lit : string) : bool :=
  let '(m, e) := decimalOf lit in
  let limit := ((2 ^ 54 - 1) * 2 ^ 970)%Z in
  (if 0 <=? e then limit <=? m * 10 ^ e else limit * 10 ^ (- e) <=? m)%Z.

Definition convertNumber (lit : string) : value * option error :=
  if overflowsFloat64 lit
  then (VNil, Some ("json: cannot unmarshal number " ++ lit ++
                    " into Go value of type float64"))
  else (VNumber lit, None).

(** *** Decoding into an interface: valueInterface, arrayInterface and
    objectInterface.  The error is the first one saved (saveError); the
    decoder goes on after it and returns it at the end. *)

Definition firstError (a b : option error) : option error :=
  match a with Some _ => a | None => b end.

Definition arrayWith (valueOf : json -> value * option error)
  : list json -> list value * option error :=
  fix array (l : list json) :=
    match l with
    | [] => ([], None)
    | x :: xs =>
      let '(v, e) := valueOf x in
      let '(vs, es) := array xs in
      (v :: vs, firstError e es)
    end.

(** The members are stored in the order of the text, so that of two
    members with one key the later one stays. *)
Definition objectWith (valueOf : json -> value * option error)
  : list (string * json) -> gmap string value -> gmap string value * option error :=
  fix object (l : list (string * json)) (m : gmap string value) :=
    match l with
    | [] => (m, None)
    | (key, x) :: xs =>
      let '(v, e) := valueOf x in
      let '(m', es) := object xs (<[unquote key := v]> m) in
      (m', firstError e es)
    end.

Fixpoint valueInterface (j : json) : value * option error :=
  match j with
  | JNull => (VNil, None)
  | JBool b => (VBool b, None)
  | JNumber lit => convertNumber lit
  | JString raw => (VString (unquote raw), None)
  | JArray elems =>
    let r := arrayWith valueInterface elems in (VSlice r.1, r.2)
  | JObject members =>
    let r := objectWith valueInterface members ∅ in (VMap r.1, r.2)
  end.

Definition objectInterface (members : list (string * json))
  : gmap string value * option error :=
  objectWith valueInterface members ∅.

Definition mapTypeError (what : string) : error :=
  "json: cannot unmarshal " ++ what ++ " into Go value of type map[string]interface {}".

(** Storing a scanned value into a nil variable of type
    map[string]interface{}: an object makes a map; null leaves the
    variable nil without an error (the package documents that the JSON
    null value unmarshals into an interface, map, pointer, or slice by
    setting that Go value to nil); anything else is an
    UnmarshalTypeError. *)
Definition unmarshalMap (j : json) : result Entry :=
  match j with
  | JNull => Ok None
  | JObject members =>
    match objectInterface members with
    | (m, None) => Ok (Some m)
    | (_, Some err) => Err err
    end
  | JArray _ => Err (mapTypeError "array")
  | JBool _ => Err (mapTypeError "bool")
  | JString _ => Err (mapTypeError "string")
  | JNumber _ => Err (mapTypeError "number")
  end.

(** [json.NewDecoder(bytes.NewReader(p)).Decode(&logEntry)] for a nil
    [logEntry]: read the first value of the stream, whatever follows it,
    and store it. *)
Definition Decode (p : list Byte.byte) : result Entry :=
  let s := string_of_list_byte p in
  match skipSpace s with
  | EmptyString => Err "EOF"
  | _ =>
    match scanValue (2 * String.length s + 2) 0 s with
    | Scanned j _ => unmarshalMap j
    | SyntaxError msg => Err msg
    | UnexpectedEOF => Err "unexpected EOF"
    end
  end.

(** *** Printing: json.Marshal

    Objects are written with their keys in byte order and nothing between
    the tokens, a nil map as null; strings escape the quote, the
    backslash, the bytes below 32, the characters <, > and &, U+2028 and
    U+2029, and replace what is not UTF-8 by U+FFFD.  A number is written
    as its literal. *)

Fixpoint appendString (fuel : nat) (s : string) : string :=
  match fuel with
  | O => EmptyString
  | S fuel =>
    match s with
    | EmptyString => EmptyString
    | String c r =>
      let n := N_of_ascii c in
      if Ascii.eqb c dquote || Ascii.eqb c backslash
      then str backslash ++ str c ++ appendString fuel r
      else if (n =? 8)%N then str backslash ++ "b" ++ appendString fuel r
      else if (n =? 12)%N then str backslash ++ "f" ++ appendString fuel r
      else if (n =? 10)%N then str backslash ++ "n" ++ appendString fuel r
      else if (n =? 13)%N then str backslash ++ "r" ++ appendString fuel r
      else if (n =? 9)%N then str backslash ++ "t" ++ appendString fuel r
      else if (n <? 32)%N || Ascii.eqb c "<"%char || Ascii.eqb c ">"%char
              || Ascii.eqb c "&"%char
      then str backslash ++ "u00" ++ hex2 n ++ appendString fuel r
      else if (n <? 128)%N then String c (appendString fuel r)
      else
        match runeLen s with
        | None => str backslash ++ "ufffd" ++ appendString fuel r
        | Some k =>
          let rune := takeBytes k s in
          (if String.eqb rune (encodeRune 8232) then str backslash ++ "u2028"
           else if String.eqb rune (encodeRune 8233) then str backslash ++ "u2029"
           else rune) ++ appendString fuel (dropBytes k s)
        end
    end
  end.

Definition quoted (s : string) : string :=
  str dquote ++ appendString (String.length s) s ++ str dquote.

Fixpoint insertSorted (kv : string * string) (l : list (string * string))
  : list (string * string) :=
  match l with
  | [] => [kv]
  | kv' :: rest =>
    if Stdlib.Strings.String.leb kv.1 kv'.1 then kv :: l
    else kv' :: insertSorted kv rest
  end.

Definition commaSep (l : list string) : string := String.concat "," l.

Definition printMembers (l : list (string * string)) : string :=
  "{" ++ commaSep (map (fun kv => quoted kv.1 ++ ":" ++ kv.2)
                       (foldr insertSorted [] l)) ++ "}".

Fixpoint marshalValue (v : value) : string :=
  let object (m : gmap string value) :=
    printMembers (map_fold (fun k v' acc => (k, marshalValue v') :: acc) [] m) in
  match v with
  | VNil => "null"
  | VBool true => "true"
  | VBool false => "false"
  | VNumber lit => lit
  | VString s => quoted s
  | VSlice l => "[" ++ commaSep (map marshalValue l) ++ "]"
  | VMap m => object m
  | VMaps l =>
    "[" ++ commaSep (map (fun o => match o with
                                   | None => "null"
                                   | Some m => object m
                                   end) l) ++ "]"
  end.

Definition Marshal (v : value) : result (list Byte.byte) :=
  Ok (list_byte_of_string (marshalValue v)).

End Json.

(** ** Worlds to run the writers in *)

Module Scenario.

Local Open Scope string_scope.

(** The environment of the README: Logstash at logstash.example.com:5000
    without TLS, a New Relic key, the default New Relic endpoint. *)
Definition getenv (name : string) : string :=
  if String.eqb name "LOGSTASH_HOST" then "logstash.example.com"
  else if String.eqb name "LOGSTASH_PORT" then "5000"
  else if String.eqb name "NEW_RELIC_API_KEY" then "your-new-relic-api-key-here"
  else EmptyString.

(** A clock that moves with the trace. *)
Definition clock (t : list ELK.Event) : Time :=
  mkTime 2024 1 2 3 4 5 (Z.of_nat (length t)).

(** A Logstash that accepts connections or refuses them ([listening]),
    and on whose connections writes go through or break ([writable]). *)
Definition logstash (listening writable : bool) : ELK.Env :=
  ELK.mkEnv Json.Decode clock
    (fun t _ address =>
       if listening then Ok (length t)
       else Err ("dial tcp " ++ address ++ ": connect: connection refused"))
    (fun _ _ _ => if writable then None else Some "write: broken pipe")
    (fun _ _ => None).

(** [url.Parse], as far as its first check: a URL holding an ASCII
    control character is refused. *)
Definition parseURL (url : string) : option error :=
  if existsb (fun c => (N_of_ascii c <? 32)%N || (N_of_ascii c =? 127)%N)
             (list_ascii_of_string url)
  then Some "net/url: invalid control character in URL"
  else None.

(** A New Relic that answers every request with [status]. *)
Definition newrelic (status : Z) : NewRelic.Env :=
  NewRelic.mkEnv Json.Decode Json.Marshal parseURL
    (fun _ _ _ => Ok (NewRelic.mkResponse status)).

Definition live : ELK.Env := logstash true true.
Definition broken : ELK.Env := logstash true false.
Definition down : ELK.Env := logstash false false.
Definition accepting : NewRelic.Env := newrelic 202.
Definition failing : NewRelic.Env := newrelic 500.

(** The payload of one log line, an object with the field msg. *)
Definition line : list Byte.byte :=
  list_byte_of_string
    ("{" ++ Json.quoted "msg" ++ ":" ++ Json.quoted "hi" ++ "}").

Definition lineRecord : gmap string value := {[ "msg" := VString "hi" ]}.

(** The payload null. *)
Definition null : list Byte.byte := list_byte_of_string "null".

(** The payload not-json of the spec. *)
Definition notJSON : list Byte.byte := list_byte_of_string "not-json".

(** The streaming writer the constructor returns, with the trace of the
    construction.  The environment names a host and a port, so the
    constructor does not return nil. *)
Definition elkStart (E : ELK.Env) : ELK.ELKRemoteSyncWriter * list ELK.Event :=
  match ELK.NewRemoteSyncWriter E getenv [] with
  | (Some w, t) => (w, t)
  | (None, t) => (ELK.mkWriter EmptyString EmptyString false None None [] 0 0, t)
  end.

(** [n] writes of [line], one after the other. *)
Fixpoint elkWrites (E : ELK.Env) (n : nat)
  (s : ELK.ELKRemoteSyncWriter * list ELK.Event)
  : ELK.ELKRemoteSyncWriter * list ELK.Event :=
  match n with
  | O => s
  | S n' =>
    let '(w, t) := elkWrites E n' s in
    let '(_, w', t') := ELK.Write E line w t in (w', t')
  end.

(** The streaming writer after construction and [n] writes of [line]. *)
Definition elkAfter (E : ELK.Env) (n : nat) : ELK.ELKRemoteSyncWriter * list ELK.Event :=
  elkWrites E n (elkStart E).

(** The constructed streaming writer with its batch size set to 5, as a
    test of the package would set it. *)
Definition elkSmall (E : ELK.Env) : ELK.ELKRemoteSyncWriter * list ELK.Event :=
  let '(w, t) := elkStart E in
  (ELK.mkWriter (ELK.host w) (ELK.port w) (ELK.useTLS w) (ELK.conn w)
                (ELK.encoder w) (ELK.buffer w) 5 (ELK.reconnectInterval w), t).

(** The batch writer the constructor returns; the environment holds an
    API key. *)
Definition newrelicStart : NewRelic.NewRelicRemoteSyncWriter * list NewRelic.Event :=
  match NewRelic.NewNewRelicRemoteSyncWriter getenv [] with
  | (Some w, t) => (w, t)
  | (None, t) => (NewRelic.mkWriter EmptyString EmptyString (NewRelic.mkClient 0) [] 0, t)
  end.

(** [n] writes of [line], one after the other. *)
Fixpoint newrelicWrites (E : NewRelic.Env) (n : nat)
  (s : NewRelic.NewRelicRemoteSyncWriter * list NewRelic.Event)
  : NewRelic.NewRelicRemoteSyncWriter * list NewRelic.Event :=
  match n with
  | O => s
  | S n' =>
    let '(w, t) := newrelicWrites E n' s in
    let '(_, w', t') := NewRelic.Write E line w t in (w', t')
  end.

(** The batch writer after construction and [n] writes of [line]. *)
Definition newrelicAfter (E : NewRelic.Env) (n : nat)
  : NewRelic.NewRelicRemoteSyncWriter * list NewRelic.Event :=
  newrelicWrites E n newrelicStart.

(** The constructed batch writer with its batch size set to 5. *)
Definition newrelicSmall : NewRelic.NewRelicRemoteSyncWriter * list NewRelic.Event :=
  let '(w, t) := newrelicStart in
  (NewRelic.mkWriter (NewRelic.apiKey w) (NewRelic.endpoint w) (NewRelic.client w)
                     (NewRelic.buffer w) 5, t).

End Scenario.

(** ** Calls one after the other *)

(** The streaming writer as its users drive it: the producer through
    Write, Sync and Close, the reconnection goroutine through the turns of
    its loop.  A panic ends the sequence. *)
Module ELKCalls.

Import ELK.

Inductive Call : Type :=
| CallWrite (p : list Byte.byte)
| CallSync
| CallClose
| CallTick.

Definition forget {A : Type} (r : outcome A * ELKRemoteSyncWriter * list Event)
  : outcome unit * ELKRemoteSyncWriter * list Event :=
  match r with
  | (Return _, w, t) => (Return tt, w, t)
  | (Panic msg, w, t) => (Panic msg, w, t)
  end.

Definition call (E : Env) (c : Call) (w : ELKRemoteSyncWriter) (t : list Event)
  : outcome unit * ELKRemoteSyncWriter * list Event :=
  match c with
  | CallWrite p => forget (Write E p w t)
  | CallSync => forget (Sync E w t)
  | CallClose => forget (Close E w t)
  | CallTick => reconnectionTick E w t
  end.

Fixpoint calls (E : Env) (cs : list Call) (w : ELKRemoteSyncWriter) (t : list Event)
  : outcome unit * ELKRemoteSyncWriter * list Event :=
  match cs with
  | [] => (Return tt, w, t)
  | c :: cs' =>
    match call E c w t with
    | (Panic msg, w1, t1) => (Panic msg, w1, t1)
    | (Return _, w1, t1) => calls E cs' w1 t1
    end
  end.

(** The payloads written one after the other, with what each Write
    returned. *)
Fixpoint writeAll (E : Env) (ps : list (list Byte.byte)) (w : ELKRemoteSyncWriter)
  (t : list Event) : list (Z * option error) * ELKRemoteSyncWriter * list Event :=
  match ps with
  | [] => ([], w, t)
  | p :: ps' =>
    match Write E p w t with
    | (Panic _, w1, t1) => ([], w1, t1)
    | (Return r, w1, t1) =>
      let '(rs, w2, t2) := writeAll E ps' w1 t1 in (r :: rs, w2, t2)
    end
  end.

(** What a list of events put on the wire: the entries whose Encode
    returned no error, in order. *)
Fixpoint wire (events : list Event) : list Entry :=
  match events with
  | [] => []
  | EvEncode _ entry None :: rest => entry :: wire rest
  | _ :: rest => wire rest
  end.

(** The events that leave the writer and the wire alone. *)
Definition quiet (ev : Event) : Prop :=
  match ev with
  | EvNow _ | EvSleep _ | EvPrint _ => True
  | EvDial _ _ (Err _) => True
  | _ => False
  end.

(** The payloads decode to these maps, one each. *)
Definition decodeTo (E : Env) (ps : list (list Byte.byte)) (ms : list (gmap string value))
  : Prop :=
  Forall2 (fun p m => Decode E p = Ok (Some m)) ps ms.

(** The records are the maps with the two fields set, each at some time. *)
Definition enrichedFrom (ms : list (gmap string value)) (records : list Entry) : Prop :=
  Forall2 (fun m r => exists tm, r = Some (enriched tm m)) ms records.

End ELKCalls.

Module NewRelicCalls.

Import NewRelic.

Fixpoint writeAll (E : Env) (ps : list (list Byte.byte)) (w : NewRelicRemoteSyncWriter)
  (t : list Event) : list (Z * option error) * NewRelicRemoteSyncWriter * list Event :=
  match ps with
  | [] => ([], w, t)
  | p :: ps' =>
    let '(r, w1, t1) := Write E p w t in
    let '(rs, w2, t2) := writeAll E ps' w1 t1 in
    (r :: rs, w2, t2)
  end.

(** The payloads decode to these entries, one each. *)
Definition decodeTo (E : Env) (ps : list (list Byte.byte)) (entries : list Entry) : Prop :=
  Forall2 (fun p entry => Decode E p = Ok entry) ps entries.

(** A backend that never answers 202. *)
Definition neverAccepts (E : Env) : Prop :=
  forall t c req resp, Do E t c req = Ok resp -> StatusCode resp <> StatusAccepted.

(** A backend that answers 202 to every request, behind a codec and an
    endpoint that never fail. *)
Definition alwaysAccepts (E : Env) (w : NewRelicRemoteSyncWriter) : Prop :=
  (forall t c req, exists resp, Do E t c req = Ok resp /\ StatusCode resp = StatusAccepted) /\
  (forall v, exists body, Marshal E v = Ok body) /\
  ParseURL E (endpoint w) = None.

(** The request that carried [chunk] for the writer [w], answered 202. *)
Definition carried (E : Env) (w : NewRelicRemoteSyncWriter) (ev : Event)
  (chunk : list Entry) : Prop :=
  exists body resp,
    Marshal E (VMap {[ "logs"%string := VMaps chunk ]}) = Ok body /\
    StatusCode resp = StatusAccepted /\
    ev = EvDo (client w) (requestOf (set_buffer chunk w) body) (Ok resp).

End NewRelicCalls.

(** ** An outage *)

Module Outage.

Local Open Scope string_scope.

(** A Logstash whose first connection breaks once two entries went over
    the wire; the connections dialled later hold. *)
Definition flaky : ELK.Env :=
  ELK.mkEnv Json.Decode Scenario.clock
    (fun t _ _ => Ok (length t))
    (fun t c _ =>
       if Nat.eqb c 0 && Nat.leb 2 (length (ELKCalls.wire t))
       then Some "write: broken pipe" else None)
    (fun _ _ => None).

(** The writer constructed against [flaky], with its batch size set to 5,
    after four writes of the line. *)
Definition beforeBreak : ELK.ELKRemoteSyncWriter * list ELK.Event :=
  let '(w, t) := Scenario.elkStart flaky in
  Scenario.elkWrites flaky 4
    (ELK.mkWriter (ELK.host w) (ELK.port w) (ELK.useTLS w) (ELK.conn w)
                  (ELK.encoder w) (ELK.buffer w) 5 (ELK.reconnectInterval w), t).

(** The flush in which the connection breaks. *)
Definition broke : outcome unit * ELK.ELKRemoteSyncWriter * list ELK.Event :=
  ELK.flushBuffer flaky beforeBreak.1 beforeBreak.2.

(** The next turn of the reconnection loop. *)
Definition healed : outcome unit * ELK.ELKRemoteSyncWriter * list ELK.Event :=
  ELK.reconnectionTick flaky broke.1.2 broke.2.

End Outage.

(** ** The package: logger.go *)

Module Logger.

(** A [zapcore.Level]. *)
Definition Level : Type := Z.

Definition DebugLevel : Level := (-1)%Z.
Definition InfoLevel : Level := 0%Z.
Definition WarnLevel : Level := 1%Z.
Definition ErrorLevel : Level := 2%Z.
Definition PanicLevel : Level := 4%Z.
Definition FatalLevel : Level := 5%Z.

(** An [*os.File], by the name it was opened with. *)
Definition File : Type := string.

(** The two encoders [init] makes, both from the one [encoderConfig]. *)
Inductive Encoder : Type := ConsoleEncoder | JSONEncoder.

(** What [zapcore.AddSync] is applied to. *)
Inductive WriteSyncer : Type :=
| Stdout
| OfFile (f : File)
| OfELK (w : ELK.ELKRemoteSyncWriter)
| OfNewRelic (w : NewRelic.NewRelicRemoteSyncWriter).

(** The cores, as [init] builds them out of [zapcore.NewCore] and
    [zapcore.NewTee]. *)
#[warnings="-register-all"]
Inductive Core : Type :=
| NewCore (enc : Encoder) (ws : WriteSyncer) (enab : Level)
| NewTee (cores : list Core).

(** A [*zap.Logger], by the arguments of [zap.New]: the core, whether
    [zap.AddCaller] was given, and the string fields of [zap.Fields]. *)
Record Logger : Type := mkLogger {
  core : Core;
  addCaller : bool;
  fields : list (string * string)
}.

(** The package variables. *)
Record Globals : Type := mkGlobals {
  Log : Logger;
  hostname : string;
  serviceName : string;
  initLog : gmap string string
}.

Inductive Event : Type :=
| EvMkdir (path : string) (err : option error)
| EvPrint (text : string)
| EvOpenFile (path : string) (r : result File)
| EvELK (ev : ELK.Event)
| EvNewRelic (ev : NewRelic.Event)
(** a call of a logging method of [Log] *)
| EvLog (level : Level) (message : string).

(** What [init] finds around it.  Each call is made at most once for an
    argument, so its answer is a function of the argument. *)
Record World : Type := mkWorld {
  (** [os.Hostname] *)
  Hostname : result string;
  (** [os.Getenv] *)
  Getenv : string -> string;
  (** [os.IsNotExist] of the error of [os.Stat] *)
  StatIsNotExist : string -> bool;
  (** [os.Mkdir] *)
  Mkdir : string -> option error;
  (** [os.OpenFile] with the flags append, create, write-only *)
  OpenFile : string -> result File;
  (** the network the streaming writer dials into *)
  Logstash : ELK.Env;
  (** the order in which [range] visits the entries of a map, which Go
      leaves open *)
  Range : list (string * string) -> list (string * string)
}.

(** The switch on [logLevel]. *)
Definition zapLevel (logLevel : string) : Level :=
  if String.eqb logLevel "debug" then DebugLevel
  else if String.eqb logLevel "info" then InfoLevel
  else if String.eqb logLevel "warn" then WarnLevel
  else if String.eqb logLevel "error" then ErrorLevel
  else if String.eqb logLevel "fatal" then FatalLevel
  else if String.eqb logLevel "panic" then PanicLevel
  else DebugLevel.

(** [init].  The constructors of the remote writers run on traces of
    their own; what the logging calls at the end do to the sinks is zap's
    and is not followed. *)
Definition init (W : World) : outcome Globals * list Event :=
  let initLog : gmap string string := ∅ in
  let '(hostname, initLog) :=
    match Hostname W with
    | Ok h => (h, initLog)
    | Err err =>
      ("unkw",
       <["hostnameMessage" :=
           "Error retrieving hostname: " +:+ err +:+ "Setting hostname to unkw"]> initLog)
    end in
  let '(serviceName, initLog) :=
    if bool_decide (Getenv W "SERVICE_NAME" = EmptyString) then
      ("sad_service",
       <["serviceNameMessage" :=
           "SERVICE_NAME is not set, using sad_service as default"]> initLog)
    else (Getenv W "SERVICE_NAME", initLog) in
  let t0 :=
    if StatIsNotExist W "./logs" then
      match Mkdir W "./logs" with
      | Some err =>
        [EvMkdir "./logs" (Some err);
         EvPrint ("Warning: Unable to create log directory './logs': " +:+ err +:+ newline)]
      | None => [EvMkdir "./logs" None]
      end
    else [] in
  match OpenFile W "./logs/logs.txt" with
  | Err err => (Panic err, t0 ++ [EvOpenFile "./logs/logs.txt" (Err err)])
  | Ok file =>
    let t1 := t0 ++ [EvOpenFile "./logs/logs.txt" (Ok file)] in
    match OpenFile W "./logs/errors.txt" with
    | Err err => (Panic err, t1 ++ [EvOpenFile "./logs/errors.txt" (Err err)])
    | Ok errorLog =>
      let t2 := t1 ++ [EvOpenFile "./logs/errors.txt" (Ok errorLog)] in
      let logLevel := Getenv W "LOG_LEVEL" in
      let logLevel := if bool_decide (logLevel = EmptyString) then "debug" else logLevel in
      let level := zapLevel logLevel in
      let core :=
        NewTee [NewCore ConsoleEncoder Stdout level;
                NewCore JSONEncoder (OfFile file) level;
                NewCore JSONEncoder (OfFile errorLog) ErrorLevel] in
      let '(core, t3) :=
        if bool_decide (Getenv W "ENABLE_REMOTE_SYNC_ELK" = "true") then
          match ELK.NewRemoteSyncWriter (Logstash W) (Getenv W) [] with
          | (Some remoteSyncWriter, events) =>
            (NewTee [core; NewCore JSONEncoder (OfELK remoteSyncWriter) level],
             t2 ++ map EvELK events)
          | (None, events) => (core, t2 ++ map EvELK events)
          end
        else (core, t2) in
      let '(core, t4) :=
        if bool_decide (Getenv W "ENABLE_REMOTE_SYNC_NEWRELIC" = "true") then
          match NewRelic.NewNewRelicRemoteSyncWriter (Getenv W) [] with
          | (Some newRelicWriter, events) =>
            (NewTee [core; NewCore JSONEncoder (OfNewRelic newRelicWriter) level],
             t3 ++ map EvNewRelic events)
          | (None, events) => (core, t3 ++ map EvNewRelic events)
          end
        else (core, t3) in
      let Log := mkLogger core true [("hostname", hostname); ("serviceName", serviceName)] in
      (Return (mkGlobals Log hostname serviceName initLog),
       t4 ++ [EvLog DebugLevel "Logger initialized"]
          ++ map (fun kv => EvLog InfoLevel (kv.1 +:+ ", " +:+ kv.2))
                 (Range W (map_to_list initLog))
          ++ [EvLog InfoLevel ("Logger set to " +:+ logLevel +:+ " level")])
    end
  end.

(** *** Notions used to state the properties of the package *)

(** The cores that write, from left to right, each with its encoder, its
    sink and the level from which it is enabled. *)
Fixpoint leaves (c : Core) : list (Encoder * WriteSyncer * Level) :=
  match c with
  | NewCore enc ws enab => [(enc, ws, enab)]
  | NewTee cores => concat (map leaves cores)
  end.

(** The level [init] derives from LOG_LEVEL. *)
Definition configuredLevel (W : World) : Level :=
  zapLevel (if bool_decide (Getenv W "LOG_LEVEL" = EmptyString)
            then "debug" else Getenv W "LOG_LEVEL").

(** The streaming writer [init] hands to zap, if any. *)
Definition remoteELK (W : World) : option ELK.ELKRemoteSyncWriter :=
  if bool_decide (Getenv W "ENABLE_REMOTE_SYNC_ELK" = "true"%string)
  then (ELK.NewRemoteSyncWriter (Logstash W) (Getenv W) []).1 else None.

(** The batch writer [init] hands to zap, if any. *)
Definition remoteNewRelic (W : World) : option NewRelic.NewRelicRemoteSyncWriter :=
  if bool_decide (Getenv W "ENABLE_REMOTE_SYNC_NEWRELIC" = "true"%string)
  then (NewRelic.NewNewRelicRemoteSyncWriter (Getenv W) []).1 else None.

(** The example configuration of the README, on a machine that has no
    logs directory yet and cannot reach Logstash. *)
Definition readme : World :=
  mkWorld (Ok "web-1")
    (fun name =>
       if String.eqb name "SERVICE_NAME" then "my-awesome-service"
       else if String.eqb name "LOG_LEVEL" then "info"
       else if String.eqb name "ENABLE_REMOTE_SYNC_ELK" then "true"
       else if String.eqb name "LOGSTASH_HOST" then "logstash.example.com"
       else if String.eqb name "LOGSTASH_PORT" then "5000"
       else if String.eqb name "LOGSTASH_USE_TLS" then "true"
       else if String.eqb name "ENABLE_REMOTE_SYNC_NEWRELIC" then "true"
       else if String.eqb name "NEW_RELIC_API_KEY" then "your-new-relic-api-key-here"
       else EmptyString)
    (fun _ => true) (fun _ => None) (fun path => Ok path)
    Scenario.down (fun l => l).

End Logger.

(** * Lists and traces *)

Lemma len_app {A : Type} (l : list A) (x : A) : len (l ++ [x]) = (len l + 1)%Z.
Proof. unfold len. rewrite length_app. simpl. lia. Qed.

Lemma len_nil_iff {A : Type} (l : list A) : len l = 0%Z <-> l = [].
Proof.
  unfold len. split.
  - destruct l; [reflexivity | simpl; lia].
  - intros ->. reflexivity.
Qed.

Lemma app_inv_nil {A : Type} (t new : list A) : t ++ new = t -> new = [].
Proof.
  intros H. apply (app_inv_head t). rewrite app_nil_r. exact H.
Qed.

Lemma since_app {A : Type} (t new : list A) : since t (t ++ new) = new.
Proof. unfold since. apply drop_app_length. Qed.

(** * Properties of the streaming writer *)

Module ELKFacts.

Import ELK.

Lemma delivered_In c l ev :
  In ev (delivered c l) -> exists entry, ev = EvEncode c entry None.
Proof.
  unfold delivered. rewrite in_map_iff. intros (entry & <- & _). eauto.
Qed.

Lemma delivered_no_failure c l : ~ encodeFailed (delivered c l).
Proof.
  intros (c' & entry & err & Hin).
  apply delivered_In in Hin as [entry' Heq]. discriminate.
Qed.

Lemma delivered_no_dial c l : ~ dialSucceeded (delivered c l).
Proof.
  intros (tls & a & c' & Hin).
  apply delivered_In in Hin as [entry' Heq]. discriminate.
Qed.

Lemma followsRules_same s new : followsRules s new s.
Proof. destruct s; split; intros; congruence. Qed.

Lemma followsRules_app s0 new1 s1 new2 s2 :
  followsRules s0 new1 s1 -> followsRules s1 new2 s2 ->
  followsRules s0 (new1 ++ new2) s2.
Proof.
  intros [D1 F1] [D2 F2]. split; intros H0 H2.
  - destruct s1.
    + destruct (D2 eq_refl H2) as (tls & a & c & Hin).
      exists tls, a, c. apply in_or_app. auto.
    + destruct (D1 H0 eq_refl) as (tls & a & c & Hin).
      exists tls, a, c. apply in_or_app. auto.
  - destruct s1.
    + destruct (F1 H0 eq_refl) as (c & e & err & Hin).
      exists c, e, err. apply in_or_app. auto.
    + destruct (F2 eq_refl H2) as (c & e & err & Hin).
      exists c, e, err. apply in_or_app. auto.
Qed.

Lemma wf_set_buffer b w : wf w -> wf (set_buffer b w).
Proof. exact (fun H => H). Qed.

Lemma wf_set_conn_None w : wf (set_conn None w).
Proof. left. reflexivity. Qed.

Section Facts.

Variable E : Env.

Lemma encodeEntries_run c entries t :
  loop_run E c entries t (encodeEntries E (Some c) entries t).
Proof.
  revert t. induction entries as [|entry rest IH]; intros t; simpl.
  - replace t with (t ++ delivered c []) at 2 by apply app_nil_r.
    constructor.
  - destruct (Encode E t c entry) as [err|] eqn:Henc.
    + replace (t ++ [EvEncode c entry (Some err)])
        with (t ++ delivered c [] ++ [EvEncode c entry (Some err)]) by reflexivity.
      apply (loop_failed E c (entry :: rest) t [] entry rest err); [reflexivity|].
      simpl. rewrite app_nil_r. exact Henc.
    + destruct (IH (t ++ [EvEncode c entry None])) as [|done e rest' err Hsplit Herr].
      * replace ((t ++ [EvEncode c entry None]) ++ delivered c rest)
          with (t ++ delivered c (entry :: rest))
          by (simpl; rewrite <- app_assoc; reflexivity).
        constructor.
      * replace ((t ++ [EvEncode c entry None]) ++ delivered c done
                 ++ [EvEncode c e (Some err)])
          with (t ++ delivered c (entry :: done) ++ [EvEncode c e (Some err)])
          by (simpl; rewrite <- app_assoc; reflexivity).
        apply (loop_failed E c (entry :: rest) t (entry :: done) e rest' err).
        -- rewrite Hsplit. reflexivity.
        -- simpl. rewrite <- app_assoc in Herr. exact Herr.
Qed.

Lemma flushBuffer_run w t : flush_run E w t (flushBuffer E w t).
Proof.
  unfold flushBuffer.
  destruct (conn w) as [c0|] eqn:Hconn; [|constructor; assumption].
  assert (Hup : conn w <> None) by congruence.
  destruct (encoder w) as [c|] eqn:Henc.
  - destruct (encodeEntries_run c (buffer w) t) as [|done entry rest err Hsplit Herr].
    + apply flush_sent. exact Hup.
    + replace ((t ++ delivered c done ++ [EvEncode c entry (Some err)])
               ++ [EvPrint ("Failed to encode log entry for ELK: " +:+ err +:+ newline)])
        with (t ++ delivered c done ++ [EvEncode c entry (Some err); encodeErrorLine err])
        by (rewrite <- !app_assoc; reflexivity).
      eapply flush_failed; eauto.
  - destruct (buffer w) as [|entry rest] eqn:Hbuf; simpl.
    + pose proof (flush_sent E w t 0%nat Hup) as Hsent.
      rewrite Hbuf in Hsent. simpl in Hsent. rewrite app_nil_r in Hsent.
      exact Hsent.
    + apply flush_panicked; congruence.
Qed.

Lemma flushBuffer_cases w t :
  (conn w = None /\ flushBuffer E w t = (Return tt, w, t)) \/
  (conn w <> None /\ exists c,
     flushBuffer E w t = (Return tt, set_buffer [] w, t ++ delivered c (buffer w))) \/
  (conn w <> None /\ exists c done entry rest err,
     encoder w = Some c /\ buffer w = done ++ entry :: rest /\
     Encode E (t ++ delivered c done) c entry = Some err /\
     flushBuffer E w t =
       (Return tt, set_conn None w,
        t ++ delivered c done ++ [EvEncode c entry (Some err); encodeErrorLine err])) \/
  (conn w <> None /\ encoder w = None /\ buffer w <> [] /\ exists msg,
     flushBuffer E w t = (Panic msg, w, t)).
Proof.
  destruct (flushBuffer_run w t) as [Hc|c Hc|c done entry rest err Hc He Hb Herr|msg Hc He Hb].
  - left. auto.
  - right. left. eauto.
  - right. right. left. split; [assumption|]. exists c, done, entry, rest, err. auto.
  - right. right. right. eauto.
Qed.

Ltac flush_cases w t H :=
  let Hconn := fresh "Hconn" in
  let Heq := fresh "Heq" in
  let c := fresh "c" in
  let done := fresh "done" in
  let entry := fresh "entry" in
  let rest := fresh "rest" in
  let err := fresh "err" in
  let Henc := fresh "Henc" in
  let Hbuf := fresh "Hbuf" in
  let Herr := fresh "Herr" in
  let msg := fresh "msg" in
  let Ho := fresh "Ho" in
  let Hw := fresh "Hw" in
  let Ht := fresh "Ht" in
  destruct (flushBuffer_cases w t)
    as [(Hconn & Heq)
       |[(Hconn & c & Heq)
        |[(Hconn & c & done & entry & rest & err & Henc & Hbuf & Herr & Heq)
         |(Hconn & Henc & Hbuf & msg & Heq)]]];
  rewrite Heq in H;
  apply pair_equal_spec in H as [H Ht]; apply pair_equal_spec in H as [Ho Hw];
  symmetry in Ho; symmetry in Hw; symmetry in Ht.

Lemma flushBuffer_disconnected w t :
  conn w = None -> flushBuffer E w t = (Return tt, w, t).
Proof. intros H. unfold flushBuffer. rewrite H. reflexivity. Qed.

(** A flush either leaves the buffer as it was, or it was connected, wrote
    every entry in order and emptied the buffer. *)
Lemma flushBuffer_either w t o w' t' :
  flushBuffer E w t = (o, w', t') ->
  buffer w' = buffer w \/
  (o = Return tt /\ conn w <> None /\ w' = set_buffer [] w /\
   exists c, t' = t ++ delivered c (buffer w)).
Proof.
  intros H. flush_cases w t H; subst; auto.
  right. repeat split; eauto.
Qed.

(** A flush in which an Encode fails keeps the writer but for [conn]. *)
Lemma flushBuffer_failed w t o w' new :
  flushBuffer E w t = (o, w', t ++ new) ->
  encodeFailed new ->
  o = Return tt /\ w' = set_conn None w.
Proof.
  intros H Hfail. flush_cases w t H.
  - apply app_inv_nil in Ht. subst new. destruct Hfail as (? & ? & ? & []).
  - apply app_inv_head in Ht. subst new.
    exfalso. exact (delivered_no_failure _ _ Hfail).
  - auto.
  - apply app_inv_nil in Ht. subst new. destruct Hfail as (? & ? & ? & []).
Qed.

(** A flush that ran on a connected writer without a failing Encode and
    returned has emptied the buffer. *)
Lemma flushBuffer_succeeded w t w' new :
  flushBuffer E w t = (Return tt, w', t ++ new) ->
  conn w <> None ->
  ~ encodeFailed new ->
  w' = set_buffer [] w /\ exists c, new = delivered c (buffer w).
Proof.
  intros H Hup Hnofail. flush_cases w t H.
  - contradiction.
  - apply app_inv_head in Ht. eauto.
  - apply app_inv_head in Ht. subst new. exfalso. apply Hnofail.
    exists c, entry, err. apply in_or_app. right. left. reflexivity.
  - discriminate.
Qed.

Lemma flushBuffer_wf w t :
  wf w -> exists w' t', flushBuffer E w t = (Return tt, w', t') /\ wf w'.
Proof.
  intros Hwf. destruct (flushBuffer E w t) as [[o w'] t'] eqn:H.
  flush_cases w t H; subst; eauto using wf_set_buffer, wf_set_conn_None.
  destruct Hwf as [Hwf|Hwf]; congruence.
Qed.

Lemma flushBuffer_keeps_wf w t o w' t' :
  flushBuffer E w t = (o, w', t') -> wf w -> wf w'.
Proof.
  intros H Hwf. flush_cases w t H; subst; auto using wf_set_buffer, wf_set_conn_None.
Qed.

(** The events of a flush, and the transition rules. *)
Lemma flushBuffer_rules w t o w' t' :
  flushBuffer E w t = (o, w', t') ->
  exists new, t' = t ++ new /\ ~ dialSucceeded new /\
              followsRules (state w) new (state w').
Proof.
  intros H. flush_cases w t H; subst.
  - exists []. rewrite app_nil_r. repeat split; try congruence.
    intros (? & ? & ? & []).
  - exists (delivered c (buffer w)). split; [reflexivity|].
    split; [apply delivered_no_dial|]. apply followsRules_same.
  - eexists. split; [reflexivity|]. split.
    + intros (tls & a & c' & Hin). apply in_app_or in Hin as [Hin|Hin].
      * apply delivered_In in Hin as [? ?]. discriminate.
      * destruct Hin as [Hin|[Hin|[]]]; discriminate.
    + split; [intros _; discriminate|]. intros _ _.
      exists c, entry, err. apply in_or_app. right. left. reflexivity.
  - exists []. rewrite app_nil_r. repeat split; try congruence.
    intros (? & ? & ? & []).
Qed.

(** *** connect *)

Lemma connect_disconnected_ok w t c :
  conn w = None ->
  Dial E t (useTLS w) (host w +:+ ":" +:+ port w) = Ok c ->
  connect E w t =
    (None, set_encoder (Some c) (set_conn (Some c) w),
     t ++ [EvDial (useTLS w) (host w +:+ ":" +:+ port w) (Ok c)]).
Proof. intros Hc Hd. unfold connect. rewrite Hc, Hd. reflexivity. Qed.

Lemma connect_disconnected_err w t err :
  conn w = None ->
  Dial E t (useTLS w) (host w +:+ ":" +:+ port w) = Err err ->
  connect E w t =
    (Some err, w, t ++ [EvDial (useTLS w) (host w +:+ ":" +:+ port w) (Err err)]).
Proof. intros Hc Hd. unfold connect. rewrite Hc, Hd. reflexivity. Qed.

Lemma connect_rules w t r w' t' :
  connect E w t = (r, w', t') ->
  exists new, t' = t ++ new /\ ~ encodeFailed new /\
              followsRules (state w) new (state w') /\ (wf w -> wf w').
Proof.
  unfold connect. intros H.
  set (t1 := match conn w with
             | Some c => t ++ [EvClose c (ConnClose E t c)]
             | None => t
             end) in *.
  assert (Ht1 : exists closing, t1 = t ++ closing /\
                  forall ev, In ev closing -> exists c e, ev = EvClose c e).
  { subst t1. destruct (conn w) as [c|].
    - eexists. split; [reflexivity|]. intros ev [<-|[]]. eauto.
    - exists []. rewrite app_nil_r. split; [reflexivity|]. intros ev []. }
  destruct Ht1 as (closing & Ht1 & Hclosing). rewrite Ht1 in *. clear Ht1 t1.
  destruct (Dial E (t ++ closing) (useTLS w) (host w +:+ ":" +:+ port w))
    as [c|err] eqn:Hd; inversion H; subst; clear H;
    eexists; (split; [rewrite <- app_assoc; reflexivity|]).
  - split.
    + intros (c' & e & err & Hin). apply in_app_or in Hin as [Hin|[Hin|[]]].
      * apply Hclosing in Hin as (? & ? & ?). discriminate.
      * discriminate.
    + split.
      * split; [|intros _; discriminate].
        intros _ _. exists (useTLS w), (host w +:+ ":" +:+ port w), c.
        apply in_or_app. right. left. reflexivity.
      * intros _. right. reflexivity.
  - split.
    + intros (c' & e & err' & Hin). apply in_app_or in Hin as [Hin|[Hin|[]]].
      * apply Hclosing in Hin as (? & ? & ?). discriminate.
      * discriminate.
    + split; [apply followsRules_same | auto].
Qed.

(** *** Write, Sync and Close in terms of flushBuffer *)

Lemma Write_decode_error p w t err :
  Decode E p = Err err ->
  Write E p w t =
    (Return (0%Z, Some ("failed to decode log entry: " +:+ err)), w, t).
Proof. intros H. unfold Write. rewrite H. reflexivity. Qed.

Lemma Write_nil_map p w t :
  Decode E p = Ok None ->
  Write E p w t =
    (Panic "assignment to entry in nil map", w, t ++ [EvNow (Now E t)]).
Proof. intros H. unfold Write. rewrite H. reflexivity. Qed.

Lemma Write_below p w t m :
  Decode E p = Ok (Some m) ->
  (len (buffer w) + 1 < batchSize w)%Z ->
  Write E p w t =
    (Return (len p, None),
     set_buffer (buffer w ++ [Some (enriched (Now E t) m)]) w,
     t ++ [EvNow (Now E t)]).
Proof.
  intros H Hlt. unfold Write. rewrite H. simpl. rewrite len_app.
  destruct (Z.leb_spec (batchSize w) (len (buffer w) + 1)); [lia|reflexivity].
Qed.

Lemma Write_flushing p w t m :
  Decode E p = Ok (Some m) ->
  (batchSize w <= len (buffer w) + 1)%Z ->
  Write E p w t =
    match flushBuffer E (set_buffer (buffer w ++ [Some (enriched (Now E t) m)]) w)
                      (t ++ [EvNow (Now E t)]) with
    | (Panic msg, w2, t2) => (Panic msg, w2, t2)
    | (Return _, w2, t2) => (Return (len p, None), w2, t2)
    end.
Proof.
  intros H Hle. unfold Write. rewrite H. simpl. rewrite len_app.
  destruct (Z.leb_spec (batchSize w) (len (buffer w) + 1)); [reflexivity|lia].
Qed.

(** After a write of a payload that decodes to a map, the record with the
    two fields is the last of the buffer, or the buffer is empty and the
    record was the last one written to the connection. *)
Lemma Write_decoded p w t m :
  Decode E p = Ok (Some m) ->
  buffer (Write E p w t).1.2 = buffer w ++ [Some (enriched (Now E t) m)] \/
  (buffer (Write E p w t).1.2 = [] /\
   (batchSize w <= len (buffer w) + 1)%Z /\
   (Write E p w t).1.1 = Return (len p, None) /\
   exists c, (Write E p w t).2 =
             t ++ EvNow (Now E t)
               :: delivered c (buffer w ++ [Some (enriched (Now E t) m)])).
Proof.
  intros Hd.
  destruct (Z.le_gt_cases (batchSize w) (len (buffer w) + 1)) as [Hle|Hgt].
  - rewrite (Write_flushing p w t m Hd Hle).
    set (w1 := set_buffer _ w). set (t1 := t ++ _).
    destruct (flushBuffer E w1 t1) as [[o w2] t2] eqn:Hf.
    destruct (flushBuffer_either _ _ _ _ _ Hf) as [Hkeep|(-> & _ & -> & c & ->)].
    + left. destruct o as [[]|msg]; exact Hkeep.
    + right. simpl. repeat split; [assumption|].
      exists c. subst t1. rewrite <- app_assoc. reflexivity.
  - rewrite (Write_below p w t m Hd) by lia. left. reflexivity.
Qed.

(** A write of a payload that decodes to a map starts by reading the
    clock. *)
Lemma Write_reads_clock p w t m :
  Decode E p = Ok (Some m) ->
  exists rest, since t (Write E p w t).2 = EvNow (Now E t) :: rest.
Proof.
  intros Hd.
  destruct (Z.le_gt_cases (batchSize w) (len (buffer w) + 1)) as [Hle|Hgt].
  - rewrite (Write_flushing p w t m Hd Hle).
    set (w1 := set_buffer _ w).
    destruct (flushBuffer E w1 (t ++ [EvNow (Now E t)])) as [[o w2] t2] eqn:Hf.
    destruct (flushBuffer_rules _ _ _ _ _ Hf) as (new & -> & _).
    exists new. destruct o as [[]|msg]; simpl;
      rewrite <- app_assoc; apply since_app.
  - rewrite (Write_below p w t m Hd) by lia. exists []. apply since_app.
Qed.

(** [Write] returns an error only when the payload does not decode, and
    then nothing else has happened. *)
Lemma Write_error p w t n err :
  (Write E p w t).1.1 = Return (n, Some err) ->
  exists derr, Decode E p = Err derr /\
               Write E p w t =
                 (Return (0%Z, Some ("failed to decode log entry: " +:+ derr)), w, t).
Proof.
  destruct (Decode E p) as [[m|]|derr] eqn:Hd.
  - destruct (Z.le_gt_cases (batchSize w) (len (buffer w) + 1)) as [Hle|Hgt].
    + rewrite (Write_flushing p w t m Hd Hle).
      destruct (flushBuffer E _ _) as [[[[]|msg] w2] t2]; discriminate.
    + rewrite (Write_below p w t m Hd) by lia. discriminate.
  - rewrite (Write_nil_map p w t Hd). discriminate.
  - intros _. exists derr. split; [reflexivity|]. apply Write_decode_error. exact Hd.
Qed.

Lemma Write_wf_returns p w t m :
  Decode E p = Ok (Some m) -> wf w ->
  (Write E p w t).1.1 = Return (len p, None).
Proof.
  intros Hd Hwf.
  destruct (Z.le_gt_cases (batchSize w) (len (buffer w) + 1)) as [Hle|Hgt].
  - rewrite (Write_flushing p w t m Hd Hle).
    set (w1 := set_buffer _ w).
    destruct (flushBuffer_wf w1 (t ++ [EvNow (Now E t)])) as (w2 & t2 & -> & _);
      [exact Hwf|reflexivity].
  - rewrite (Write_below p w t m Hd) by lia. reflexivity.
Qed.

Lemma Sync_no_error w t err : (Sync E w t).1.1 <> Return (Some err).
Proof.
  unfold Sync. destruct (flushBuffer E w t) as [[[[]|msg] w'] t']; discriminate.
Qed.

Lemma Sync_wf w t : wf w -> (Sync E w t).1.1 = Return None.
Proof.
  intros Hwf. unfold Sync.
  destruct (flushBuffer_wf w t Hwf) as (w' & t' & -> & _). reflexivity.
Qed.

Lemma Close_error w t err :
  (Close E w t).1.1 = Return (Some err) ->
  exists t1 c, ConnClose E t1 c = Some err.
Proof.
  unfold Close. destruct (flushBuffer E w t) as [[[[]|msg] w'] t']; [|discriminate].
  destruct (conn w') as [c|]; simpl; [|discriminate].
  intros H. exists t', c. congruence.
Qed.

Lemma flushBuffer_keeps w t : keeps w t (flushBuffer E w t).
Proof.
  destruct (flushBuffer E w t) as [[o w'] t'] eqn:H.
  destruct (flushBuffer_rules _ _ _ _ _ H) as (new & -> & _ & Hrules).
  exists new. simpl. eauto using flushBuffer_keeps_wf.
Qed.

Lemma connect_keeps w t : keeps w t (connect E w t).
Proof.
  destruct (connect E w t) as [[o w'] t'] eqn:H.
  destruct (connect_rules _ _ _ _ _ H) as (new & -> & _ & Hrules & Hwf).
  exists new. simpl. auto.
Qed.

Lemma Sync_keeps w t : keeps w t (Sync E w t).
Proof.
  unfold Sync. destruct (flushBuffer_keeps w t) as (new & Ht & Hr & Hwf).
  destruct (flushBuffer E w t) as [[[[]|msg] w'] t']; exists new; auto.
Qed.

Lemma Close_keeps w t : keeps w t (Close E w t).
Proof.
  unfold Close. destruct (flushBuffer_keeps w t) as (new & Ht & Hr & Hwf).
  destruct (flushBuffer E w t) as [[[[]|msg] w'] t']; simpl in *.
  - destruct (conn w') as [c|] eqn:Hc; simpl.
    + exists (new ++ [EvClose c (ConnClose E t' c)]). subst t'.
      rewrite app_assoc. split; [reflexivity|]. split; [|assumption].
      eapply followsRules_app; [exact Hr|apply followsRules_same].
    + exists new. auto.
  - exists new. auto.
Qed.

Lemma Write_keeps p w t : keeps w t (Write E p w t).
Proof.
  destruct (Decode E p) as [[m|]|err] eqn:Hd.
  - destruct (Z.le_gt_cases (batchSize w) (len (buffer w) + 1)) as [Hle|Hgt].
    + rewrite (Write_flushing p w t m Hd Hle).
      set (w1 := set_buffer _ w).
      destruct (flushBuffer_keeps w1 (t ++ [EvNow (Now E t)])) as (new & Ht & Hr & Hwf).
      destruct (flushBuffer E w1 (t ++ [EvNow (Now E t)])) as [[[[]|msg] w'] t'];
        simpl in *; exists ([EvNow (Now E t)] ++ new); subst t';
        (split; [rewrite app_assoc; reflexivity|]);
        (split; [eapply followsRules_app; [apply (followsRules_same (state w))|exact Hr]
                |exact Hwf]).
    + rewrite (Write_below p w t m Hd) by lia.
      exists [EvNow (Now E t)]. simpl. split; [reflexivity|].
      split; [apply (followsRules_same (state w))|exact (fun H => H)].
  - rewrite (Write_nil_map p w t Hd).
    exists [EvNow (Now E t)]. simpl. split; [reflexivity|].
    split; [apply followsRules_same|auto].
  - rewrite (Write_decode_error p w t err Hd).
    exists []. simpl. rewrite app_nil_r. split; [reflexivity|].
    split; [apply followsRules_same|auto].
Qed.

Lemma reconnectionTick_keeps w t : keeps w t (reconnectionTick E w t).
Proof.
  unfold reconnectionTick.
  destruct (conn w) as [c|] eqn:Hc.
  - exists [EvSleep (reconnectInterval w)]. simpl. split; [reflexivity|].
    split; [apply followsRules_same|auto].
  - destruct (connect_keeps w (t ++ [EvSleep (reconnectInterval w)]))
      as (new1 & Ht1 & Hr1 & Hwf1).
    destruct (connect E w (t ++ [EvSleep (reconnectInterval w)]))
      as [[[err|] w1] t1]; simpl in *; subst t1.
    + eexists. split; [rewrite <- !app_assoc; reflexivity|].
      split; [|exact Hwf1].
      change (EvSleep (reconnectInterval w) :: new1 ++ [?x])
        with ([EvSleep (reconnectInterval w)] ++ new1 ++ [x]).
      eapply followsRules_app; [apply followsRules_same|].
      eapply followsRules_app; [exact Hr1|apply followsRules_same].
    + match goal with |- keeps _ _ (flushBuffer E w1 ?tt) =>
        destruct (flushBuffer_keeps w1 tt) as (new2 & Ht2 & Hr2 & Hwf2)
      end.
      eexists. split; [rewrite Ht2; rewrite <- !app_assoc; reflexivity|].
      split; [|auto].
      eapply (followsRules_app _ [EvSleep (reconnectInterval w)]);
        [apply followsRules_same|].
      eapply followsRules_app; [exact Hr1|].
      eapply (followsRules_app _ [_]); [apply followsRules_same|exact Hr2].
Qed.

Lemma keeps_since {A : Type} w t (r : A * ELKRemoteSyncWriter * list Event) :
  keeps w t r -> followsRules (state w) (since t r.2) (state r.1.2).
Proof.
  intros (new & -> & Hr & _). rewrite since_app. exact Hr.
Qed.

Lemma NewRemoteSyncWriter_wf getenv t w t' :
  NewRemoteSyncWriter E getenv t = (Some w, t') -> wf w.
Proof.
  unfold NewRemoteSyncWriter.
  destruct (_ || _); [discriminate|].
  match goal with |- context [connect E ?w0 t] =>
    destruct (connect_keeps w0 t) as (new & _ & _ & Hwf);
    destruct (connect E w0 t) as [[[err|] w1] t1]
  end; intros H; inversion H; subst; apply Hwf; left; reflexivity.
Qed.

End Facts.

End ELKFacts.

(** * Properties of the batch HTTP writer *)

Module NewRelicFacts.

Import NewRelic.

Lemma requestOf_parts w body :
  Method (requestOf w body) = "POST"%string /\
  URL (requestOf w body) = endpoint w /\
  Body (requestOf w body) = body /\
  Header (requestOf w body) !! "Content-Type"%string = Some ["application/json"%string] /\
  Header (requestOf w body) !! "Api-Key"%string = Some [apiKey w] /\
  dom (Header (requestOf w body)) = {[ "Content-Type"%string; "Api-Key"%string ]}.
Proof.
  unfold requestOf, Header_Set. simpl.
  split; [reflexivity|]. split; [reflexivity|]. split; [reflexivity|].
  split; [rewrite lookup_insert_ne by discriminate; apply lookup_insert_eq|].
  split; [apply lookup_insert_eq|].
  rewrite !dom_insert_L, dom_empty_L. set_solver.
Qed.

Section Facts.

Variable E : Env.

Lemma flush_empty w t : buffer w = [] -> flush E w t = (None, w, t).
Proof. intros H. unfold flush. rewrite H. reflexivity. Qed.

Lemma buffer_nonempty_len (w : NewRelicRemoteSyncWriter) :
  buffer w <> [] -> (len (buffer w) =? 0)%Z = false.
Proof.
  intros H. apply Z.eqb_neq. unfold len. destruct (buffer w); [congruence|simpl; lia].
Qed.

(** [flush] on a buffer that is not empty, when the request can be built:
    one call of [Do], and the result by its answer. *)
Lemma flush_sends w t body :
  buffer w <> [] ->
  Marshal E (payloadOf w) = Ok body ->
  ParseURL E (endpoint w) = None ->
  flush E w t =
    let req := requestOf w body in
    let r := Do E t (client w) req in
    let t1 := t ++ [EvDo (client w) req r] in
    match r with
    | Err err => (Some ("failed to send logs to New Relic: " +:+ err), w, t1)
    | Ok resp =>
      if (StatusCode resp =? StatusAccepted)%Z then (None, set_buffer [] w, t1)
      else (Some ("new relic API returned unexpected status code: "
                  +:+ pretty (StatusCode resp)), w, t1)
    end.
Proof.
  intros Hb Hm Hu. unfold flush, NewRequest.
  rewrite (buffer_nonempty_len w Hb).
  change (VMap {[ "logs"%string := VMaps (buffer w) ]}) with (payloadOf w).
  rewrite Hm, Hu. fold (requestOf w body). simpl.
  destruct (Do E t (client w) (requestOf w body)) as [resp|err]; [|reflexivity].
  destruct (StatusCode resp =? StatusAccepted)%Z; reflexivity.
Qed.

(** When the document or the request cannot be built, [flush] returns
    the error and calls nothing. *)
Lemma flush_not_built w t :
  buffer w <> [] ->
  (exists err, Marshal E (payloadOf w) = Err err) \/
  (exists err, ParseURL E (endpoint w) = Some err) ->
  exists err, flush E w t = (Some err, w, t).
Proof.
  intros Hb H. unfold flush, NewRequest. rewrite (buffer_nonempty_len w Hb).
  change (VMap {[ "logs"%string := VMaps (buffer w) ]}) with (payloadOf w).
  destruct (Marshal E (payloadOf w)) as [body|err]; [|eauto].
  destruct H as [[err H]|[err H]]; [discriminate|]. rewrite H. eauto.
Qed.

(** A flush that returns an error has not touched the writer; every
    flush extends the trace by at most one request. *)
Lemma flush_result w t r w' t' :
  flush E w t = (r, w', t') ->
  (exists new, t' = t ++ new /\ (length new <= 1)%nat) /\
  match r with
  | Some _ => w' = w
  | None => w' = set_buffer [] w
  end.
Proof.
  unfold flush, NewRequest.
  destruct (len (buffer w) =? 0)%Z eqn:Hlen.
  { intros H; inversion H; subst. split.
    - exists []. rewrite app_nil_r. auto.
    - apply Z.eqb_eq, len_nil_iff in Hlen.
      destruct w'; simpl in *; subst; reflexivity. }
  destruct (Marshal E _) as [body|err].
  2:{ intros H; inversion H; subst. split; [|reflexivity].
      exists []. rewrite app_nil_r. auto. }
  destruct (ParseURL E (endpoint w)) as [err|].
  { intros H; inversion H; subst. split; [|reflexivity].
    exists []. rewrite app_nil_r. auto. }
  simpl.
  match goal with |- context [Do E t (client w) ?req] =>
    destruct (Do E t (client w) req) as [resp|err]
  end.
  - destruct (StatusCode resp =? StatusAccepted)%Z; simpl;
      intros H; inversion H; subst; (split; [eexists; split; [reflexivity|simpl; lia]|reflexivity]).
  - intros H; inversion H; subst. split; [eexists; split; [reflexivity|simpl; lia]|reflexivity].
Qed.

(** A flush that returns no error found the buffer empty, or posted it
    and was answered 202. *)
Lemma flush_ok_sent w t w' t' :
  flush E w t = (None, w', t') ->
  w' = set_buffer [] w /\
  ((buffer w = [] /\ t' = t) \/
   exists body resp,
     Marshal E (payloadOf w) = Ok body /\
     ParseURL E (endpoint w) = None /\
     StatusCode resp = StatusAccepted /\
     t' = t ++ [EvDo (client w) (requestOf w body) (Ok resp)]).
Proof.
  intros H. split; [apply (flush_result _ _ _ _ _ H)|].
  destruct (buffer w) as [|e l] eqn:Hb.
  - left. rewrite flush_empty in H by assumption. inversion H. auto.
  - right. assert (Hne : buffer w <> []) by congruence.
    revert H. unfold flush, NewRequest. rewrite (buffer_nonempty_len w Hne).
    change (VMap {[ "logs"%string := VMaps (buffer w) ]}) with (payloadOf w).
    destruct (Marshal E (payloadOf w)) as [body|err]; [|discriminate].
    destruct (ParseURL E (endpoint w)) as [err|]; [discriminate|].
    fold (requestOf w body). simpl.
    destruct (Do E t (client w) (requestOf w body)) as [resp|err]; [|discriminate].
    destruct (Z.eqb_spec (StatusCode resp) StatusAccepted) as [Hst|Hst];
      simpl; [|discriminate].
    intros H. inversion H. subst. exists body, resp. auto.
Qed.

Lemma flush_error_keeps w t err w' t' :
  flush E w t = (Some err, w', t') -> w' = w.
Proof. intros H. apply (flush_result _ _ _ _ _ H). Qed.

Lemma flush_ok_empties w t w' t' :
  flush E w t = (None, w', t') -> buffer w' = [].
Proof. intros H. destruct (flush_result _ _ _ _ _ H) as [_ ->]. reflexivity. Qed.

Lemma batch_Write_decode_error p w t err :
  Decode E p = Err err ->
  Write E p w t = ((0%Z, Some ("failed to decode log entry: " +:+ err)), w, t).
Proof. intros H. unfold Write. rewrite H. reflexivity. Qed.

Lemma batch_Write_below p w t entry :
  Decode E p = Ok entry ->
  (len (buffer w) + 1 < batchSize w)%Z ->
  Write E p w t = ((len p, None), set_buffer (buffer w ++ [entry]) w, t).
Proof.
  intros H Hlt. unfold Write. rewrite H. simpl. rewrite len_app.
  destruct (Z.leb_spec (batchSize w) (len (buffer w) + 1)); [lia|reflexivity].
Qed.

Lemma batch_Write_flushing p w t entry :
  Decode E p = Ok entry ->
  (batchSize w <= len (buffer w) + 1)%Z ->
  Write E p w t =
    match flush E (set_buffer (buffer w ++ [entry]) w) t with
    | (Some err, w2, t2) => ((0%Z, Some err), w2, t2)
    | (None, w2, t2) => ((len p, None), w2, t2)
    end.
Proof.
  intros H Hle. unfold Write. rewrite H. simpl. rewrite len_app.
  destruct (Z.leb_spec (batchSize w) (len (buffer w) + 1)); [reflexivity|lia].
Qed.

End Facts.

End NewRelicFacts.

(** * The claims *)

(** The writers of [Scenario] are the ones the constructors return. *)
Lemma elkStart_constructed (E : ELK.Env) :
  ELK.NewRemoteSyncWriter E Scenario.getenv [] =
    (Some (Scenario.elkStart E).1, (Scenario.elkStart E).2).
Proof.
  unfold Scenario.elkStart.
  destruct (ELK.NewRemoteSyncWriter E Scenario.getenv []) as [[w|] t] eqn:H;
    [reflexivity|].
  exfalso. revert H. unfold ELK.NewRemoteSyncWriter. simpl.
  destruct (ELK.connect E _ []) as [[[err|] w1] t1]; discriminate.
Qed.

Lemma newrelicStart_constructed :
  NewRelic.NewNewRelicRemoteSyncWriter Scenario.getenv [] =
    (Some Scenario.newrelicStart.1, Scenario.newrelicStart.2).
Proof. reflexivity. Qed.

Lemma elkAfter_wf (E : ELK.Env) (n : nat) : ELK.wf (Scenario.elkAfter E n).1.
Proof.
  unfold Scenario.elkAfter. induction n as [|n IH]; simpl.
  - eapply ELKFacts.NewRemoteSyncWriter_wf. apply elkStart_constructed.
  - destruct (Scenario.elkWrites E n (Scenario.elkStart E)) as [w t]. simpl in IH.
    destruct (ELKFacts.Write_keeps E Scenario.line w t) as (new & _ & _ & Hwf).
    destruct (ELK.Write E Scenario.line w t) as [[o w'] t']. simpl in *. auto.
Qed.

(** The layout RFC3339Nano on sample times: fields padded with zeros, the
    fraction cut after its last digit that is not zero and left out when
    it is zero, the zone Z. *)
Example FormatRFC3339Nano_samples :
  FormatRFC3339Nano (mkTime 2026 10 31 23 59 59 999999999)
  = "2026-10-31T23:59:59.999999999Z"%string /\
  FormatRFC3339Nano (mkTime 2026 10 31 0 0 0 500000000)
  = "2026-10-31T00:00:00.5Z"%string /\
  FormatRFC3339Nano (mkTime 2026 10 31 0 0 0 1000)
  = "2026-10-31T00:00:00.000001Z"%string /\
  FormatRFC3339Nano (mkTime 987 1 2 3 4 5 0) = "0987-01-02T03:04:05Z"%string.
Proof. vm_compute. repeat split; reflexivity. Qed.

(** ** The end-to-end scenarios, on writers with batch size 5 *)

(** A: three records written; the buffer holds three, and nothing went to
    the network: no Encode on the connection, no request. *)
Example scenario_A :
  length (ELK.buffer (Scenario.elkWrites Scenario.live 3 (Scenario.elkSmall Scenario.live)).1)
  = 3%nat /\
  since (Scenario.elkSmall Scenario.live).2
        (Scenario.elkWrites Scenario.live 3 (Scenario.elkSmall Scenario.live)).2
  = [ELK.EvNow (mkTime 2024 1 2 3 4 5 1); ELK.EvNow (mkTime 2024 1 2 3 4 5 2);
     ELK.EvNow (mkTime 2024 1 2 3 4 5 3)] /\
  length (NewRelic.buffer
            (Scenario.newrelicWrites Scenario.accepting 3 Scenario.newrelicSmall).1)
  = 3%nat /\
  (Scenario.newrelicWrites Scenario.accepting 3 Scenario.newrelicSmall).2 = [].
Proof. vm_compute. repeat split; reflexivity. Qed.

(** B: the fifth record on a live connection; one flush carries the five
    records in the order of their writes, and the buffer is empty. *)
Example scenario_B :
  since (Scenario.elkWrites Scenario.live 4 (Scenario.elkSmall Scenario.live)).2
        (Scenario.elkWrites Scenario.live 5 (Scenario.elkSmall Scenario.live)).2
  = ELK.EvNow (mkTime 2024 1 2 3 4 5 5)
      :: ELK.delivered 0%nat
           (map (fun n => Some (ELK.enriched (mkTime 2024 1 2 3 4 5 n) Scenario.lineRecord))
                [1; 2; 3; 4; 5]%Z) /\
  ELK.buffer (Scenario.elkWrites Scenario.live 5 (Scenario.elkSmall Scenario.live)).1 = [].
Proof. vm_compute. repeat split; reflexivity. Qed.

(** C: a write while Logstash is down; the buffer grows by one and no
    Encode is tried. *)
Example scenario_C :
  ELK.conn (Scenario.elkSmall Scenario.down).1 = None /\
  length (ELK.buffer (Scenario.elkWrites Scenario.down 1 (Scenario.elkSmall Scenario.down)).1)
  = 1%nat /\
  since (Scenario.elkSmall Scenario.down).2
        (Scenario.elkWrites Scenario.down 1 (Scenario.elkSmall Scenario.down)).2
  = [ELK.EvNow (mkTime 2024 1 2 3 4 5 2)].
Proof. vm_compute. repeat split; reflexivity. Qed.

(** D: New Relic answers 500; the buffer keeps every record and Sync
    returns an error. *)
Example scenario_D :
  (NewRelic.Sync Scenario.failing
     (Scenario.newrelicWrites Scenario.failing 3 Scenario.newrelicSmall).1
     (Scenario.newrelicWrites Scenario.failing 3 Scenario.newrelicSmall).2).1
  = (Some "new relic API returned unexpected status code: 500"%string,
     (Scenario.newrelicWrites Scenario.failing 3 Scenario.newrelicSmall).1) /\
  length (NewRelic.buffer
            (Scenario.newrelicWrites Scenario.failing 3 Scenario.newrelicSmall).1)
  = 3%nat.
Proof. vm_compute. repeat split; reflexivity. Qed.

(** E: the payload not-json; write returns 0 and an error. *)
Example scenario_E :
  (ELK.Write Scenario.live Scenario.notJSON (Scenario.elkSmall Scenario.live).1
             (Scenario.elkSmall Scenario.live).2).1.1
  = Return (0%Z, Some "failed to decode log entry: invalid character 'o' in literal null (expecting 'u')"%string) /\
  (NewRelic.Write Scenario.accepting Scenario.notJSON Scenario.newrelicSmall.1
                  Scenario.newrelicSmall.2).1.1
  = (0%Z, Some "failed to decode log entry: invalid character 'o' in literal null (expecting 'u')"%string).
Proof. vm_compute. repeat split; reflexivity. Qed.

(** ** The claims, one by one *)

(** C1. A flush attempt that fails leaves the buffer as it was, no record
    removed and none moved.  For the streaming writer: when it is
    disconnected the call changes nothing at all, and when an Encode
    returns an error partway the buffer is the one before the call.  For
    the batch HTTP writer: whenever flush returns an error the buffer is
    the one before the call, and flush returns an error on every response
    whose status is not 202. *)
Theorem C1_failed_flush_keeps_buffer :
  (forall (E : ELK.Env) w t,
     ELK.conn w = None -> ELK.flushBuffer E w t = (Return tt, w, t)) /\
  (forall (E : ELK.Env) w t o w' new,
     ELK.flushBuffer E w t = (o, w', t ++ new) ->
     ELK.encodeFailed new ->
     ELK.buffer w' = ELK.buffer w) /\
  (forall (E : NewRelic.Env) w t err w' t',
     NewRelic.flush E w t = (Some err, w', t') ->
     NewRelic.buffer w' = NewRelic.buffer w) /\
  (forall (E : NewRelic.Env) w t body resp,
     NewRelic.buffer w <> [] ->
     NewRelic.Marshal E (NewRelic.payloadOf w) = Ok body ->
     NewRelic.ParseURL E (NewRelic.endpoint w) = None ->
     NewRelic.Do E t (NewRelic.client w) (NewRelic.requestOf w body) = Ok resp ->
     NewRelic.StatusCode resp <> NewRelic.StatusAccepted ->
     exists err, (NewRelic.flush E w t).1 = (Some err, w)).
Proof.
  split; [|split; [|split]].
  - intros E w t H. apply ELKFacts.flushBuffer_disconnected. exact H.
  - intros E w t o w' new H Hfail.
    destruct (ELKFacts.flushBuffer_failed E w t o w' new H Hfail) as [_ ->].
    reflexivity.
  - intros E w t err w' t' H.
    rewrite (NewRelicFacts.flush_error_keeps E w t err w' t' H). reflexivity.
  - intros E w t body resp Hb Hm Hu Hdo Hst.
    rewrite (NewRelicFacts.flush_sends E w t body Hb Hm Hu). simpl. rewrite Hdo.
    destruct (Z.eqb_spec (NewRelic.StatusCode resp) NewRelic.StatusAccepted);
      [contradiction|]. eexists. reflexivity.
Qed.

Lemma C1_failed_flush_keeps_buffer_witness :
  (ELK.conn (Scenario.elkAfter Scenario.down 3).1 = None /\
   ELK.flushBuffer Scenario.down (Scenario.elkAfter Scenario.down 3).1
                   (Scenario.elkAfter Scenario.down 3).2
   = (Return tt, (Scenario.elkAfter Scenario.down 3).1,
      (Scenario.elkAfter Scenario.down 3).2)) /\
  (ELK.encodeFailed
     (since (Scenario.elkAfter Scenario.broken 3).2
            (ELK.flushBuffer Scenario.broken (Scenario.elkAfter Scenario.broken 3).1
                             (Scenario.elkAfter Scenario.broken 3).2).2) /\
   ELK.buffer (ELK.flushBuffer Scenario.broken (Scenario.elkAfter Scenario.broken 3).1
                               (Scenario.elkAfter Scenario.broken 3).2).1.2
   = ELK.buffer (Scenario.elkAfter Scenario.broken 3).1) /\
  (NewRelic.buffer (NewRelic.flush Scenario.failing
                      (Scenario.newrelicAfter Scenario.failing 3).1
                      (Scenario.newrelicAfter Scenario.failing 3).2).1.2
   = NewRelic.buffer (Scenario.newrelicAfter Scenario.failing 3).1 /\
   length (NewRelic.buffer (Scenario.newrelicAfter Scenario.failing 3).1) = 3%nat).
Proof.
  destruct C1_failed_flush_keeps_buffer as (Hdown & Hbroken & Hfailed & Hstatus).
  split; [|split].
  - split; [vm_compute; reflexivity|]. apply Hdown. vm_compute. reflexivity.
  - assert (Hfail : ELK.encodeFailed
       (since (Scenario.elkAfter Scenario.broken 3).2
              (ELK.flushBuffer Scenario.broken (Scenario.elkAfter Scenario.broken 3).1
                               (Scenario.elkAfter Scenario.broken 3).2).2)).
    { exists 0%nat. eexists. exists "write: broken pipe"%string.
      vm_compute. left. reflexivity. }
    split; [exact Hfail|].
    apply (Hbroken Scenario.broken (Scenario.elkAfter Scenario.broken 3).1
             (Scenario.elkAfter Scenario.broken 3).2
             (ELK.flushBuffer Scenario.broken (Scenario.elkAfter Scenario.broken 3).1
                              (Scenario.elkAfter Scenario.broken 3).2).1.1
             (ELK.flushBuffer Scenario.broken (Scenario.elkAfter Scenario.broken 3).1
                              (Scenario.elkAfter Scenario.broken 3).2).1.2
             (since (Scenario.elkAfter Scenario.broken 3).2
                (ELK.flushBuffer Scenario.broken (Scenario.elkAfter Scenario.broken 3).1
                                 (Scenario.elkAfter Scenario.broken 3).2).2));
      [|exact Hfail].
    vm_compute. reflexivity.
  - split; [|vm_compute; reflexivity].
    assert (Hex : exists err,
               (NewRelic.flush Scenario.failing
                  (Scenario.newrelicAfter Scenario.failing 3).1
                  (Scenario.newrelicAfter Scenario.failing 3).2).1
               = (Some err, (Scenario.newrelicAfter Scenario.failing 3).1)).
    { apply (Hstatus Scenario.failing (Scenario.newrelicAfter Scenario.failing 3).1
               (Scenario.newrelicAfter Scenario.failing 3).2
               (list_byte_of_string
                  (Json.marshalValue
                     (NewRelic.payloadOf (Scenario.newrelicAfter Scenario.failing 3).1)))
               (NewRelic.mkResponse 500)).
      - vm_compute. discriminate.
      - vm_compute. reflexivity.
      - vm_compute. reflexivity.
      - vm_compute. reflexivity.
      - vm_compute. discriminate. }
    destruct Hex as [err Herr].
    apply (Hfailed Scenario.failing (Scenario.newrelicAfter Scenario.failing 3).1
             (Scenario.newrelicAfter Scenario.failing 3).2 err
             (NewRelic.flush Scenario.failing
                (Scenario.newrelicAfter Scenario.failing 3).1
                (Scenario.newrelicAfter Scenario.failing 3).2).1.2
             (NewRelic.flush Scenario.failing
                (Scenario.newrelicAfter Scenario.failing 3).1
                (Scenario.newrelicAfter Scenario.failing 3).2).2).
    revert Herr. destruct (NewRelic.flush _ _ _) as [[r w2] t2]. simpl.
    intros Herr. inversion Herr. reflexivity.
Defined.

(** C2. When appending the decoded record brings the buffer to batchSize
    or beyond, write runs a flush on the buffer with the record at its
    end before it returns: the writer and the trace it leaves are those
    the flush leaves.  After a successful flush the buffer has length 0:
    for the streaming writer a flush that ran connected, returned and met
    no Encode error; for the batch HTTP writer a flush that returned no
    error. *)
Theorem C2_threshold_flush :
  (forall (E : ELK.Env) p w t m,
     ELK.Decode E p = Ok (Some m) ->
     (ELK.batchSize w <= len (ELK.buffer w ++ [Some (ELK.enriched (ELK.Now E t) m)]))%Z ->
     exists o w2 t2,
       ELK.flushBuffer E
         (ELK.set_buffer (ELK.buffer w ++ [Some (ELK.enriched (ELK.Now E t) m)]) w)
         (t ++ [ELK.EvNow (ELK.Now E t)]) = (o, w2, t2) /\
       (ELK.Write E p w t).1.2 = w2 /\ (ELK.Write E p w t).2 = t2) /\
  (forall (E : ELK.Env) w t w' new,
     ELK.flushBuffer E w t = (Return tt, w', t ++ new) ->
     ELK.conn w <> None ->
     ~ ELK.encodeFailed new ->
     len (ELK.buffer w') = 0%Z) /\
  (forall (E : NewRelic.Env) p w t entry,
     NewRelic.Decode E p = Ok entry ->
     (NewRelic.batchSize w <= len (NewRelic.buffer w ++ [entry]))%Z ->
     exists r w2 t2,
       NewRelic.flush E (NewRelic.set_buffer (NewRelic.buffer w ++ [entry]) w) t
         = (r, w2, t2) /\
       (NewRelic.Write E p w t).1.2 = w2 /\ (NewRelic.Write E p w t).2 = t2) /\
  (forall (E : NewRelic.Env) w t w' t',
     NewRelic.flush E w t = (None, w', t') -> len (NewRelic.buffer w') = 0%Z).
Proof.
  split; [|split; [|split]].
  - intros E p w t m Hd Hle. rewrite len_app in Hle.
    rewrite (ELKFacts.Write_flushing E p w t m Hd Hle).
    destruct (ELK.flushBuffer E _ _) as [[[[]|msg] w2] t2];
      do 3 eexists; repeat split; reflexivity.
  - intros E w t w' new H Hup Hno.
    destruct (ELKFacts.flushBuffer_succeeded E w t w' new H Hup Hno) as [-> _].
    reflexivity.
  - intros E p w t entry Hd Hle. rewrite len_app in Hle.
    rewrite (NewRelicFacts.batch_Write_flushing E p w t entry Hd Hle).
    destruct (NewRelic.flush E _ _) as [[[err|] w2] t2];
      do 3 eexists; repeat split; reflexivity.
  - intros E w t w' t' H. rewrite (NewRelicFacts.flush_ok_empties E w t w' t' H).
    reflexivity.
Qed.

Lemma C2_threshold_flush_witness :
  (ELK.Decode Scenario.live Scenario.line = Ok (Some Scenario.lineRecord) /\
   len (ELK.buffer (Scenario.elkAfter Scenario.live 99).1) = 99%Z /\
   ELK.batchSize (Scenario.elkAfter Scenario.live 99).1 = 100%Z /\
   exists o w2 t2,
     ELK.flushBuffer Scenario.live
       (ELK.set_buffer
          (ELK.buffer (Scenario.elkAfter Scenario.live 99).1 ++
           [Some (ELK.enriched
                    (ELK.Now Scenario.live (Scenario.elkAfter Scenario.live 99).2)
                    Scenario.lineRecord)])
          (Scenario.elkAfter Scenario.live 99).1)
       ((Scenario.elkAfter Scenario.live 99).2 ++
        [ELK.EvNow (ELK.Now Scenario.live (Scenario.elkAfter Scenario.live 99).2)])
     = (o, w2, t2) /\
     (ELK.Write Scenario.live Scenario.line (Scenario.elkAfter Scenario.live 99).1
                (Scenario.elkAfter Scenario.live 99).2).1.2 = w2 /\
     (ELK.Write Scenario.live Scenario.line (Scenario.elkAfter Scenario.live 99).1
                (Scenario.elkAfter Scenario.live 99).2).2 = t2) /\
  len (NewRelic.buffer
         (NewRelic.flush Scenario.accepting
            (Scenario.newrelicAfter Scenario.accepting 3).1
            (Scenario.newrelicAfter Scenario.accepting 3).2).1.2) = 0%Z.
Proof.
  destruct C2_threshold_flush as (Hwrite & _ & _ & Hempty).
  split.
  - split; [vm_compute; reflexivity|].
    split; [vm_compute; reflexivity|].
    split; [vm_compute; reflexivity|].
    apply Hwrite.
    + vm_compute. reflexivity.
    + vm_compute. discriminate.
  - apply (Hempty Scenario.accepting (Scenario.newrelicAfter Scenario.accepting 3).1
             (Scenario.newrelicAfter Scenario.accepting 3).2
             _
             (NewRelic.flush Scenario.accepting
                (Scenario.newrelicAfter Scenario.accepting 3).1
                (Scenario.newrelicAfter Scenario.accepting 3).2).2).
    vm_compute. reflexivity.
Defined.

(** C3, as the code has it.  A payload that decodes to a record is
    appended as one record at the end of the buffer.  While the buffer
    stays below batchSize, write returns the byte length of the payload
    and no error, and the buffer is the old one followed by the record.
    From batchSize on a flush runs on that buffer: the streaming write
    still returns the byte length and no error, and its buffer is the old
    one followed by the record or, after a successful flush, empty; the
    batch HTTP write returns the byte length and no error with an empty
    buffer when the flush succeeds, and 0 with the error of the flush,
    the buffer being the old one followed by the record, when it fails. *)
Theorem C3_write_accepts_amended :
  (forall (E : ELK.Env) p w t m,
     ELK.Decode E p = Ok (Some m) ->
     ELK.wf w ->
     (ELK.Write E p w t).1.1 = Return (len p, None) /\
     ((len (ELK.buffer w) + 1 < ELK.batchSize w)%Z ->
      ELK.buffer (ELK.Write E p w t).1.2
      = ELK.buffer w ++ [Some (ELK.enriched (ELK.Now E t) m)]) /\
     (ELK.buffer (ELK.Write E p w t).1.2
      = ELK.buffer w ++ [Some (ELK.enriched (ELK.Now E t) m)] \/
      ELK.buffer (ELK.Write E p w t).1.2 = [])) /\
  (forall (E : NewRelic.Env) p w t m,
     NewRelic.Decode E p = Ok (Some m) ->
     ((len (NewRelic.buffer w) + 1 < NewRelic.batchSize w)%Z ->
      NewRelic.Write E p w t
      = ((len p, None), NewRelic.set_buffer (NewRelic.buffer w ++ [Some m]) w, t)) /\
     ((NewRelic.batchSize w <= len (NewRelic.buffer w) + 1)%Z ->
      (forall err w2 t2,
         NewRelic.flush E (NewRelic.set_buffer (NewRelic.buffer w ++ [Some m]) w) t
         = (Some err, w2, t2) ->
         NewRelic.Write E p w t = ((0%Z, Some err), w2, t2) /\
         NewRelic.buffer w2 = NewRelic.buffer w ++ [Some m]) /\
      (forall w2 t2,
         NewRelic.flush E (NewRelic.set_buffer (NewRelic.buffer w ++ [Some m]) w) t
         = (None, w2, t2) ->
         NewRelic.Write E p w t = ((len p, None), w2, t2) /\
         NewRelic.buffer w2 = []))).
Proof.
  split.
  - intros E p w t m Hd Hwf. split; [|split].
    + apply ELKFacts.Write_wf_returns with m; assumption.
    + intros Hlt. rewrite (ELKFacts.Write_below E p w t m Hd Hlt). reflexivity.
    + destruct (ELKFacts.Write_decoded E p w t m Hd) as [H|[H _]]; auto.
  - intros E p w t m Hd. split.
    + intros Hlt. apply NewRelicFacts.batch_Write_below; assumption.
    + intros Hle. split.
      * intros err w2 t2 Hf.
        rewrite (NewRelicFacts.batch_Write_flushing E p w t (Some m) Hd Hle), Hf.
        split; [reflexivity|].
        rewrite (NewRelicFacts.flush_error_keeps E _ _ _ _ _ Hf). reflexivity.
      * intros w2 t2 Hf.
        rewrite (NewRelicFacts.batch_Write_flushing E p w t (Some m) Hd Hle), Hf.
        split; [reflexivity|].
        apply (NewRelicFacts.flush_ok_empties E _ _ _ _ Hf).
Qed.

Lemma C3_write_accepts_amended_witness :
  (ELK.Decode Scenario.live Scenario.line = Ok (Some Scenario.lineRecord) /\
   (ELK.Write Scenario.live Scenario.line (Scenario.elkAfter Scenario.live 2).1
              (Scenario.elkAfter Scenario.live 2).2).1.1
   = Return (len Scenario.line, None) /\
   length (ELK.buffer
             (ELK.Write Scenario.live Scenario.line (Scenario.elkAfter Scenario.live 2).1
                        (Scenario.elkAfter Scenario.live 2).2).1.2) = 3%nat) /\
  (NewRelic.Write Scenario.accepting Scenario.line
     (Scenario.newrelicAfter Scenario.accepting 2).1
     (Scenario.newrelicAfter Scenario.accepting 2).2
   = ((len Scenario.line, None),
      NewRelic.set_buffer
        (NewRelic.buffer (Scenario.newrelicAfter Scenario.accepting 2).1 ++
         [Some Scenario.lineRecord])
        (Scenario.newrelicAfter Scenario.accepting 2).1,
      (Scenario.newrelicAfter Scenario.accepting 2).2)).
Proof.
  destruct C3_write_accepts_amended as [Helk Hnr].
  split.
  - split; [vm_compute; reflexivity|].
    destruct (Helk Scenario.live Scenario.line (Scenario.elkAfter Scenario.live 2).1
                (Scenario.elkAfter Scenario.live 2).2 Scenario.lineRecord)
      as (Hret & Hbelow & _).
    + vm_compute. reflexivity.
    + apply elkAfter_wf.
    + split; [exact Hret|].
      assert (Hlt : (len (ELK.buffer (Scenario.elkAfter Scenario.live 2).1) + 1
                     < ELK.batchSize (Scenario.elkAfter Scenario.live 2).1)%Z)
        by (vm_compute; reflexivity).
      pose proof (Hbelow Hlt) as Hbuf. rewrite Hbuf. vm_compute. reflexivity.
  - refine (proj1 (Hnr Scenario.accepting Scenario.line
                     (Scenario.newrelicAfter Scenario.accepting 2).1
                     (Scenario.newrelicAfter Scenario.accepting 2).2
                     Scenario.lineRecord _) _).
    + vm_compute. reflexivity.
    + vm_compute. reflexivity.
Defined.

(** C3 as stated fails.  The line decodes to a record, yet the hundredth
    write of it to a live Logstash leaves the buffer empty instead of one
    record longer, and the hundredth write of it to a New Relic that
    answers 500 returns 0 and an error instead of the length 12. *)
Lemma C3_counterexample :
  Json.Decode Scenario.line = Ok (Some Scenario.lineRecord) /\
  length (ELK.buffer (Scenario.elkAfter Scenario.live 99).1) = 99%nat /\
  ELK.buffer
    (ELK.Write Scenario.live Scenario.line (Scenario.elkAfter Scenario.live 99).1
               (Scenario.elkAfter Scenario.live 99).2).1.2 = [] /\
  len Scenario.line = 12%Z /\
  (NewRelic.Write Scenario.failing Scenario.line
     (Scenario.newrelicAfter Scenario.failing 99).1
     (Scenario.newrelicAfter Scenario.failing 99).2).1.1
  = (0%Z, Some "new relic API returned unexpected status code: 500"%string).
Proof. vm_compute. repeat split; reflexivity. Qed.

(** Both writers refuse a payload on which the decoder returns an error:
    0, the wrapped error, and neither the writer nor the trace changes. *)
Lemma Write_refuses_undecodable :
  (forall (E : ELK.Env) p w t err,
     ELK.Decode E p = Err err ->
     ELK.Write E p w t
     = (Return (0%Z, Some ("failed to decode log entry: " +:+ err)), w, t)) /\
  (forall (E : NewRelic.Env) p w t err,
     NewRelic.Decode E p = Err err ->
     NewRelic.Write E p w t
     = ((0%Z, Some ("failed to decode log entry: " +:+ err)), w, t)).
Proof.
  split.
  - intros. apply ELKFacts.Write_decode_error. assumption.
  - intros. apply NewRelicFacts.batch_Write_decode_error. assumption.
Qed.

(** The payloads not-json, a JSON string, a JSON array and a JSON number
    are refused by the decoder, with the texts of encoding/json. *)
Example Decode_refuses :
  Json.Decode Scenario.notJSON
  = Err "invalid character 'o' in literal null (expecting 'u')" /\
  Json.Decode (list_byte_of_string (Json.quoted "not-json"))
  = Err "json: cannot unmarshal string into Go value of type map[string]interface {}" /\
  Json.Decode (list_byte_of_string "[1,2]")
  = Err "json: cannot unmarshal array into Go value of type map[string]interface {}" /\
  Json.Decode (list_byte_of_string "12")
  = Err "json: cannot unmarshal number into Go value of type map[string]interface {}" /\
  Json.Decode [] = Err "EOF".
Proof. vm_compute. repeat split; reflexivity. Qed.

(** C4 fails on the payload null.  It is well-formed JSON that is not a
    mapping, and the decoder stores it as a nil map without an error.
    The streaming write then panics on the assignment of the timestamp;
    the batch HTTP write returns the length 4 and no error, and the nil
    map is in the buffer. *)
Theorem C4_null_payload :
  Json.Decode Scenario.null = Ok None /\
  ELK.Write Scenario.live Scenario.null
    (Scenario.elkStart Scenario.live).1 (Scenario.elkStart Scenario.live).2
  = (Panic "assignment to entry in nil map",
     (Scenario.elkStart Scenario.live).1,
     (Scenario.elkStart Scenario.live).2 ++
     [ELK.EvNow (Scenario.clock (Scenario.elkStart Scenario.live).2)]) /\
  NewRelic.Write Scenario.accepting Scenario.null
    Scenario.newrelicStart.1 Scenario.newrelicStart.2
  = ((4%Z, None),
     NewRelic.set_buffer [None] Scenario.newrelicStart.1,
     Scenario.newrelicStart.2).
Proof. vm_compute. repeat split; reflexivity. Qed.

(** C5. The streaming Sync never returns an error; on a writer as the
    constructor and the methods leave it, it returns nil, also when an
    Encode fails during its flush.  The batch HTTP Sync returns what its
    flush returns: the error of the flush when it fails, nil otherwise. *)
Theorem C5_sync_errors :
  (forall (E : ELK.Env) w t err, (ELK.Sync E w t).1.1 <> Return (Some err)) /\
  (forall (E : ELK.Env) w t, ELK.wf w -> (ELK.Sync E w t).1.1 = Return None) /\
  (forall (E : ELK.Env) w t o w' new,
     ELK.flushBuffer E w t = (o, w', t ++ new) ->
     ELK.encodeFailed new ->
     ELK.Sync E w t = (Return None, w', t ++ new)) /\
  (forall (E : NewRelic.Env) w t, NewRelic.Sync E w t = NewRelic.flush E w t).
Proof.
  split; [|split; [|split]].
  - intros. apply ELKFacts.Sync_no_error.
  - intros. apply ELKFacts.Sync_wf. assumption.
  - intros E w t o w' new H Hfail.
    destruct (ELKFacts.flushBuffer_failed E w t o w' new H Hfail) as [-> _].
    unfold ELK.Sync. rewrite H. reflexivity.
  - reflexivity.
Qed.

Lemma C5_sync_errors_witness :
  ELK.wf (Scenario.elkAfter Scenario.broken 3).1 /\
  ELK.conn (Scenario.elkAfter Scenario.broken 3).1 = Some 0%nat /\
  (ELK.Sync Scenario.broken (Scenario.elkAfter Scenario.broken 3).1
            (Scenario.elkAfter Scenario.broken 3).2).1.1 = Return None /\
  ELK.conn (ELK.Sync Scenario.broken (Scenario.elkAfter Scenario.broken 3).1
                     (Scenario.elkAfter Scenario.broken 3).2).1.2 = None /\
  (NewRelic.Sync Scenario.failing (Scenario.newrelicAfter Scenario.failing 3).1
                 (Scenario.newrelicAfter Scenario.failing 3).2).1.1
  = Some "new relic API returned unexpected status code: 500"%string.
Proof.
  destruct C5_sync_errors as (_ & Hnil & _ & Hbatch).
  split; [apply elkAfter_wf|].
  split; [vm_compute; reflexivity|].
  split; [apply Hnil; apply elkAfter_wf|].
  split; [vm_compute; reflexivity|].
  rewrite Hbatch. vm_compute. reflexivity.
Defined.

(** C6, as the code has it.  The streaming writer never returns the
    error of a flush: Write returns an error only for a payload that does
    not decode, and then no flush ran; Sync returns no error; an error
    from Close is the error of closing the connection.  The batch HTTP
    writer returns the error of a flush from Sync and also from a Write
    that runs one: the error Write returns for a decoded payload is the
    error of the flush it runs at batchSize, and nil below batchSize. *)
Theorem C6_flush_errors_amended :
  (forall (E : ELK.Env) p w t n err,
     (ELK.Write E p w t).1.1 = Return (n, Some err) ->
     exists derr,
       ELK.Decode E p = Err derr /\
       ELK.Write E p w t
       = (Return (0%Z, Some ("failed to decode log entry: " +:+ derr)), w, t)) /\
  (forall (E : ELK.Env) w t err, (ELK.Sync E w t).1.1 <> Return (Some err)) /\
  (forall (E : ELK.Env) w t err,
     (ELK.Close E w t).1.1 = Return (Some err) ->
     exists t1 c, ELK.ConnClose E t1 c = Some err) /\
  (forall (E : NewRelic.Env) p w t entry,
     NewRelic.Decode E p = Ok entry ->
     (NewRelic.Write E p w t).1.1.2
     = if (NewRelic.batchSize w <=? len (NewRelic.buffer w) + 1)%Z
       then (NewRelic.flush E (NewRelic.set_buffer (NewRelic.buffer w ++ [entry]) w) t).1.1
       else None) /\
  (forall (E : NewRelic.Env) w t, NewRelic.Sync E w t = NewRelic.flush E w t).
Proof.
  split; [|split; [|split; [|split]]].
  - intros E p w t n err H. apply (ELKFacts.Write_error E p w t n err H).
  - intros. apply ELKFacts.Sync_no_error.
  - intros E w t err H. apply (ELKFacts.Close_error E w t err H).
  - intros E p w t entry Hd.
    destruct (Z.leb_spec (NewRelic.batchSize w) (len (NewRelic.buffer w) + 1)) as [Hle|Hgt].
    + rewrite (NewRelicFacts.batch_Write_flushing E p w t entry Hd Hle).
      destruct (NewRelic.flush E _ t) as [[[err|] w2] t2]; reflexivity.
    + rewrite (NewRelicFacts.batch_Write_below E p w t entry Hd Hgt). reflexivity.
  - reflexivity.
Qed.

Lemma C6_flush_errors_amended_witness :
  NewRelic.Decode Scenario.failing Scenario.line = Ok (Some Scenario.lineRecord) /\
  (NewRelic.Write Scenario.failing Scenario.line
     (Scenario.newrelicAfter Scenario.failing 99).1
     (Scenario.newrelicAfter Scenario.failing 99).2).1.1.2
  = Some "new relic API returned unexpected status code: 500"%string /\
  (ELK.Write Scenario.broken Scenario.notJSON
     (Scenario.elkAfter Scenario.broken 99).1
     (Scenario.elkAfter Scenario.broken 99).2)
  = (Return (0%Z, Some "failed to decode log entry: invalid character 'o' in literal null (expecting 'u')"%string),
     (Scenario.elkAfter Scenario.broken 99).1,
     (Scenario.elkAfter Scenario.broken 99).2).
Proof.
  destruct C6_flush_errors_amended as (Hwrite & _ & _ & Hbatch & _).
  split; [vm_compute; reflexivity|]. split.
  - rewrite (Hbatch Scenario.failing Scenario.line
               (Scenario.newrelicAfter Scenario.failing 99).1
               (Scenario.newrelicAfter Scenario.failing 99).2
               (Some Scenario.lineRecord)).
    + vm_compute. reflexivity.
    + vm_compute. reflexivity.
  - destruct (Hwrite Scenario.broken Scenario.notJSON
                (Scenario.elkAfter Scenario.broken 99).1
                (Scenario.elkAfter Scenario.broken 99).2 0%Z
                "failed to decode log entry: invalid character 'o' in literal null (expecting 'u')"%string)
      as (derr & Hderr & Heq).
    + vm_compute. reflexivity.
    + rewrite Heq. f_equal. f_equal. f_equal. f_equal. f_equal.
      revert Hderr. vm_compute. congruence.
Defined.

(** C6 as stated fails: the hundredth write of the line to a New Relic
    that answers 500 runs a flush, and Write returns the error of that
    flush to its caller. *)
Lemma C6_counterexample :
  NewRelic.Decode Scenario.failing Scenario.line = Ok (Some Scenario.lineRecord) /\
  (NewRelic.flush Scenario.failing
     (NewRelic.set_buffer
        (NewRelic.buffer (Scenario.newrelicAfter Scenario.failing 99).1 ++
         [Some Scenario.lineRecord])
        (Scenario.newrelicAfter Scenario.failing 99).1)
     (Scenario.newrelicAfter Scenario.failing 99).2).1.1
  = Some "new relic API returned unexpected status code: 500"%string /\
  (NewRelic.Write Scenario.failing Scenario.line
     (Scenario.newrelicAfter Scenario.failing 99).1
     (Scenario.newrelicAfter Scenario.failing 99).2).1.1
  = (0%Z, Some "new relic API returned unexpected status code: 500"%string).
Proof. vm_compute. repeat split; reflexivity. Qed.

(** C7. The batch HTTP flush does nothing on an empty buffer.  On a buffer
    that is not empty, once the document and the request are built, it
    makes one call of Do: a POST to the endpoint, with the headers
    Content-Type application/json and Api-Key the key of the writer, whose
    body is the marshalled object holding the buffer under the key logs.
    A response with a status other than 202 makes flush return an error
    and leaves the writer, so the buffer, as it was; a response with
    status 202 makes flush return nil and empties the buffer. *)
Theorem C7_batch_flush :
  (forall (E : NewRelic.Env) w t,
     NewRelic.buffer w = [] -> NewRelic.flush E w t = (None, w, t)) /\
  (forall (E : NewRelic.Env) w t body,
     NewRelic.buffer w <> [] ->
     NewRelic.Marshal E (VMap {[ "logs"%string := VMaps (NewRelic.buffer w) ]}) = Ok body ->
     NewRelic.ParseURL E (NewRelic.endpoint w) = None ->
     let req := NewRelic.requestOf w body in
     (NewRelic.flush E w t).2
     = t ++ [NewRelic.EvDo (NewRelic.client w) req (NewRelic.Do E t (NewRelic.client w) req)] /\
     NewRelic.Method req = "POST"%string /\
     NewRelic.URL req = NewRelic.endpoint w /\
     NewRelic.Body req = body /\
     NewRelic.Header req !! "Content-Type"%string = Some ["application/json"%string] /\
     NewRelic.Header req !! "Api-Key"%string = Some [NewRelic.apiKey w] /\
     (forall resp,
        NewRelic.Do E t (NewRelic.client w) req = Ok resp ->
        (NewRelic.StatusCode resp <> 202%Z ->
         exists err, (NewRelic.flush E w t).1 = (Some err, w)) /\
        (NewRelic.StatusCode resp = 202%Z ->
         (NewRelic.flush E w t).1 = (None, NewRelic.set_buffer [] w)))).
Proof.
  split.
  - intros. apply NewRelicFacts.flush_empty. assumption.
  - intros E w t body Hb Hm Hu req.
    pose proof (NewRelicFacts.flush_sends E w t body Hb Hm Hu) as Hf.
    fold req in Hf. simpl in Hf.
    destruct (NewRelicFacts.requestOf_parts w body) as (Hme & Hurl & Hbody & Hct & Hak & _).
    fold req in Hme, Hurl, Hbody, Hct, Hak.
    split; [|split; [exact Hme|split; [exact Hurl|split; [exact Hbody|
            split; [exact Hct|split; [exact Hak|]]]]]].
    + rewrite Hf. destruct (NewRelic.Do E t (NewRelic.client w) req) as [resp|err].
      * destruct (NewRelic.StatusCode resp =? _)%Z; reflexivity.
      * reflexivity.
    + intros resp Hdo. rewrite Hf, Hdo. unfold NewRelic.StatusAccepted. split.
      * intros Hst. destruct (Z.eqb_spec (NewRelic.StatusCode resp) 202);
          [contradiction|]. eexists. reflexivity.
      * intros ->. reflexivity.
Qed.

Lemma C7_batch_flush_witness :
  NewRelic.buffer (Scenario.newrelicAfter Scenario.accepting 2).1
  = [Some Scenario.lineRecord; Some Scenario.lineRecord] /\
  Json.Marshal (VMap {[ "logs"%string :=
                          VMaps (NewRelic.buffer (Scenario.newrelicAfter Scenario.accepting 2).1) ]})
  = Ok (list_byte_of_string
          ("{" +:+ Json.quoted "logs" +:+ ":[{" +:+ Json.quoted "msg" +:+ ":"
           +:+ Json.quoted "hi" +:+ "},{" +:+ Json.quoted "msg" +:+ ":"
           +:+ Json.quoted "hi" +:+ "}]}")) /\
  (NewRelic.flush Scenario.accepting (Scenario.newrelicAfter Scenario.accepting 2).1
                  (Scenario.newrelicAfter Scenario.accepting 2).2).1
  = (None, NewRelic.set_buffer [] (Scenario.newrelicAfter Scenario.accepting 2).1) /\
  (exists err,
     (NewRelic.flush Scenario.failing (Scenario.newrelicAfter Scenario.failing 2).1
                     (Scenario.newrelicAfter Scenario.failing 2).2).1
     = (Some err, (Scenario.newrelicAfter Scenario.failing 2).1)).
Proof.
  destruct C7_batch_flush as [_ Hsend].
  split; [vm_compute; reflexivity|].
  split; [vm_compute; reflexivity|].
  split.
  - destruct (Hsend Scenario.accepting (Scenario.newrelicAfter Scenario.accepting 2).1
                (Scenario.newrelicAfter Scenario.accepting 2).2
                (list_byte_of_string
                   (Json.marshalValue
                      (NewRelic.payloadOf (Scenario.newrelicAfter Scenario.accepting 2).1))))
      as (_ & _ & _ & _ & _ & _ & Hresp);
      [vm_compute; discriminate|vm_compute; reflexivity|vm_compute; reflexivity|].
    apply (Hresp (NewRelic.mkResponse 202)); vm_compute; reflexivity.
  - destruct (Hsend Scenario.failing (Scenario.newrelicAfter Scenario.failing 2).1
                (Scenario.newrelicAfter Scenario.failing 2).2
                (list_byte_of_string
                   (Json.marshalValue
                      (NewRelic.payloadOf (Scenario.newrelicAfter Scenario.failing 2).1))))
      as (_ & _ & _ & _ & _ & _ & Hresp);
      [vm_compute; discriminate|vm_compute; reflexivity|vm_compute; reflexivity|].
    apply (Hresp (NewRelic.mkResponse 500)); [vm_compute; reflexivity|].
    vm_compute. discriminate.
Defined.

(** C8. For a payload that decodes to a map, the streaming writer buffers
    the map with the two fields set: @timestamp, the reading of the clock
    the call starts with, in UTC and formatted as RFC3339Nano, and
    @version, the string 1; the other fields are those of the payload.  That record is the last of the
    buffer when write returns, or the buffer was flushed and the record
    was the last one written to the connection.  The batch HTTP writer
    buffers the decoded value itself: it is the last of the buffer when
    write returns, or the buffer was flushed and the posted document was
    made of the old buffer followed by that value. *)
Theorem C8_enrichment :
  (forall (E : ELK.Env) p w t m,
     ELK.Decode E p = Ok (Some m) ->
     let record := ELK.enriched (ELK.Now E t) m in
     record !! "@timestamp"%string = Some (VString (FormatRFC3339Nano (ELK.Now E t))) /\
     record !! "@version"%string = Some (VString "1") /\
     (forall k, k <> "@timestamp"%string -> k <> "@version"%string ->
                record !! k = m !! k) /\
     (exists rest, since t (ELK.Write E p w t).2 = ELK.EvNow (ELK.Now E t) :: rest) /\
     (ELK.buffer (ELK.Write E p w t).1.2 = ELK.buffer w ++ [Some record] \/
      (ELK.buffer (ELK.Write E p w t).1.2 = [] /\
       exists c, since t (ELK.Write E p w t).2
                 = ELK.EvNow (ELK.Now E t)
                     :: ELK.delivered c (ELK.buffer w ++ [Some record])))) /\
  (forall (E : NewRelic.Env) p w t entry,
     NewRelic.Decode E p = Ok entry ->
     NewRelic.buffer (NewRelic.Write E p w t).1.2 = NewRelic.buffer w ++ [entry] \/
     (NewRelic.buffer (NewRelic.Write E p w t).1.2 = [] /\
      exists body resp,
        NewRelic.Marshal E (VMap {[ "logs"%string := VMaps (NewRelic.buffer w ++ [entry]) ]})
        = Ok body /\
        since t (NewRelic.Write E p w t).2
        = [NewRelic.EvDo (NewRelic.client w) (NewRelic.requestOf w body) (Ok resp)])).
Proof.
  split.
  - intros E p w t m Hd record. subst record. unfold ELK.enriched at 1 2 3.
    split; [|split; [|split; [|split]]].
    + rewrite lookup_insert_ne by discriminate. apply lookup_insert_eq.
    + apply lookup_insert_eq.
    + intros k Hk1 Hk2. rewrite !lookup_insert_ne by congruence. reflexivity.
    + apply (ELKFacts.Write_reads_clock E p w t m Hd).
    + destruct (ELKFacts.Write_decoded E p w t m Hd)
        as [H|(H & _ & _ & c & Ht)]; [left; exact H|right].
      split; [exact H|]. exists c. rewrite Ht. apply since_app.
  - intros E p w t entry Hd.
    destruct (Z.le_gt_cases (NewRelic.batchSize w) (len (NewRelic.buffer w) + 1))
      as [Hle|Hgt].
    + rewrite (NewRelicFacts.batch_Write_flushing E p w t entry Hd Hle).
      set (w1 := NewRelic.set_buffer _ w).
      destruct (NewRelic.flush E w1 t) as [[[err|] w2] t2] eqn:Hf.
      * left. rewrite (NewRelicFacts.flush_error_keeps E _ _ _ _ _ Hf). reflexivity.
      * right. destruct (NewRelicFacts.flush_ok_sent E _ _ _ _ Hf)
          as (-> & [(Hnil & _)|(body & resp & Hm & _ & _ & ->)]).
        -- exfalso. simpl in Hnil. destruct (NewRelic.buffer w); discriminate.
        -- split; [reflexivity|]. exists body, resp. split; [exact Hm|].
           simpl. apply since_app.
    + rewrite (NewRelicFacts.batch_Write_below E p w t entry Hd Hgt). left. reflexivity.
Qed.

Lemma C8_enrichment_witness :
  ELK.Decode Scenario.live Scenario.line = Ok (Some Scenario.lineRecord) /\
  ELK.enriched (ELK.Now Scenario.live (Scenario.elkAfter Scenario.live 2).2)
               Scenario.lineRecord !! "@timestamp"%string
  = Some (VString "2024-01-02T03:04:05.000000003Z") /\
  ELK.enriched (ELK.Now Scenario.live (Scenario.elkAfter Scenario.live 2).2)
               Scenario.lineRecord !! "msg"%string
  = Some (VString "hi") /\
  dom (ELK.enriched (ELK.Now Scenario.live (Scenario.elkAfter Scenario.live 2).2)
                    Scenario.lineRecord)
  = {[ "@timestamp"%string; "@version"%string; "msg"%string ]} /\
  (NewRelic.buffer
     (NewRelic.Write Scenario.accepting Scenario.line
        (Scenario.newrelicAfter Scenario.accepting 2).1
        (Scenario.newrelicAfter Scenario.accepting 2).2).1.2
   = NewRelic.buffer (Scenario.newrelicAfter Scenario.accepting 2).1
     ++ [Some Scenario.lineRecord]).
Proof.
  destruct C8_enrichment as [Helk Hnr].
  split; [vm_compute; reflexivity|].
  destruct (Helk Scenario.live Scenario.line (Scenario.elkAfter Scenario.live 2).1
              (Scenario.elkAfter Scenario.live 2).2 Scenario.lineRecord)
    as (Hts & Hv & Hother & _); [vm_compute; reflexivity|].
  split; [rewrite Hts; vm_compute; reflexivity|].
  split; [rewrite Hother by discriminate; vm_compute; reflexivity|].
  split.
  - unfold ELK.enriched, Scenario.lineRecord.
    rewrite !dom_insert_L, dom_singleton_L. set_solver.
  - destruct (Hnr Scenario.accepting Scenario.line
                (Scenario.newrelicAfter Scenario.accepting 2).1
                (Scenario.newrelicAfter Scenario.accepting 2).2
                (Some Scenario.lineRecord)) as [H|[H _]];
      [vm_compute; reflexivity|exact H|].
    exfalso. revert H. vm_compute. discriminate.
Defined.

(** C9. The connection state is disconnected or connected, never both.
    From disconnected, connect ends connected exactly when the dial
    succeeds, returning nil; when the dial fails it returns the error of
    the dial and the state stays disconnected.  An Encode error during a
    flush of a connected writer leaves it disconnected.  Every method
    keeps the rules: over its events, the state goes from disconnected to
    connected only with a successful dial, and from connected to
    disconnected only with an Encode error. *)
Theorem C9_connection_state :
  (forall w, (ELK.state w = ELK.Disconnected /\ ELK.conn w = None) \/
             (ELK.state w = ELK.Connected /\ ELK.conn w <> None)) /\
  ELK.Disconnected <> ELK.Connected /\
  (forall (E : ELK.Env) w t,
     ELK.state w = ELK.Disconnected ->
     (forall c,
        ELK.Dial E t (ELK.useTLS w) (ELK.host w +:+ ":" +:+ ELK.port w) = Ok c ->
        (ELK.connect E w t).1.1 = None /\
        ELK.state (ELK.connect E w t).1.2 = ELK.Connected) /\
     (forall err,
        ELK.Dial E t (ELK.useTLS w) (ELK.host w +:+ ":" +:+ ELK.port w) = Err err ->
        (ELK.connect E w t).1.1 = Some err /\
        ELK.state (ELK.connect E w t).1.2 = ELK.Disconnected) /\
     (ELK.state (ELK.connect E w t).1.2 = ELK.Connected <->
      exists c, ELK.Dial E t (ELK.useTLS w) (ELK.host w +:+ ":" +:+ ELK.port w) = Ok c)) /\
  (forall (E : ELK.Env) w t o w' new,
     ELK.flushBuffer E w t = (o, w', t ++ new) ->
     ELK.state w = ELK.Connected ->
     ELK.encodeFailed new ->
     ELK.state w' = ELK.Disconnected) /\
  (forall (E : ELK.Env) w t,
     ELK.followsRules (ELK.state w) (since t (ELK.connect E w t).2)
                      (ELK.state (ELK.connect E w t).1.2) /\
     ELK.followsRules (ELK.state w) (since t (ELK.flushBuffer E w t).2)
                      (ELK.state (ELK.flushBuffer E w t).1.2) /\
     (forall p,
        ELK.followsRules (ELK.state w) (since t (ELK.Write E p w t).2)
                         (ELK.state (ELK.Write E p w t).1.2)) /\
     ELK.followsRules (ELK.state w) (since t (ELK.Sync E w t).2)
                      (ELK.state (ELK.Sync E w t).1.2) /\
     ELK.followsRules (ELK.state w) (since t (ELK.Close E w t).2)
                      (ELK.state (ELK.Close E w t).1.2) /\
     ELK.followsRules (ELK.state w) (since t (ELK.reconnectionTick E w t).2)
                      (ELK.state (ELK.reconnectionTick E w t).1.2)).
Proof.
  split; [|split; [|split; [|split]]].
  - intros w. unfold ELK.state. destruct (ELK.conn w); [right|left]; split; congruence.
  - discriminate.
  - intros E w t Hs.
    assert (Hc : ELK.conn w = None).
    { unfold ELK.state in Hs. destruct (ELK.conn w); [discriminate|reflexivity]. }
    split; [|split].
    + intros c Hd. rewrite (ELKFacts.connect_disconnected_ok E w t c Hc Hd).
      split; reflexivity.
    + intros err Hd. rewrite (ELKFacts.connect_disconnected_err E w t err Hc Hd).
      split; [reflexivity|exact Hs].
    + destruct (ELK.Dial E t (ELK.useTLS w) (ELK.host w +:+ ":" +:+ ELK.port w))
        as [c|err] eqn:Hd.
      * rewrite (ELKFacts.connect_disconnected_ok E w t c Hc Hd).
        split; [eauto|reflexivity].
      * rewrite (ELKFacts.connect_disconnected_err E w t err Hc Hd). simpl.
        rewrite Hs. split; [discriminate|]. intros [c Hc']. discriminate.
  - intros E w t o w' new H _ Hfail.
    destruct (ELKFacts.flushBuffer_failed E w t o w' new H Hfail) as [_ ->].
    reflexivity.
  - intros E w t.
    split; [|split; [|split; [intros p|split; [|split]]]]; apply ELKFacts.keeps_since.
    + apply ELKFacts.connect_keeps.
    + apply ELKFacts.flushBuffer_keeps.
    + apply ELKFacts.Write_keeps.
    + apply ELKFacts.Sync_keeps.
    + apply ELKFacts.Close_keeps.
    + apply ELKFacts.reconnectionTick_keeps.
Qed.

Lemma C9_connection_state_witness :
  ELK.state (Scenario.elkStart Scenario.down).1 = ELK.Disconnected /\
  (ELK.connect Scenario.down (Scenario.elkStart Scenario.down).1
               (Scenario.elkStart Scenario.down).2).1.1
  = Some "dial tcp logstash.example.com:5000: connect: connection refused"%string /\
  ELK.state (ELK.connect Scenario.down (Scenario.elkStart Scenario.down).1
                         (Scenario.elkStart Scenario.down).2).1.2 = ELK.Disconnected /\
  ELK.state (ELK.connect Scenario.live (Scenario.elkStart Scenario.down).1
                         (Scenario.elkStart Scenario.down).2).1.2 = ELK.Connected /\
  ELK.state (Scenario.elkAfter Scenario.broken 3).1 = ELK.Connected /\
  ELK.state (ELK.flushBuffer Scenario.broken (Scenario.elkAfter Scenario.broken 3).1
                             (Scenario.elkAfter Scenario.broken 3).2).1.2
  = ELK.Disconnected.
Proof.
  destruct C9_connection_state as (_ & _ & Hconnect & Hflush & _).
  split; [vm_compute; reflexivity|].
  destruct (Hconnect Scenario.down (Scenario.elkStart Scenario.down).1
              (Scenario.elkStart Scenario.down).2) as (_ & Herr & _);
    [vm_compute; reflexivity|].
  destruct (Herr "dial tcp logstash.example.com:5000: connect: connection refused"%string)
    as [Hret Hstate]; [vm_compute; reflexivity|].
  split; [exact Hret|]. split; [exact Hstate|].
  destruct (Hconnect Scenario.live (Scenario.elkStart Scenario.down).1
              (Scenario.elkStart Scenario.down).2) as (Hok & _ & _);
    [vm_compute; reflexivity|].
  destruct (Hok 2%nat) as [_ Hup]; [vm_compute; reflexivity|].
  split; [exact Hup|]. split; [vm_compute; reflexivity|].
  apply (Hflush Scenario.broken (Scenario.elkAfter Scenario.broken 3).1
           (Scenario.elkAfter Scenario.broken 3).2
           (ELK.flushBuffer Scenario.broken (Scenario.elkAfter Scenario.broken 3).1
                            (Scenario.elkAfter Scenario.broken 3).2).1.1
           (ELK.flushBuffer Scenario.broken (Scenario.elkAfter Scenario.broken 3).1
                            (Scenario.elkAfter Scenario.broken 3).2).1.2
           (since (Scenario.elkAfter Scenario.broken 3).2
              (ELK.flushBuffer Scenario.broken (Scenario.elkAfter Scenario.broken 3).1
                               (Scenario.elkAfter Scenario.broken 3).2).2)).
  - vm_compute. reflexivity.
  - vm_compute. reflexivity.
  - exists 0%nat. eexists. exists "write: broken pipe"%string.
    vm_compute. left. reflexivity.
Defined.

(** C10. For the batch HTTP writer, when a payload decodes to a record,
    its append brings the buffer to batchSize and the flush then fails,
    write returns 0 and the error of the flush, although the record has
    been appended and stays at the end of the buffer. *)
Theorem C10_write_reports_failed_flush :
  forall (E : NewRelic.Env) p w t m err w2 t2,
    NewRelic.Decode E p = Ok (Some m) ->
    (NewRelic.batchSize w <= len (NewRelic.buffer w ++ [Some m]))%Z ->
    NewRelic.flush E (NewRelic.set_buffer (NewRelic.buffer w ++ [Some m]) w) t
    = (Some err, w2, t2) ->
    NewRelic.Write E p w t = ((0%Z, Some err), w2, t2) /\
    NewRelic.buffer w2 = NewRelic.buffer w ++ [Some m].
Proof.
  intros E p w t m err w2 t2 Hd Hle Hf. rewrite len_app in Hle.
  rewrite (NewRelicFacts.batch_Write_flushing E p w t (Some m) Hd Hle), Hf.
  split; [reflexivity|].
  rewrite (NewRelicFacts.flush_error_keeps E _ _ _ _ _ Hf). reflexivity.
Qed.

Lemma C10_write_reports_failed_flush_witness :
  NewRelic.Write Scenario.failing Scenario.line
    (Scenario.newrelicAfter Scenario.failing 99).1
    (Scenario.newrelicAfter Scenario.failing 99).2
  = ((0%Z, Some "new relic API returned unexpected status code: 500"%string),
     (Scenario.newrelicAfter Scenario.failing 100).1,
     (Scenario.newrelicAfter Scenario.failing 100).2) /\
  NewRelic.buffer (Scenario.newrelicAfter Scenario.failing 100).1
  = NewRelic.buffer (Scenario.newrelicAfter Scenario.failing 99).1
    ++ [Some Scenario.lineRecord] /\
  length (NewRelic.buffer (Scenario.newrelicAfter Scenario.failing 100).1) = 100%nat.
Proof.
  destruct (C10_write_reports_failed_flush Scenario.failing Scenario.line
              (Scenario.newrelicAfter Scenario.failing 99).1
              (Scenario.newrelicAfter Scenario.failing 99).2
              Scenario.lineRecord
              "new relic API returned unexpected status code: 500"%string
              (Scenario.newrelicAfter Scenario.failing 100).1
              (Scenario.newrelicAfter Scenario.failing 100).2) as [Hret Hbuf].
  - vm_compute. reflexivity.
  - vm_compute. discriminate.
  - vm_compute. reflexivity.
  - split; [exact Hret|]. split; [exact Hbuf|]. vm_compute. reflexivity.
Defined.

(** * Beyond the claims: the streaming writer in use *)

Module ELKMore.

Import ELK ELKCalls.

Lemma wire_app a b : wire (a ++ b) = wire a ++ wire b.
Proof.
  induction a as [|ev a IH]; simpl; [reflexivity|].
  destruct ev as [| | |c entry [err|]| |]; simpl; rewrite IH; reflexivity.
Qed.

Lemma wire_delivered c l : wire (delivered c l) = l.
Proof. induction l as [|e l IH]; simpl; [reflexivity|]. rewrite IH. reflexivity. Qed.

Lemma wire_quiet l : Forall quiet l -> wire l = [].
Proof.
  induction 1 as [|ev l Hq _ IH]; simpl; [reflexivity|].
  destruct ev as [| | |c entry [err|]| |]; simpl in *; try exact IH; contradiction.
Qed.

Lemma quiet_not_failed l : Forall quiet l -> ~ encodeFailed l.
Proof.
  intros Hq (c & e & err & Hin). rewrite Forall_forall in Hq.
  apply (Hq _ (proj2 (list_elem_of_In _ _) Hin)).
Qed.

Lemma set_buffer_same (w : ELKRemoteSyncWriter) : set_buffer (buffer w) w = w.
Proof. destruct w. reflexivity. Qed.

Section More.

Variable E : Env.

(** On a connection whose writes never fail the loop writes everything. *)
Lemma encodeEntries_never_fails c :
  (forall t entry, Encode E t c entry = None) ->
  forall entries t,
    encodeEntries E (Some c) entries t = (Return None, t ++ delivered c entries).
Proof.
  intros Hok entries. induction entries as [|entry rest IH]; intros t; simpl.
  - rewrite app_nil_r. reflexivity.
  - rewrite Hok, IH, <- app_assoc. reflexivity.
Qed.

Lemma connect_ok_shape w t w' t' :
  connect E w t = (None, w', t') ->
  exists c new,
    w' = set_encoder (Some c) (set_conn (Some c) w) /\
    t' = t ++ new /\ wire new = [] /\ ~ encodeFailed new.
Proof.
  unfold connect. intros H.
  destruct (conn w) as [c0|];
    match type of H with context [Dial E ?t1 ?tls ?a] =>
      destruct (Dial E t1 tls a) as [c|err] eqn:Hd
    end; inversion H; subst; clear H; exists c; eexists;
    (split; [reflexivity|]); (split; [rewrite <- ?app_assoc; reflexivity|]);
    (split; [reflexivity|]);
    intros (c' & e & err & Hin); simpl in Hin;
    repeat (destruct Hin as [Hin|Hin]; [discriminate|]); exact Hin.
Qed.

(** One Write on a writer whose connections never fail. *)
Lemma Write_never_failing p w t m :
  wf w ->
  (forall t c entry, Encode E t c entry = None) ->
  Decode E p = Ok (Some m) ->
  exists w1 new,
    Write E p w t = (Return (len p, None), w1, t ++ new) /\
    wf w1 /\ conn w1 = conn w /\ batchSize w1 = batchSize w /\
    wire new ++ buffer w1 = buffer w ++ [Some (enriched (Now E t) m)] /\
    (conn w <> None -> (len (buffer w) < batchSize w)%Z ->
     (len (buffer w1) < batchSize w)%Z).
Proof.
  intros Hwf Hok Hd.
  destruct (Z.le_gt_cases (batchSize w) (len (buffer w) + 1)) as [Hle|Hgt].
  - rewrite (ELKFacts.Write_flushing E p w t m Hd Hle).
    set (w1 := set_buffer _ w). set (t1 := t ++ _).
    destruct (ELKFacts.flushBuffer_cases E w1 t1)
      as [(Hc & ->)|[(Hc & c & ->)|[(Hc & c & done & entry & rest & err & _ & _ & Herr & _)
                                   |(Hc & Henc & Hbuf & msg & _)]]].
    + exists w1, [EvNow (Now E t)]. repeat split; auto.
      intros Hup. contradiction.
    + exists (set_buffer [] w1), (EvNow (Now E t) :: delivered c (buffer w1)).
      subst t1. rewrite <- app_assoc. repeat split; auto.
      * simpl. rewrite wire_delivered, app_nil_r. reflexivity.
      * intros _ Hlt. simpl. unfold len in *. simpl. lia.
    + rewrite Hok in Herr. discriminate.
    + exfalso. destruct Hwf as [Hwf|Hwf]; simpl in *; congruence.
  - rewrite (ELKFacts.Write_below E p w t m Hd) by lia.
    eexists. exists [EvNow (Now E t)]. repeat split; auto.
    intros _ _. simpl. rewrite len_app. lia.
Qed.

(** One Write on a disconnected writer. *)
Lemma Write_disconnected p w t m :
  conn w = None ->
  Decode E p = Ok (Some m) ->
  Write E p w t
  = (Return (len p, None),
     set_buffer (buffer w ++ [Some (enriched (Now E t) m)]) w,
     t ++ [EvNow (Now E t)]).
Proof.
  intros Hc Hd.
  destruct (Z.le_gt_cases (batchSize w) (len (buffer w) + 1)) as [Hle|Hgt].
  - rewrite (ELKFacts.Write_flushing E p w t m Hd Hle).
    rewrite ELKFacts.flushBuffer_disconnected by exact Hc. reflexivity.
  - apply ELKFacts.Write_below; [exact Hd|lia].
Qed.

End More.

End ELKMore.

Module ELKReach.

Import ELK ELKCalls.

Section Reach.

Variable E : Env.

(** On a writer whose encoder is the one of its connection every call
    returns, but a Write of a payload that decodes to a nil map. *)
Lemma call_wf c w t :
  wf w ->
  (forall p, c = CallWrite p -> Decode E p <> Ok None) ->
  exists w' t', call E c w t = (Return tt, w', t') /\ wf w'.
Proof.
  intros Hwf Hp. destruct c as [p| | |]; simpl.
  - destruct (ELKFacts.Write_keeps E p w t) as (_ & _ & _ & Hk).
    destruct (Decode E p) as [[m|]|err] eqn:Hd.
    + pose proof (ELKFacts.Write_wf_returns E p w t m Hd Hwf) as Hr.
      destruct (Write E p w t) as [[o w'] t']. simpl in *. subst o.
      exists w', t'. auto.
    + exfalso. exact (Hp p eq_refl Hd).
    + rewrite (ELKFacts.Write_decode_error E p w t err Hd). simpl. eauto.
  - destruct (ELKFacts.Sync_keeps E w t) as (_ & _ & _ & Hk).
    pose proof (ELKFacts.Sync_wf E w t Hwf) as Hr.
    destruct (Sync E w t) as [[o w'] t']. simpl in *. subst o.
    exists w', t'. auto.
  - destruct (ELKFacts.Close_keeps E w t) as (_ & _ & _ & Hk).
    revert Hk. unfold Close.
    destruct (ELKFacts.flushBuffer_wf E w t Hwf) as (w1 & t1 & -> & _).
    destruct (conn w1) as [c|]; simpl; eauto.
  - destruct (ELKFacts.reconnectionTick_keeps E w t) as (_ & _ & _ & Hk).
    revert Hk. unfold reconnectionTick.
    destruct (conn w) as [c|]; [simpl; eauto|].
    destruct (ELKFacts.connect_keeps E w (t ++ [EvSleep (reconnectInterval w)]))
      as (_ & _ & _ & Hk1).
    destruct (connect E w (t ++ [EvSleep (reconnectInterval w)]))
      as [[[err|] w1] t1]; simpl in *; [eauto|].
    match goal with |- context [flushBuffer E w1 ?tt] =>
      destruct (ELKFacts.flushBuffer_wf E w1 tt (Hk1 Hwf)) as (w2 & t2 & -> & _)
    end.
    simpl. eauto.
Qed.

Lemma calls_wf cs : forall w t,
  wf w ->
  (forall p, In (CallWrite p) cs -> Decode E p <> Ok None) ->
  exists w' t', calls E cs w t = (Return tt, w', t') /\ wf w'.
Proof.
  induction cs as [|c cs IH]; intros w t Hwf Hp; simpl; [eauto|].
  destruct (call_wf c w t Hwf) as (w1 & t1 & -> & Hwf1).
  - intros p ->. apply Hp. left. reflexivity.
  - apply IH; [exact Hwf1|]. intros p Hin. apply Hp. right. exact Hin.
Qed.

End Reach.

End ELKReach.

Module ELKTurns.

Import ELK ELKCalls ELKMore.

Section Turns.

Variable E : Env.

(** What a flush put on the wire is the start of its buffer; the buffer is
    left as it was unless all of it went. *)
Lemma flushBuffer_prefix w t :
  exists rest,
    buffer w = wire (since t (flushBuffer E w t).2) ++ rest /\
    (buffer (flushBuffer E w t).1.2 = buffer w \/
     (buffer (flushBuffer E w t).1.2 = [] /\ rest = [])).
Proof.
  destruct (ELKFacts.flushBuffer_cases E w t)
    as [(Hc & ->)|[(Hc & c & ->)|[(Hc & c & done & entry & rest & err & _ & Hbuf & _ & ->)
                                 |(Hc & _ & _ & msg & ->)]]]; simpl.
  - exists (buffer w). unfold since. rewrite drop_all. auto.
  - exists []. rewrite since_app, wire_delivered, app_nil_r. auto.
  - exists (entry :: rest). rewrite since_app, wire_app, wire_delivered. simpl.
    rewrite app_nil_r. auto.
  - exists (buffer w). unfold since. rewrite drop_all. auto.
Qed.

(** One turn of the loop on a disconnected writer, by the answer of the
    dial. *)
Lemma reconnectionTick_dial_failed w t err :
  conn w = None ->
  Dial E (t ++ [EvSleep (reconnectInterval w)]) (useTLS w) (host w +:+ ":" +:+ port w)
  = Err err ->
  reconnectionTick E w t
  = (Return tt, w,
     t ++ [EvSleep (reconnectInterval w);
           EvDial (useTLS w) (host w +:+ ":" +:+ port w) (Err err);
           EvPrint ("Failed to reconnect to Logstash: " +:+ err +:+
                    ". Will retry later." +:+ newline)]).
Proof.
  intros Hc Hd. unfold reconnectionTick. rewrite Hc.
  rewrite (ELKFacts.connect_disconnected_err E w _ err Hc Hd).
  rewrite <- !app_assoc. reflexivity.
Qed.

Lemma reconnectionTick_dial_ok w t c :
  conn w = None ->
  Dial E (t ++ [EvSleep (reconnectInterval w)]) (useTLS w) (host w +:+ ":" +:+ port w)
  = Ok c ->
  reconnectionTick E w t
  = flushBuffer E (set_encoder (Some c) (set_conn (Some c) w))
      (t ++ [EvSleep (reconnectInterval w);
             EvDial (useTLS w) (host w +:+ ":" +:+ port w) (Ok c);
             EvPrint ("Successfully reconnected to Logstash." +:+ newline)]).
Proof.
  intros Hc Hd. unfold reconnectionTick. rewrite Hc.
  rewrite (ELKFacts.connect_disconnected_ok E w _ c Hc Hd).
  rewrite <- !app_assoc. reflexivity.
Qed.

(** A turn that leaves a disconnected writer connected has dialled and
    written the whole buffer, in order. *)
Lemma reconnectionTick_connected w t o w' t' :
  conn w = None ->
  reconnectionTick E w t = (o, w', t') ->
  conn w' <> None ->
  buffer w' = [] /\ wire (since t t') = buffer w.
Proof.
  intros Hc H Hup.
  destruct (Dial E (t ++ [EvSleep (reconnectInterval w)]) (useTLS w)
                 (host w +:+ ":" +:+ port w)) as [c|err] eqn:Hd.
  - rewrite (reconnectionTick_dial_ok w t c Hc Hd) in H.
    destruct (ELKFacts.flushBuffer_cases E (set_encoder (Some c) (set_conn (Some c) w))
      (t ++ [EvSleep (reconnectInterval w);
             EvDial (useTLS w) (host w +:+ ":" +:+ port w) (Ok c);
             EvPrint ("Successfully reconnected to Logstash." +:+ newline)]))
      as [(Hc1 & Heq)|[(_ & c1 & Heq)|[(_ & c1 & done & entry & rest & err & _ & _ & _ & Heq)
                                     |(_ & Henc & _)]]];
      try (rewrite Heq in H; inversion H; subst; clear H); simpl in *;
      try congruence.
    split; [reflexivity|].
    rewrite <- app_assoc, since_app. simpl. apply wire_delivered.
  - rewrite (reconnectionTick_dial_failed w t err Hc Hd) in H.
    inversion H; subst. contradiction.
Qed.

(** The writes of payloads that decode, over connections that never fail. *)
Lemma writeAll_never_failing ps ms :
  decodeTo E ps ms ->
  (forall t c entry, Encode E t c entry = None) ->
  forall w t, wf w ->
  exists records w' new,
    writeAll E ps w t = (map (fun p => (len p, None)) ps, w', t ++ new) /\
    enrichedFrom ms records /\
    wf w' /\ conn w' = conn w /\ batchSize w' = batchSize w /\
    wire new ++ buffer w' = buffer w ++ records /\
    (conn w <> None -> (len (buffer w) < batchSize w)%Z ->
     (len (buffer w') < batchSize w)%Z).
Proof.
  intros Hd Hok. induction Hd as [|p m ps ms Hp _ IH]; intros w t Hwf.
  - exists [], w, []. simpl. rewrite !app_nil_r.
    repeat split; auto. constructor.
  - destruct (Write_never_failing E p w t m Hwf Hok Hp)
      as (w1 & new1 & HW & Hwf1 & Hc1 & Hb1 & Hwire1 & Hlt1).
    destruct (IH w1 (t ++ new1) Hwf1)
      as (records & w' & new2 & Hall & Hen & Hwf' & Hc' & Hb' & Hwire & Hlt).
    exists (Some (enriched (Now E t) m) :: records), w', (new1 ++ new2).
    simpl. rewrite HW, Hall, <- app_assoc.
    split; [reflexivity|]. split; [constructor; eauto|].
    split; [exact Hwf'|]. split; [congruence|]. split; [congruence|]. split.
    + rewrite wire_app, <- app_assoc, Hwire, app_assoc, Hwire1, <- app_assoc.
      reflexivity.
    + intros Hup Hlen. rewrite <- Hb1. apply Hlt; [congruence|].
      rewrite Hb1. auto.
Qed.

(** The writes of payloads that decode, on a disconnected writer. *)
Lemma writeAll_disconnected ps ms :
  decodeTo E ps ms ->
  forall w t, conn w = None ->
  exists times,
    length times = length ps /\
    writeAll E ps w t
    = (map (fun p => (len p, None)) ps,
       set_buffer (buffer w ++ zip_with (fun tm m => Some (enriched tm m)) times ms) w,
       t ++ map EvNow times).
Proof.
  intros Hd. induction Hd as [|p m ps ms Hp _ IH]; intros w t Hc.
  - exists []. simpl. rewrite !app_nil_r, set_buffer_same. auto.
  - destruct (IH (set_buffer (buffer w ++ [Some (enriched (Now E t) m)]) w)
                 (t ++ [EvNow (Now E t)]) Hc) as (times & Hlen & Hall).
    exists (Now E t :: times). simpl.
    rewrite (Write_disconnected E p w t m Hc Hp), Hall. simpl.
    rewrite <- !app_assoc. auto.
Qed.

(** While connected the loop only sleeps. *)
Lemma reconnectionLoop_connected n : forall w t,
  conn w <> None ->
  reconnectionLoop E n w t
  = (Return tt, w, t ++ repeat (EvSleep (reconnectInterval w)) n).
Proof.
  induction n as [|n IH]; intros w t Hup; simpl.
  - rewrite app_nil_r. reflexivity.
  - unfold reconnectionTick. destruct (conn w) as [c|] eqn:Hc; [|congruence].
    rewrite IH by congruence. rewrite <- app_assoc. reflexivity.
Qed.

(** While every dial fails the loop leaves the writer as it is. *)
Lemma reconnectionLoop_down n : forall w t,
  conn w = None ->
  (forall t', exists err,
     Dial E t' (useTLS w) (host w +:+ ":" +:+ port w) = Err err) ->
  exists new,
    reconnectionLoop E n w t = (Return tt, w, t ++ new) /\
    Forall quiet new /\ length new = (3 * n)%nat.
Proof.
  induction n as [|n IH]; intros w t Hc Hdown; simpl.
  - exists []. rewrite app_nil_r. auto.
  - destruct (Hdown (t ++ [EvSleep (reconnectInterval w)])) as (err & Hd).
    rewrite (reconnectionTick_dial_failed w t err Hc Hd).
    destruct (IH w (t ++ [EvSleep (reconnectInterval w);
                          EvDial (useTLS w) (host w +:+ ":" +:+ port w) (Err err);
                          EvPrint ("Failed to reconnect to Logstash: " +:+ err +:+
                                   ". Will retry later." +:+ newline)]) Hc Hdown)
      as (new & -> & Hq & Hlen).
    eexists. rewrite <- app_assoc. split; [reflexivity|]. split.
    + repeat (constructor; [exact I|]). exact Hq.
    + simpl. lia.
Qed.

End Turns.

End ELKTurns.

(** * Further properties of the streaming writer *)

Lemma NewRemoteSyncWriter_unset (E : ELK.Env) (getenv : string -> string)
  (t : list ELK.Event) :
  getenv "LOGSTASH_HOST" = EmptyString \/ getenv "LOGSTASH_PORT" = EmptyString ->
  ELK.NewRemoteSyncWriter E getenv t
  = (None, t ++ [ELK.EvPrint ("LOGSTASH_HOST or LOGSTASH_PORT not set. Remote sync disabled."
                              +:+ newline)]).
Proof.
  intros H. unfold ELK.NewRemoteSyncWriter.
  destruct H as [H|H]; rewrite H; simpl; [reflexivity|].
  rewrite orb_true_r. reflexivity.
Qed.

Lemma NewRemoteSyncWriter_set (E : ELK.Env) (getenv : string -> string)
  (t : list ELK.Event) :
  getenv "LOGSTASH_HOST" <> EmptyString ->
  getenv "LOGSTASH_PORT" <> EmptyString ->
  ELK.NewRemoteSyncWriter E getenv t
  = let tls := bool_decide (getenv "LOGSTASH_USE_TLS" = "true"%string) in
    let address := getenv "LOGSTASH_HOST" +:+ ":" +:+ getenv "LOGSTASH_PORT" in
    let w := ELK.mkWriter (getenv "LOGSTASH_HOST") (getenv "LOGSTASH_PORT") tls
                          None None [] 100 5000000000 in
    match ELK.Dial E t tls address with
    | Ok c =>
      (Some (ELK.set_encoder (Some c) (ELK.set_conn (Some c) w)),
       t ++ [ELK.EvDial tls address (Ok c)])
    | Err err =>
      (Some w,
       t ++ [ELK.EvDial tls address (Err err);
             ELK.EvPrint ("Failed to connect to Logstash: " +:+ err +:+
                          ". Will retry later." +:+ newline)])
    end.
Proof.
  intros Hh Hp. unfold ELK.NewRemoteSyncWriter.
  rewrite (bool_decide_eq_false_2 _ Hh), (bool_decide_eq_false_2 _ Hp).
  unfold ELK.connect. simpl.
  destruct (ELK.Dial E t _ _) as [c|err]; simpl; [reflexivity|].
  rewrite <- app_assoc. reflexivity.
Qed.

(** X1.  The constructor of the streaming writer returns nil exactly when
    LOGSTASH_HOST or LOGSTASH_PORT is empty, and then it only prints a
    line: it does not dial.  Otherwise it dials host:port once and returns
    a writer whether or not the dial succeeded: batch size 100, reconnect
    interval 5 s, empty buffer, TLS exactly when LOGSTASH_USE_TLS is the
    string true, and the connection and its encoder installed exactly
    when the dial succeeded. *)
Theorem NewRemoteSyncWriter_result (E : ELK.Env) (getenv : string -> string)
  (t : list ELK.Event) :
  ((ELK.NewRemoteSyncWriter E getenv t).1 = None <->
   getenv "LOGSTASH_HOST" = EmptyString \/ getenv "LOGSTASH_PORT" = EmptyString) /\
  ((ELK.NewRemoteSyncWriter E getenv t).1 = None ->
   exists text, (ELK.NewRemoteSyncWriter E getenv t).2 = t ++ [ELK.EvPrint text]) /\
  (forall w, (ELK.NewRemoteSyncWriter E getenv t).1 = Some w ->
     exists d prints,
       d = ELK.Dial E t (ELK.useTLS w) (ELK.host w +:+ ":" +:+ ELK.port w) /\
       w = ELK.mkWriter (getenv "LOGSTASH_HOST") (getenv "LOGSTASH_PORT")
             (bool_decide (getenv "LOGSTASH_USE_TLS" = "true"%string))
             (match d with Ok c => Some c | Err _ => None end)
             (match d with Ok c => Some c | Err _ => None end)
             [] 100 5000000000 /\
       (ELK.NewRemoteSyncWriter E getenv t).2
       = t ++ ELK.EvDial (ELK.useTLS w) (ELK.host w +:+ ":" +:+ ELK.port w) d :: prints /\
       Forall (fun ev => exists text, ev = ELK.EvPrint text) prints).
Proof.
  destruct (decide (getenv "LOGSTASH_HOST" = EmptyString)) as [Hh|Hh];
    [|destruct (decide (getenv "LOGSTASH_PORT" = EmptyString)) as [Hp|Hp]].
  1,2: rewrite NewRemoteSyncWriter_unset by auto; simpl;
       (split; [split; auto|]); (split; [eauto|]); intros w Hw; discriminate.
  rewrite (NewRemoteSyncWriter_set E getenv t Hh Hp). simpl.
  destruct (ELK.Dial E t _ _) as [c|err] eqn:Hd; simpl.
  - split; [split; [discriminate|intros [?|?]; contradiction]|].
    split; [discriminate|].
    intros w Hw. inversion Hw; subst; clear Hw. simpl.
    exists (Ok c), []. rewrite Hd. repeat split; constructor.
  - split; [split; [discriminate|intros [?|?]; contradiction]|].
    split; [discriminate|].
    intros w Hw. inversion Hw; subst; clear Hw. simpl.
    exists (Err err). eexists. rewrite Hd.
    split; [reflexivity|]. split; [reflexivity|]. split; [reflexivity|].
    repeat constructor. eauto.
Qed.

(** X2.  A writer the constructor returned never panics, whatever Write,
    Sync, Close and turns of the reconnection loop are run on it in
    whatever order, as long as no written payload decodes to a nil map:
    the encoder is never used before a connection installed it. *)
Theorem constructed_writer_never_panics (E : ELK.Env) (getenv : string -> string)
  (t0 : list ELK.Event) (w : ELK.ELKRemoteSyncWriter) (t : list ELK.Event)
  (cs : list ELKCalls.Call) :
  ELK.NewRemoteSyncWriter E getenv t0 = (Some w, t) ->
  (forall p, In (ELKCalls.CallWrite p) cs -> ELK.Decode E p <> Ok None) ->
  exists w' t', ELKCalls.calls E cs w t = (Return tt, w', t') /\ ELK.wf w'.
Proof.
  intros Hnew Hp. apply ELKReach.calls_wf; [|exact Hp].
  exact (ELKFacts.NewRemoteSyncWriter_wf E getenv t0 w t Hnew).
Qed.

Lemma constructed_writer_never_panics_witness :
  exists w' t',
    ELKCalls.calls Scenario.broken
      [ELKCalls.CallWrite Scenario.line; ELKCalls.CallSync; ELKCalls.CallTick;
       ELKCalls.CallWrite Scenario.notJSON; ELKCalls.CallTick; ELKCalls.CallClose;
       ELKCalls.CallWrite Scenario.line]
      (Scenario.elkStart Scenario.broken).1 (Scenario.elkStart Scenario.broken).2
    = (Return tt, w', t') /\ ELK.wf w'.
Proof.
  apply (constructed_writer_never_panics Scenario.broken Scenario.getenv []).
  - vm_compute. reflexivity.
  - intros p Hin. simpl in Hin.
    repeat (destruct Hin as [Hin|Hin];
            [try discriminate; inversion Hin; subst; vm_compute; discriminate|]).
    destruct Hin.
Defined.

(** X3.  Whatever a flush wrote to the connection is the start of the
    buffer, in buffer order, and the flush leaves the buffer as it was
    unless it wrote all of it, in which case the buffer is empty
    afterwards: no record is dropped, skipped or reordered by a flush. *)
Theorem flushBuffer_writes_prefix (E : ELK.Env) (w : ELK.ELKRemoteSyncWriter)
  (t : list ELK.Event) :
  exists rest,
    ELK.buffer w = ELKCalls.wire (since t (ELK.flushBuffer E w t).2) ++ rest /\
    (ELK.buffer (ELK.flushBuffer E w t).1.2 = ELK.buffer w \/
     (ELK.buffer (ELK.flushBuffer E w t).1.2 = [] /\ rest = [])).
Proof. apply ELKTurns.flushBuffer_prefix. Qed.

(** X4.  Delivery is at least once, not exactly once: when an Encode
    fails in a flush, the records that flush had already written stay in
    the buffer, and the turn of the reconnection loop that reconnects
    writes the whole buffer again from its first record, so those records
    go over the wire a second time. *)
Theorem failed_flush_resends (E : ELK.Env) (w : ELK.ELKRemoteSyncWriter)
  (t : list ELK.Event) o w1 t1 t2 o2 w2 t3 :
  ELK.flushBuffer E w t = (o, w1, t1) ->
  ELK.encodeFailed (since t t1) ->
  ELK.reconnectionTick E w1 t2 = (o2, w2, t3) ->
  ELK.conn w2 <> None ->
  (exists rest, ELK.buffer w = ELKCalls.wire (since t t1) ++ rest) /\
  ELKCalls.wire (since t2 t3) = ELK.buffer w /\
  ELK.buffer w2 = [].
Proof.
  intros Hf Hfail Htick Hup.
  destruct (ELKFacts.flushBuffer_rules E w t o w1 t1 Hf) as (new & -> & _).
  rewrite since_app in Hfail.
  destruct (ELKFacts.flushBuffer_failed E w t o w1 new Hf Hfail) as [-> ->].
  destruct (ELKTurns.reconnectionTick_connected E (ELK.set_conn None w) t2 o2 w2 t3
              eq_refl Htick Hup) as [Hb Hwire].
  split; [|split; assumption].
  destruct (ELKTurns.flushBuffer_prefix E w t) as (rest & Hpre & _).
  rewrite Hf in Hpre. exists rest. exact Hpre.
Qed.

Lemma failed_flush_resends_witness :
  (exists rest,
     ELK.buffer Outage.beforeBreak.1
     = ELKCalls.wire (since Outage.beforeBreak.2 Outage.broke.2) ++ rest) /\
  ELKCalls.wire (since Outage.broke.2 Outage.healed.2) = ELK.buffer Outage.beforeBreak.1 /\
  ELK.buffer Outage.healed.1.2 = [] /\
  length (ELKCalls.wire (since Outage.beforeBreak.2 Outage.broke.2)) = 2%nat /\
  length (ELK.buffer Outage.beforeBreak.1) = 4%nat.
Proof.
  destruct (failed_flush_resends Outage.flaky Outage.beforeBreak.1 Outage.beforeBreak.2
              Outage.broke.1.1 Outage.broke.1.2 Outage.broke.2 Outage.broke.2
              Outage.healed.1.1 Outage.healed.1.2 Outage.healed.2)
    as (Hpre & Hwire & Hb).
  - vm_compute. reflexivity.
  - vm_compute. eexists _, _, _. do 2 right. left. reflexivity.
  - vm_compute. reflexivity.
  - vm_compute. discriminate.
  - split; [exact Hpre|]. split; [exact Hwire|]. split; [exact Hb|].
    split; vm_compute; reflexivity.
Defined.

(** X5.  Over connections on which no Encode fails, the writer is a
    FIFO: after any sequence of writes of payloads that decode, every
    write has returned the length of its payload and no error, and what
    went over the wire followed by what is still buffered is what was
    buffered before followed by the written records, each with the two
    fields set, in write order.  A connected writer that started below
    its batch size is below it after every such sequence. *)
Theorem steady_connection_fifo (E : ELK.Env) ps ms (w : ELK.ELKRemoteSyncWriter)
  (t : list ELK.Event) :
  ELK.wf w ->
  (forall t' c entry, ELK.Encode E t' c entry = None) ->
  ELKCalls.decodeTo E ps ms ->
  exists records,
    ELKCalls.enrichedFrom ms records /\
    (ELKCalls.writeAll E ps w t).1.1 = map (fun p => (len p, None)) ps /\
    ELK.conn (ELKCalls.writeAll E ps w t).1.2 = ELK.conn w /\
    ELKCalls.wire (since t (ELKCalls.writeAll E ps w t).2)
      ++ ELK.buffer (ELKCalls.writeAll E ps w t).1.2
    = ELK.buffer w ++ records /\
    (ELK.conn w <> None -> (len (ELK.buffer w) < ELK.batchSize w)%Z ->
     (len (ELK.buffer (ELKCalls.writeAll E ps w t).1.2) < ELK.batchSize w)%Z).
Proof.
  intros Hwf Hok Hd.
  destruct (ELKTurns.writeAll_never_failing E ps ms Hd Hok w t Hwf)
    as (records & w' & new & -> & Hen & _ & Hc & _ & Hwire & Hlt).
  exists records. simpl. rewrite since_app. auto.
Qed.

Lemma line_decodes (n : nat) :
  ELKCalls.decodeTo Scenario.live (repeat Scenario.line n) (repeat Scenario.lineRecord n).
Proof.
  induction n as [|n IH]; simpl; constructor; [|exact IH].
  vm_compute. reflexivity.
Qed.

Lemma steady_connection_fifo_witness :
  exists records,
    ELKCalls.enrichedFrom (repeat Scenario.lineRecord 7) records /\
    (ELKCalls.writeAll Scenario.live (repeat Scenario.line 7)
       (Scenario.elkSmall Scenario.live).1 (Scenario.elkSmall Scenario.live).2).1.1
    = map (fun p => (len p, None)) (repeat Scenario.line 7) /\
    ELK.conn (ELKCalls.writeAll Scenario.live (repeat Scenario.line 7)
                (Scenario.elkSmall Scenario.live).1 (Scenario.elkSmall Scenario.live).2).1.2
    = ELK.conn (Scenario.elkSmall Scenario.live).1 /\
    ELKCalls.wire (since (Scenario.elkSmall Scenario.live).2
                     (ELKCalls.writeAll Scenario.live (repeat Scenario.line 7)
                        (Scenario.elkSmall Scenario.live).1
                        (Scenario.elkSmall Scenario.live).2).2)
      ++ ELK.buffer (ELKCalls.writeAll Scenario.live (repeat Scenario.line 7)
                       (Scenario.elkSmall Scenario.live).1
                       (Scenario.elkSmall Scenario.live).2).1.2
    = ELK.buffer (Scenario.elkSmall Scenario.live).1 ++ records /\
    (ELK.conn (Scenario.elkSmall Scenario.live).1 <> None ->
     (len (ELK.buffer (Scenario.elkSmall Scenario.live).1)
      < ELK.batchSize (Scenario.elkSmall Scenario.live).1)%Z ->
     (len (ELK.buffer (ELKCalls.writeAll Scenario.live (repeat Scenario.line 7)
                         (Scenario.elkSmall Scenario.live).1
                         (Scenario.elkSmall Scenario.live).2).1.2)
      < ELK.batchSize (Scenario.elkSmall Scenario.live).1)%Z).
Proof.
  apply (steady_connection_fifo Scenario.live (repeat Scenario.line 7)
           (repeat Scenario.lineRecord 7)).
  - right. vm_compute. reflexivity.
  - intros t' c entry. reflexivity.
  - apply line_decodes.
Defined.

(** X6.  A disconnected writer accepts every payload that decodes and
    only buffers it: each write reads the clock and nothing else, returns
    the length of its payload and no error, and appends its record at the
    end of the buffer.  No flush runs at the batch size, so the buffer
    grows by one record per write without bound while the connection is
    down. *)
Theorem disconnected_writes_accumulate (E : ELK.Env) ps ms
  (w : ELK.ELKRemoteSyncWriter) (t : list ELK.Event) :
  ELK.conn w = None ->
  ELKCalls.decodeTo E ps ms ->
  exists times,
    length times = length ps /\
    ELKCalls.writeAll E ps w t
    = (map (fun p => (len p, None)) ps,
       ELK.set_buffer
         (ELK.buffer w ++ zip_with (fun tm m => Some (ELK.enriched tm m)) times ms) w,
       t ++ map ELK.EvNow times).
Proof.
  intros Hc Hd. exact (ELKTurns.writeAll_disconnected E ps ms Hd w t Hc).
Qed.

Lemma disconnected_writes_accumulate_witness :
  exists times,
    length times = length (repeat Scenario.line 7) /\
    ELKCalls.writeAll Scenario.live (repeat Scenario.line 7)
      (Scenario.elkSmall Scenario.down).1 (Scenario.elkSmall Scenario.down).2
    = (map (fun p => (len p, None)) (repeat Scenario.line 7),
       ELK.set_buffer
         (ELK.buffer (Scenario.elkSmall Scenario.down).1
          ++ zip_with (fun tm m => Some (ELK.enriched tm m)) times
               (repeat Scenario.lineRecord 7))
         (Scenario.elkSmall Scenario.down).1,
       (Scenario.elkSmall Scenario.down).2 ++ map ELK.EvNow times).
Proof.
  apply (disconnected_writes_accumulate Scenario.live (repeat Scenario.line 7)
           (repeat Scenario.lineRecord 7)).
  - vm_compute. reflexivity.
  - apply line_decodes.
Defined.

(** X7.  The turn of the reconnection loop that finds the writer
    disconnected and whose dial succeeds, on a connection whose writes go
    through, installs the connection and writes the whole buffer over it
    in buffer order, whatever its size, and leaves the buffer empty. *)
Theorem reconnect_drains_buffer (E : ELK.Env) (w : ELK.ELKRemoteSyncWriter)
  (t : list ELK.Event) (c : ELK.Conn) :
  ELK.conn w = None ->
  ELK.Dial E (t ++ [ELK.EvSleep (ELK.reconnectInterval w)]) (ELK.useTLS w)
    (ELK.host w +:+ ":" +:+ ELK.port w) = Ok c ->
  (forall t' entry, ELK.Encode E t' c entry = None) ->
  exists t',
    ELK.reconnectionTick E w t
    = (Return tt,
       ELK.set_buffer [] (ELK.set_encoder (Some c) (ELK.set_conn (Some c) w)), t') /\
    ELKCalls.wire (since t t') = ELK.buffer w.
Proof.
  intros Hc Hd Hok.
  rewrite (ELKTurns.reconnectionTick_dial_ok E w t c Hc Hd).
  unfold ELK.flushBuffer. simpl.
  rewrite (ELKMore.encodeEntries_never_fails E c Hok).
  eexists. split; [reflexivity|].
  rewrite <- app_assoc, since_app. simpl. apply ELKMore.wire_delivered.
Qed.

Lemma reconnect_drains_buffer_witness :
  exists t',
    ELK.reconnectionTick Scenario.live (Scenario.elkAfter Scenario.down 3).1
      (Scenario.elkAfter Scenario.down 3).2
    = (Return tt,
       ELK.set_buffer []
         (ELK.set_encoder (Some 6%nat)
            (ELK.set_conn (Some 6%nat) (Scenario.elkAfter Scenario.down 3).1)), t') /\
    ELKCalls.wire (since (Scenario.elkAfter Scenario.down 3).2 t')
    = ELK.buffer (Scenario.elkAfter Scenario.down 3).1.
Proof.
  apply (reconnect_drains_buffer Scenario.live).
  - vm_compute. reflexivity.
  - vm_compute. reflexivity.
  - intros t' entry. reflexivity.
Defined.

(** X8.  While the writer is connected the reconnection loop does
    nothing but sleep: it neither dials nor flushes, so records below the
    batch size stay in the buffer until a write reaches the batch size or
    Sync or Close is called, however long that takes. *)
Theorem reconnectionLoop_connected_sleeps (E : ELK.Env) (n : nat)
  (w : ELK.ELKRemoteSyncWriter) (t : list ELK.Event) :
  ELK.conn w <> None ->
  ELK.reconnectionLoop E n w t
  = (Return tt, w, t ++ repeat (ELK.EvSleep (ELK.reconnectInterval w)) n).
Proof. apply ELKTurns.reconnectionLoop_connected. Qed.

Lemma reconnectionLoop_connected_sleeps_witness :
  ELK.reconnectionLoop Scenario.live 4 (Scenario.elkAfter Scenario.live 3).1
    (Scenario.elkAfter Scenario.live 3).2
  = (Return tt, (Scenario.elkAfter Scenario.live 3).1,
     (Scenario.elkAfter Scenario.live 3).2
     ++ repeat (ELK.EvSleep (ELK.reconnectInterval (Scenario.elkAfter Scenario.live 3).1)) 4)
  /\ length (ELK.buffer (Scenario.elkAfter Scenario.live 3).1) = 3%nat.
Proof.
  split; [|vm_compute; reflexivity].
  apply (reconnectionLoop_connected_sleeps Scenario.live 4).
  vm_compute. discriminate.
Defined.

(** X9.  While the writer is disconnected and every dial fails, each turn
    of the reconnection loop sleeps, dials once and prints one line, and
    the writer stays exactly as it was: the buffer is kept and nothing is
    written. *)
Theorem reconnectionLoop_down_retries (E : ELK.Env) (n : nat)
  (w : ELK.ELKRemoteSyncWriter) (t : list ELK.Event) :
  ELK.conn w = None ->
  (forall t', exists err,
     ELK.Dial E t' (ELK.useTLS w) (ELK.host w +:+ ":" +:+ ELK.port w) = Err err) ->
  exists new,
    ELK.reconnectionLoop E n w t = (Return tt, w, t ++ new) /\
    Forall ELKCalls.quiet new /\ length new = (3 * n)%nat.
Proof. apply ELKTurns.reconnectionLoop_down. Qed.

Lemma reconnectionLoop_down_retries_witness :
  exists new,
    ELK.reconnectionLoop Scenario.down 4 (Scenario.elkAfter Scenario.down 3).1
      (Scenario.elkAfter Scenario.down 3).2
    = (Return tt, (Scenario.elkAfter Scenario.down 3).1,
       (Scenario.elkAfter Scenario.down 3).2 ++ new) /\
    Forall ELKCalls.quiet new /\ length new = (3 * 4)%nat.
Proof.
  apply (reconnectionLoop_down_retries Scenario.down 4).
  - vm_compute. reflexivity.
  - intros t'. eexists. reflexivity.
Defined.

(** X10.  Close on a connected writer flushes and then closes the
    connection only when the flush went through: then it returns what
    closing the connection returned, the buffer is empty, and the writer
    still holds the closed connection as its connection.  When an Encode
    fails in that flush, Close returns nil, the connection is dropped
    without being closed, and the buffer is kept. *)
Theorem Close_outcome (E : ELK.Env) (w : ELK.ELKRemoteSyncWriter)
  (t : list ELK.Event) (c : ELK.Conn) :
  ELK.wf w ->
  ELK.conn w = Some c ->
  (~ ELK.encodeFailed (since t (ELK.Close E w t).2) /\
   ELK.Close E w t
   = (Return (ELK.ConnClose E (t ++ ELK.delivered c (ELK.buffer w)) c),
      ELK.set_buffer [] w,
      t ++ ELK.delivered c (ELK.buffer w)
        ++ [ELK.EvClose c (ELK.ConnClose E (t ++ ELK.delivered c (ELK.buffer w)) c)])) \/
  (ELK.encodeFailed (since t (ELK.Close E w t).2) /\
   (ELK.Close E w t).1.1 = Return None /\
   (ELK.Close E w t).1.2 = ELK.set_conn None w /\
   forall c' err, ~ In (ELK.EvClose c' err) (since t (ELK.Close E w t).2)).
Proof.
  intros Hwf Hc.
  assert (Henc : ELK.encoder w = Some c) by (destruct Hwf; congruence).
  unfold ELK.Close, ELK.flushBuffer. rewrite Hc, Henc.
  destruct (ELKFacts.encodeEntries_run E c (ELK.buffer w) t)
    as [|done entry rest err Hsplit Herr]; simpl.
  - left. rewrite Hc. simpl. rewrite <- app_assoc. split; [|reflexivity].
    rewrite since_app. intros (c' & e & err & Hin).
    apply in_app_or in Hin as [Hin|[Hin|[]]]; [|discriminate].
    apply ELKFacts.delivered_In in Hin as [? ?]. discriminate.
  - right. rewrite <- !app_assoc, since_app. split.
    + exists c, entry, err. apply in_or_app. right. left. reflexivity.
    + repeat split. intros c' err' Hin.
      apply in_app_or in Hin as [Hin|[Hin|[Hin|[]]]]; try discriminate.
      apply ELKFacts.delivered_In in Hin as [? ?]. discriminate.
Qed.

Lemma Close_outcome_witness :
  (~ ELK.encodeFailed
       (since Outage.beforeBreak.2
          (ELK.Close Outage.flaky Outage.beforeBreak.1 Outage.beforeBreak.2).2) /\
   ELK.Close Outage.flaky Outage.beforeBreak.1 Outage.beforeBreak.2
   = (Return (ELK.ConnClose Outage.flaky
                (Outage.beforeBreak.2
                 ++ ELK.delivered 0%nat (ELK.buffer Outage.beforeBreak.1)) 0%nat),
      ELK.set_buffer [] Outage.beforeBreak.1,
      Outage.beforeBreak.2 ++ ELK.delivered 0%nat (ELK.buffer Outage.beforeBreak.1)
        ++ [ELK.EvClose 0%nat
              (ELK.ConnClose Outage.flaky
                 (Outage.beforeBreak.2
                  ++ ELK.delivered 0%nat (ELK.buffer Outage.beforeBreak.1)) 0%nat)])) \/
  (ELK.encodeFailed
     (since Outage.beforeBreak.2
        (ELK.Close Outage.flaky Outage.beforeBreak.1 Outage.beforeBreak.2).2) /\
   (ELK.Close Outage.flaky Outage.beforeBreak.1 Outage.beforeBreak.2).1.1 = Return None /\
   (ELK.Close Outage.flaky Outage.beforeBreak.1 Outage.beforeBreak.2).1.2
   = ELK.set_conn None Outage.beforeBreak.1 /\
   forall c' err,
     ~ In (ELK.EvClose c' err)
          (since Outage.beforeBreak.2
             (ELK.Close Outage.flaky Outage.beforeBreak.1 Outage.beforeBreak.2).2)).
Proof.
  apply (Close_outcome Outage.flaky Outage.beforeBreak.1 Outage.beforeBreak.2 0%nat).
  - right. vm_compute. reflexivity.
  - vm_compute. reflexivity.
Defined.

(** * Further properties of the batch HTTP writer *)

Module NewRelicRuns.

Import NewRelic NewRelicCalls NewRelicFacts.

Lemma batch_set_buffer_same (w : NewRelicRemoteSyncWriter) : set_buffer (buffer w) w = w.
Proof. destruct w. reflexivity. Qed.

Section Runs.

Variable E : Env.

(** Below the batch size the writes only append. *)
Lemma writeAll_below ps entries :
  decodeTo E ps entries ->
  forall w b t,
    (len b + Z.of_nat (length ps) < batchSize w)%Z ->
    writeAll E ps (set_buffer b w) t
    = (map (fun p => (len p, None)) ps, set_buffer (b ++ entries) w, t).
Proof.
  intros Hd. induction Hd as [|p entry ps entries Hp _ IH]; intros w b t Hlt; simpl.
  - rewrite app_nil_r. reflexivity.
  - simpl in Hlt.
    rewrite (batch_Write_below E p (set_buffer b w) t entry Hp) by (simpl; lia).
    change (set_buffer (buffer (set_buffer b w) ++ [entry]) (set_buffer b w))
      with (set_buffer (b ++ [entry]) w).
    rewrite IH by (rewrite len_app; lia).
    rewrite <- app_assoc. reflexivity.
Qed.

(** Against a backend that never answers 202 a flush of a buffer that is
    not empty returns an error. *)
Lemma flush_refused w t :
  neverAccepts E -> buffer w <> [] ->
  exists err t', flush E w t = (Some err, w, t').
Proof.
  intros Hnever Hb.
  destruct (flush E w t) as [[[err|] w'] t'] eqn:Hf.
  - rewrite (flush_error_keeps E w t err w' t' Hf). eauto.
  - exfalso. destruct (flush_ok_sent E w t w' t' Hf)
      as (_ & [(Hnil & _)|(body & resp & _ & _ & Hst & Ht)]); [contradiction|].
    revert Hf. unfold flush, NewRequest. rewrite (buffer_nonempty_len w Hb).
    destruct (Marshal E _) as [body'|]; [|discriminate].
    destruct (ParseURL E (endpoint w)); [discriminate|]. simpl.
    match goal with |- context [Do E t (client w) ?req] =>
      destruct (Do E t (client w) req) as [resp'|] eqn:Hdo
    end; [|discriminate].
    destruct (Z.eqb_spec (StatusCode resp') StatusAccepted) as [Heq|Hne];
      simpl; [|discriminate].
    intros _. exact (Hnever _ _ _ _ Hdo Heq).
Qed.

(** The writes against a backend that never answers 202. *)
Lemma writeAll_refused ps entries :
  neverAccepts E ->
  decodeTo E ps entries ->
  forall w b t,
  exists rs t',
    writeAll E ps (set_buffer b w) t = (rs, set_buffer (b ++ entries) w, t') /\
    length rs = length ps /\
    take (Z.to_nat (batchSize w - 1 - len b)) rs
    = map (fun p => (len p, None)) (take (Z.to_nat (batchSize w - 1 - len b)) ps) /\
    Forall (fun r => exists err, r = (0%Z, Some err))
           (drop (Z.to_nat (batchSize w - 1 - len b)) rs).
Proof.
  intros Hnever Hd. induction Hd as [|p entry ps entries Hp _ IH]; intros w b t.
  - exists [], t. simpl. rewrite app_nil_r, !take_nil, drop_nil.
    repeat split; constructor.
  - destruct (Z.le_gt_cases (batchSize w) (len b + 1)) as [Hle|Hgt].
    + destruct (flush_refused (set_buffer (b ++ [entry]) w) t Hnever)
        as (err & t1 & Hf); [simpl; intros H; destruct b; discriminate|].
      destruct (IH w (b ++ [entry]) t1) as (rs & t' & Hall & Hlen & _ & Hdrop).
      exists ((0%Z, Some err) :: rs), t'. simpl.
      rewrite (batch_Write_flushing E p (set_buffer b w) t entry Hp) by (simpl; lia).
      change (set_buffer (buffer (set_buffer b w) ++ [entry]) (set_buffer b w))
        with (set_buffer (b ++ [entry]) w).
      rewrite Hf, Hall, <- app_assoc.
      replace (Z.to_nat (batchSize w - 1 - len b)) with 0%nat by lia.
      replace (Z.to_nat (batchSize w - 1 - len (b ++ [entry]))) with 0%nat in Hdrop
        by (rewrite len_app; lia).
      simpl. repeat split; auto. constructor; eauto.
    + destruct (IH w (b ++ [entry]) t) as (rs & t' & Hall & Hlen & Htake & Hdrop).
      exists ((len p, None) :: rs), t'. simpl.
      rewrite (batch_Write_below E p (set_buffer b w) t entry Hp) by (simpl; lia).
      change (set_buffer (buffer (set_buffer b w) ++ [entry]) (set_buffer b w))
        with (set_buffer (b ++ [entry]) w).
      rewrite Hall, <- app_assoc.
      replace (Z.to_nat (batchSize w - 1 - len b))
        with (S (Z.to_nat (batchSize w - 1 - len (b ++ [entry]))))
        by (rewrite len_app; unfold len in *; lia).
      simpl. rewrite Htake. repeat split; auto.
Qed.

End Runs.

End NewRelicRuns.

Module NewRelicBatches.

Import NewRelic NewRelicCalls NewRelicFacts.

Section Batches.

Variable E : Env.

(** Against a backend that always answers 202 a flush posts the buffer
    and empties it. *)
Lemma flush_accepted w t :
  alwaysAccepts E w -> buffer w <> [] ->
  exists ev,
    flush E w t = (None, set_buffer [] w, t ++ [ev]) /\ carried E w ev (buffer w).
Proof.
  intros (Hdo & Hm & Hu) Hb.
  destruct (Hm (payloadOf w)) as (body & Hbody).
  destruct (Hdo t (client w) (requestOf w body)) as (resp & Hresp & Hst).
  rewrite (flush_sends E w t body Hb Hbody Hu). simpl.
  rewrite Hresp, Hst, Z.eqb_refl.
  eexists. split; [reflexivity|].
  exists body, resp. rewrite NewRelicRuns.batch_set_buffer_same. auto.
Qed.

(** The writes against a backend that always answers 202: the buffer
    goes out in chunks of the batch size. *)
Lemma writeAll_accepted ps entries w :
  alwaysAccepts E w ->
  decodeTo E ps entries ->
  forall b t,
    (len b < batchSize w)%Z ->
    exists chunks b' new,
      writeAll E ps (set_buffer b w) t
      = (map (fun p => (len p, None)) ps, set_buffer b' w, t ++ new) /\
      concat chunks ++ b' = b ++ entries /\
      Forall (fun chunk => len chunk = batchSize w) chunks /\
      (len b' < batchSize w)%Z /\
      Forall2 (carried E w) new chunks.
Proof.
  intros Hacc Hd. induction Hd as [|p entry ps entries Hp _ IH]; intros b t Hlt.
  - exists [], b, []. simpl. rewrite !app_nil_r. repeat split; auto; constructor.
  - destruct (Z.le_gt_cases (batchSize w) (len b + 1)) as [Hle|Hgt].
    + destruct (flush_accepted (set_buffer (b ++ [entry]) w) t)
        as (ev & Hf & Hev); [exact Hacc|simpl; intros H; destruct b; discriminate|].
      destruct (IH [] (t ++ [ev])) as (chunks & b' & new & Hall & Hcat & Hsz & Hb' & Hreq);
        [unfold len in *; simpl; lia|].
      exists ((b ++ [entry]) :: chunks), b', (ev :: new). simpl.
      rewrite (batch_Write_flushing E p (set_buffer b w) t entry Hp) by (simpl; lia).
      change (set_buffer (buffer (set_buffer b w) ++ [entry]) (set_buffer b w))
        with (set_buffer (b ++ [entry]) w).
      rewrite Hf.
      change (set_buffer [] (set_buffer (b ++ [entry]) w)) with (set_buffer [] w).
      rewrite Hall, <- !app_assoc. simpl in Hcat. rewrite Hcat.
      split; [reflexivity|]. split; [reflexivity|].
      split; [constructor; [rewrite len_app; lia|exact Hsz]|].
      split; [exact Hb'|]. constructor; [exact Hev|exact Hreq].
    + destruct (IH (b ++ [entry]) t) as (chunks & b' & new & Hall & Hcat & Hsz & Hb' & Hreq);
        [rewrite len_app; lia|].
      exists chunks, b', new. simpl.
      rewrite (batch_Write_below E p (set_buffer b w) t entry Hp) by (simpl; lia).
      change (set_buffer (buffer (set_buffer b w) ++ [entry]) (set_buffer b w))
        with (set_buffer (b ++ [entry]) w).
      rewrite Hall, Hcat, <- app_assoc. auto.
Qed.

End Batches.

End NewRelicBatches.

Lemma line_decodes_batch (E : NewRelic.Env) (n : nat) :
  NewRelic.Decode E = Json.Decode ->
  NewRelicCalls.decodeTo E (repeat Scenario.line n) (repeat (Some Scenario.lineRecord) n).
Proof.
  intros HE. induction n as [|n IH]; simpl; constructor; [|exact IH].
  rewrite HE. vm_compute. reflexivity.
Qed.

(** X11.  The writer the batch constructor returns sends nothing for its
    first 99 writes, whatever the backend: every write of a payload that
    decodes returns the length of its payload and no error, the entries
    are buffered in write order, and no request is made.  They leave the
    process only with the hundredth write or a call of Sync. *)
Theorem constructed_batch_writer_buffers (E : NewRelic.Env) (getenv : string -> string)
  t0 (w : NewRelic.NewRelicRemoteSyncWriter) (t : list NewRelic.Event) ps entries :
  NewRelic.NewNewRelicRemoteSyncWriter getenv t0 = (Some w, t) ->
  NewRelicCalls.decodeTo E ps entries ->
  (length ps < 100)%nat ->
  NewRelicCalls.writeAll E ps w t
  = (map (fun p => (len p, None)) ps, NewRelic.set_buffer entries w, t).
Proof.
  intros Hnew Hd Hlt.
  unfold NewRelic.NewNewRelicRemoteSyncWriter in Hnew.
  destruct (bool_decide _) in Hnew; [discriminate|].
  inversion Hnew; subst; clear Hnew.
  match goal with |- NewRelicCalls.writeAll E ps ?w0 t = _ =>
    apply (NewRelicRuns.writeAll_below E ps entries Hd w0 [] t)
  end.
  simpl. unfold len. simpl. lia.
Qed.

Lemma constructed_batch_writer_buffers_witness :
  NewRelicCalls.writeAll Scenario.failing (repeat Scenario.line 7)
    Scenario.newrelicStart.1 Scenario.newrelicStart.2
  = (map (fun p => (len p, None)) (repeat Scenario.line 7),
     NewRelic.set_buffer (repeat (Some Scenario.lineRecord) 7) Scenario.newrelicStart.1,
     Scenario.newrelicStart.2).
Proof.
  apply (constructed_batch_writer_buffers Scenario.failing Scenario.getenv []).
  - vm_compute. reflexivity.
  - apply line_decodes_batch. reflexivity.
  - simpl. lia.
Defined.

(** X12.  While the backend never answers 202 the batch writer drops
    nothing and frees nothing: after any sequence of writes of payloads
    that decode the buffer is the old buffer followed by every written
    entry, so it grows without bound.  The writes that leave the buffer
    below the batch size return the length of their payload and no error;
    every write from then on returns 0 and an error, although its entry
    was buffered like the others. *)
Theorem refused_batches_pile_up (E : NewRelic.Env) ps entries
  (w : NewRelic.NewRelicRemoteSyncWriter) (t : list NewRelic.Event) :
  NewRelicCalls.neverAccepts E ->
  NewRelicCalls.decodeTo E ps entries ->
  (NewRelicCalls.writeAll E ps w t).1.2
  = NewRelic.set_buffer (NewRelic.buffer w ++ entries) w /\
  length (NewRelicCalls.writeAll E ps w t).1.1 = length ps /\
  take (Z.to_nat (NewRelic.batchSize w - 1 - len (NewRelic.buffer w)))
       (NewRelicCalls.writeAll E ps w t).1.1
  = map (fun p => (len p, None))
        (take (Z.to_nat (NewRelic.batchSize w - 1 - len (NewRelic.buffer w))) ps) /\
  Forall (fun r => exists err, r = (0%Z, Some err))
         (drop (Z.to_nat (NewRelic.batchSize w - 1 - len (NewRelic.buffer w)))
               (NewRelicCalls.writeAll E ps w t).1.1).
Proof.
  intros Hnever Hd.
  destruct (NewRelicRuns.writeAll_refused E ps entries Hnever Hd w (NewRelic.buffer w) t)
    as (rs & t' & Hall & Hlen & Htake & Hdrop).
  rewrite NewRelicRuns.batch_set_buffer_same in Hall. rewrite Hall. simpl. auto.
Qed.

Lemma refused_batches_pile_up_witness :
  (NewRelicCalls.writeAll Scenario.failing (repeat Scenario.line 7)
     Scenario.newrelicSmall.1 Scenario.newrelicSmall.2).1.2
  = NewRelic.set_buffer (NewRelic.buffer Scenario.newrelicSmall.1
                         ++ repeat (Some Scenario.lineRecord) 7) Scenario.newrelicSmall.1 /\
  length (NewRelicCalls.writeAll Scenario.failing (repeat Scenario.line 7)
            Scenario.newrelicSmall.1 Scenario.newrelicSmall.2).1.1
  = length (repeat Scenario.line 7) /\
  take (Z.to_nat (NewRelic.batchSize Scenario.newrelicSmall.1 - 1
                  - len (NewRelic.buffer Scenario.newrelicSmall.1)))
       (NewRelicCalls.writeAll Scenario.failing (repeat Scenario.line 7)
          Scenario.newrelicSmall.1 Scenario.newrelicSmall.2).1.1
  = map (fun p => (len p, None))
        (take (Z.to_nat (NewRelic.batchSize Scenario.newrelicSmall.1 - 1
                         - len (NewRelic.buffer Scenario.newrelicSmall.1)))
              (repeat Scenario.line 7)) /\
  Forall (fun r => exists err, r = (0%Z, Some err))
         (drop (Z.to_nat (NewRelic.batchSize Scenario.newrelicSmall.1 - 1
                          - len (NewRelic.buffer Scenario.newrelicSmall.1)))
               (NewRelicCalls.writeAll Scenario.failing (repeat Scenario.line 7)
                  Scenario.newrelicSmall.1 Scenario.newrelicSmall.2).1.1).
Proof.
  apply (refused_batches_pile_up Scenario.failing (repeat Scenario.line 7)
           (repeat (Some Scenario.lineRecord) 7)).
  - intros t c req resp H. simpl in H. inversion H. subst. simpl. discriminate.
  - apply line_decodes_batch. reflexivity.
Defined.

(** X13.  While the backend answers 202 to every request the batch writer
    delivers every entry exactly once and in order: after any sequence of
    writes of payloads that decode, on a writer that started below its
    batch size, every write has returned the length of its payload and no
    error, each request made carried one chunk of exactly batchSize
    entries as the body of a POST with the two headers, the chunks in
    request order followed by the buffer are the old buffer followed by
    the written entries, and the buffer is below the batch size. *)
Theorem accepted_batches_exactly_once (E : NewRelic.Env) ps entries
  (w : NewRelic.NewRelicRemoteSyncWriter) (t : list NewRelic.Event) :
  NewRelicCalls.alwaysAccepts E w ->
  NewRelicCalls.decodeTo E ps entries ->
  (len (NewRelic.buffer w) < NewRelic.batchSize w)%Z ->
  exists chunks,
    (NewRelicCalls.writeAll E ps w t).1.1 = map (fun p => (len p, None)) ps /\
    concat chunks ++ NewRelic.buffer (NewRelicCalls.writeAll E ps w t).1.2
    = NewRelic.buffer w ++ entries /\
    Forall (fun chunk => len chunk = NewRelic.batchSize w) chunks /\
    (len (NewRelic.buffer (NewRelicCalls.writeAll E ps w t).1.2) < NewRelic.batchSize w)%Z /\
    Forall2 (NewRelicCalls.carried E w) (since t (NewRelicCalls.writeAll E ps w t).2) chunks.
Proof.
  intros Hacc Hd Hlt.
  destruct (NewRelicBatches.writeAll_accepted E ps entries w Hacc Hd (NewRelic.buffer w) t Hlt)
    as (chunks & b' & new & Hall & Hcat & Hsz & Hb' & Hreq).
  rewrite NewRelicRuns.batch_set_buffer_same in Hall. rewrite Hall. simpl.
  rewrite since_app. exists chunks. auto.
Qed.

Lemma accepted_batches_exactly_once_witness :
  exists chunks,
    (NewRelicCalls.writeAll Scenario.accepting (repeat Scenario.line 12)
       Scenario.newrelicSmall.1 Scenario.newrelicSmall.2).1.1
    = map (fun p => (len p, None)) (repeat Scenario.line 12) /\
    concat chunks
      ++ NewRelic.buffer (NewRelicCalls.writeAll Scenario.accepting (repeat Scenario.line 12)
                            Scenario.newrelicSmall.1 Scenario.newrelicSmall.2).1.2
    = NewRelic.buffer Scenario.newrelicSmall.1 ++ repeat (Some Scenario.lineRecord) 12 /\
    Forall (fun chunk => len chunk = NewRelic.batchSize Scenario.newrelicSmall.1) chunks /\
    (len (NewRelic.buffer (NewRelicCalls.writeAll Scenario.accepting (repeat Scenario.line 12)
                             Scenario.newrelicSmall.1 Scenario.newrelicSmall.2).1.2)
     < NewRelic.batchSize Scenario.newrelicSmall.1)%Z /\
    Forall2 (NewRelicCalls.carried Scenario.accepting Scenario.newrelicSmall.1)
      (since Scenario.newrelicSmall.2
         (NewRelicCalls.writeAll Scenario.accepting (repeat Scenario.line 12)
            Scenario.newrelicSmall.1 Scenario.newrelicSmall.2).2) chunks.
Proof.
  apply (accepted_batches_exactly_once Scenario.accepting (repeat Scenario.line 12)
           (repeat (Some Scenario.lineRecord) 12)).
  - split; [|split].
    + intros t c req. eexists. split; reflexivity.
    + intros v. eexists. reflexivity.
    + vm_compute. reflexivity.
  - apply line_decodes_batch. reflexivity.
  - vm_compute. reflexivity.
Defined.

(** * Properties of the package initialisation *)

Module LoggerFacts.

Import Logger.

Lemma NewRemoteSyncWriter_Some_iff (E : ELK.Env) (getenv : string -> string)
  (t : list ELK.Event) :
  (exists w, (ELK.NewRemoteSyncWriter E getenv t).1 = Some w) <->
  getenv "LOGSTASH_HOST" <> EmptyString /\ getenv "LOGSTASH_PORT" <> EmptyString.
Proof.
  destruct (decide (getenv "LOGSTASH_HOST" = EmptyString)) as [Hh|Hh];
    [|destruct (decide (getenv "LOGSTASH_PORT" = EmptyString)) as [Hp|Hp]].
  1,2: rewrite NewRemoteSyncWriter_unset by auto; simpl;
       split; [intros (w & Hw); discriminate|intros [? ?]; contradiction].
  rewrite (NewRemoteSyncWriter_set E getenv t Hh Hp). simpl.
  destruct (ELK.Dial E t _ _); simpl; split; eauto.
Qed.

Lemma NewNewRelicRemoteSyncWriter_Some_iff (getenv : string -> string)
  (t : list NewRelic.Event) :
  (exists w, (NewRelic.NewNewRelicRemoteSyncWriter getenv t).1 = Some w) <->
  getenv "NEW_RELIC_API_KEY" <> EmptyString.
Proof.
  unfold NewRelic.NewNewRelicRemoteSyncWriter.
  case_bool_decide as Hk; simpl; split; eauto.
  - intros (w & Hw). discriminate.
  - contradiction.
Qed.

Lemma init_shape (W : World) (g : Globals) (t : list Event) :
  init W = (Return g, t) ->
  exists file errorLog,
    OpenFile W "./logs/logs.txt" = Ok file /\
    OpenFile W "./logs/errors.txt" = Ok errorLog /\
    leaves (core (Log g))
    = [(ConsoleEncoder, Stdout, configuredLevel W);
       (JSONEncoder, OfFile file, configuredLevel W);
       (JSONEncoder, OfFile errorLog, ErrorLevel)]
      ++ match remoteELK W with
         | Some w => [(JSONEncoder, OfELK w, configuredLevel W)]
         | None => []
         end
      ++ match remoteNewRelic W with
         | Some w => [(JSONEncoder, OfNewRelic w, configuredLevel W)]
         | None => []
         end.
Proof.
  unfold init, configuredLevel, remoteELK, remoteNewRelic. intros H.
  destruct (Hostname W);
    destruct (bool_decide (Getenv W "SERVICE_NAME" = EmptyString));
    (destruct (OpenFile W "./logs/logs.txt") as [file|]; [|discriminate]);
    (destruct (OpenFile W "./logs/errors.txt") as [errorLog|]; [|discriminate]);
    exists file, errorLog; (split; [reflexivity|]); (split; [reflexivity|]);
    (destruct (bool_decide (Getenv W "ENABLE_REMOTE_SYNC_ELK" = "true"%string));
     [destruct (ELK.NewRemoteSyncWriter _ _ _) as [[w|] evs]|]);
    (destruct (bool_decide (Getenv W "ENABLE_REMOTE_SYNC_NEWRELIC" = "true"%string));
     [destruct (NewRelic.NewNewRelicRemoteSyncWriter _ _) as [[w'|] evs']|]);
    inversion H; subst; reflexivity.
Qed.

Lemma init_cases (W : World) :
  (exists err t, OpenFile W "./logs/logs.txt" = Err err /\
     init W = (Panic err, t ++ [EvOpenFile "./logs/logs.txt" (Err err)]) /\
     (t = [] \/ (exists e, t = [EvMkdir "./logs" e]) \/
      exists e text, t = [EvMkdir "./logs" e; EvPrint text])) \/
  (exists file err t, OpenFile W "./logs/logs.txt" = Ok file /\
     OpenFile W "./logs/errors.txt" = Err err /\
     init W = (Panic err, t ++ [EvOpenFile "./logs/logs.txt" (Ok file);
                                       EvOpenFile "./logs/errors.txt" (Err err)]) /\
     (t = [] \/ (exists e, t = [EvMkdir "./logs" e]) \/
      exists e text, t = [EvMkdir "./logs" e; EvPrint text])) \/
  (exists file errorLog g t, OpenFile W "./logs/logs.txt" = Ok file /\
     OpenFile W "./logs/errors.txt" = Ok errorLog /\
     init W = (Return g, t)).
Proof.
  assert (Ht0 : forall t0 : list Event,
            t0 = (if StatIsNotExist W "./logs" then
                    match Mkdir W "./logs" with
                    | Some err =>
                      [EvMkdir "./logs" (Some err);
                       EvPrint ("Warning: Unable to create log directory './logs': "
                                       +:+ err +:+ newline)]
                    | None => [EvMkdir "./logs" None]
                    end
                  else []) ->
            t0 = [] \/ (exists e, t0 = [EvMkdir "./logs" e]) \/
            exists e text, t0 = [EvMkdir "./logs" e; EvPrint text]).
  { intros t0 ->. destruct (StatIsNotExist W "./logs"); [|auto].
    destruct (Mkdir W "./logs"); eauto 6. }
  unfold init.
  destruct (Hostname W);
    destruct (bool_decide (Getenv W "SERVICE_NAME" = EmptyString));
    (destruct (OpenFile W "./logs/logs.txt") as [file|err1];
     [|left; eexists; eexists; split; [reflexivity|]; split; [reflexivity|];
       apply Ht0; reflexivity]);
    (destruct (OpenFile W "./logs/errors.txt") as [errorLog|err2];
     [|right; left; eexists; eexists; eexists; split; [reflexivity|];
       split; [reflexivity|]; split; [rewrite <- app_assoc; reflexivity|];
       apply Ht0; reflexivity]);
    right; right; exists file, errorLog;
    (destruct (bool_decide (Getenv W "ENABLE_REMOTE_SYNC_ELK" = "true"%string));
     [destruct (ELK.NewRemoteSyncWriter _ _ _) as [[w|] evs]|]);
    (destruct (bool_decide (Getenv W "ENABLE_REMOTE_SYNC_NEWRELIC"
                            = "true"%string));
     [destruct (NewRelic.NewNewRelicRemoteSyncWriter _ _) as [[w'|] evs']|]);
    eauto.
Qed.

Lemma remoteELK_iff (W : World) :
  (exists w, remoteELK W = Some w) <->
  Getenv W "ENABLE_REMOTE_SYNC_ELK" = "true"%string /\
  Getenv W "LOGSTASH_HOST" <> EmptyString /\ Getenv W "LOGSTASH_PORT" <> EmptyString.
Proof.
  unfold remoteELK. case_bool_decide as Hflag.
  - rewrite NewRemoteSyncWriter_Some_iff. tauto.
  - split; [intros (w & Hw); discriminate|tauto].
Qed.

Lemma remoteNewRelic_iff (W : World) :
  (exists w, remoteNewRelic W = Some w) <->
  Getenv W "ENABLE_REMOTE_SYNC_NEWRELIC" = "true"%string /\
  Getenv W "NEW_RELIC_API_KEY" <> EmptyString.
Proof.
  unfold remoteNewRelic. case_bool_decide as Hflag.
  - rewrite NewNewRelicRemoteSyncWriter_Some_iff. tauto.
  - split; [intros (w & Hw); discriminate|tauto].
Qed.

End LoggerFacts.

(** X14.  When the package initialisation returns, the logger writes to
    the console, to logs/logs.txt and to logs/errors.txt, in this order,
    then to the remote writers that are enabled and to nothing else.  The
    errors file takes entries from the error level whatever LOG_LEVEL
    says; every other sink takes them from the level of LOG_LEVEL.  The
    streaming writer is a sink exactly when ENABLE_REMOTE_SYNC_ELK is the
    string true and LOGSTASH_HOST and LOGSTASH_PORT are set, whether or
    not Logstash could be reached; the batch writer exactly when
    ENABLE_REMOTE_SYNC_NEWRELIC is the string true and NEW_RELIC_API_KEY
    is set. *)
Theorem init_sinks (W : Logger.World) (g : Logger.Globals) (t : list Logger.Event) :
  Logger.init W = (Return g, t) ->
  exists file errorLog remote,
    Logger.OpenFile W "./logs/logs.txt" = Ok file /\
    Logger.OpenFile W "./logs/errors.txt" = Ok errorLog /\
    Logger.leaves (Logger.core (Logger.Log g))
    = [(Logger.ConsoleEncoder, Logger.Stdout, Logger.configuredLevel W);
       (Logger.JSONEncoder, Logger.OfFile file, Logger.configuredLevel W);
       (Logger.JSONEncoder, Logger.OfFile errorLog, Logger.ErrorLevel)] ++ remote /\
    Forall (fun leaf => leaf.1.1 = Logger.JSONEncoder /\ leaf.2 = Logger.configuredLevel W)
           remote /\
    ((exists w leaf, In leaf remote /\ leaf.1.2 = Logger.OfELK w) <->
     Logger.Getenv W "ENABLE_REMOTE_SYNC_ELK" = "true"%string /\
     Logger.Getenv W "LOGSTASH_HOST" <> EmptyString /\
     Logger.Getenv W "LOGSTASH_PORT" <> EmptyString) /\
    ((exists w leaf, In leaf remote /\ leaf.1.2 = Logger.OfNewRelic w) <->
     Logger.Getenv W "ENABLE_REMOTE_SYNC_NEWRELIC" = "true"%string /\
     Logger.Getenv W "NEW_RELIC_API_KEY" <> EmptyString) /\
    (forall leaf, In leaf remote ->
       (exists w, leaf.1.2 = Logger.OfELK w) \/ (exists w, leaf.1.2 = Logger.OfNewRelic w)).
Proof.
  intros H.
  destruct (LoggerFacts.init_shape W g t H) as (file & errorLog & Hf & He & Hleaves).
  exists file, errorLog. eexists. split; [exact Hf|]. split; [exact He|].
  split; [exact Hleaves|].
  pose proof (LoggerFacts.remoteELK_iff W) as Helk.
  pose proof (LoggerFacts.remoteNewRelic_iff W) as Hnr.
  assert (Hin : forall leaf,
            In leaf (match Logger.remoteELK W with
                     | Some w => [(Logger.JSONEncoder, Logger.OfELK w, Logger.configuredLevel W)]
                     | None => []
                     end
                     ++ match Logger.remoteNewRelic W with
                        | Some w => [(Logger.JSONEncoder, Logger.OfNewRelic w,
                                      Logger.configuredLevel W)]
                        | None => []
                        end) <->
            (exists w, Logger.remoteELK W = Some w /\
                       leaf = (Logger.JSONEncoder, Logger.OfELK w, Logger.configuredLevel W)) \/
            (exists w, Logger.remoteNewRelic W = Some w /\
                       leaf = (Logger.JSONEncoder, Logger.OfNewRelic w,
                               Logger.configuredLevel W))).
  { intros leaf. rewrite in_app_iff. split.
    - intros [Hl|Hl].
      + destruct (Logger.remoteELK W) as [w|]; [|destruct Hl].
        destruct Hl as [<-|[]]. left. eauto.
      + destruct (Logger.remoteNewRelic W) as [w|]; [|destruct Hl].
        destruct Hl as [<-|[]]. right. eauto.
    - intros [(w0 & Hw0 & ->)|(w0 & Hw0 & ->)]; rewrite Hw0;
        [left|right]; left; reflexivity. }
  split; [|split; [|split]].
  - apply List.Forall_forall. intros leaf Hl. apply Hin in Hl.
    destruct Hl as [(w & _ & ->)|(w & _ & ->)]; auto.
  - rewrite <- Helk. split.
    + intros (w & leaf & Hl & Hleaf). apply Hin in Hl.
      destruct Hl as [(w0 & Hw0 & ->)|(w0 & _ & ->)]; [eauto|discriminate].
    + intros (w & Hw). exists w. eexists. split; [apply Hin; left; eauto|reflexivity].
  - rewrite <- Hnr. split.
    + intros (w & leaf & Hl & Hleaf). apply Hin in Hl.
      destruct Hl as [(w0 & _ & ->)|(w0 & Hw0 & ->)]; [discriminate|eauto].
    + intros (w & Hw). exists w. eexists. split; [apply Hin; right; eauto|reflexivity].
  - intros leaf Hl. apply Hin in Hl.
    destruct Hl as [(w & _ & ->)|(w & _ & ->)]; eauto.
Qed.

Lemma init_sinks_witness :
  exists g t,
    Logger.init Logger.readme = (Return g, t) /\
    exists file errorLog remote,
      Logger.OpenFile Logger.readme "./logs/logs.txt" = Ok file /\
      Logger.OpenFile Logger.readme "./logs/errors.txt" = Ok errorLog /\
      Logger.leaves (Logger.core (Logger.Log g))
      = [(Logger.ConsoleEncoder, Logger.Stdout, Logger.configuredLevel Logger.readme);
         (Logger.JSONEncoder, Logger.OfFile file, Logger.configuredLevel Logger.readme);
         (Logger.JSONEncoder, Logger.OfFile errorLog, Logger.ErrorLevel)] ++ remote /\
      Forall (fun leaf => leaf.1.1 = Logger.JSONEncoder /\
                          leaf.2 = Logger.configuredLevel Logger.readme) remote /\
      ((exists w leaf, In leaf remote /\ leaf.1.2 = Logger.OfELK w) <->
       Logger.Getenv Logger.readme "ENABLE_REMOTE_SYNC_ELK" = "true"%string /\
       Logger.Getenv Logger.readme "LOGSTASH_HOST" <> EmptyString /\
       Logger.Getenv Logger.readme "LOGSTASH_PORT" <> EmptyString) /\
      ((exists w leaf, In leaf remote /\ leaf.1.2 = Logger.OfNewRelic w) <->
       Logger.Getenv Logger.readme "ENABLE_REMOTE_SYNC_NEWRELIC" = "true"%string /\
       Logger.Getenv Logger.readme "NEW_RELIC_API_KEY" <> EmptyString) /\
      (forall leaf, In leaf remote ->
         (exists w, leaf.1.2 = Logger.OfELK w) \/
         (exists w, leaf.1.2 = Logger.OfNewRelic w)).
Proof.
  eexists. eexists. split; [vm_compute; reflexivity|].
  eapply (init_sinks Logger.readme).
  vm_compute. reflexivity.
Defined.

(** X15.  The package initialisation panics exactly when logs/logs.txt or
    logs/errors.txt cannot be opened; a logs directory that cannot be
    created only prints a warning.  When it panics it has constructed no
    remote writer, dialled nothing and logged nothing. *)
Theorem init_panics (W : Logger.World) :
  ((exists msg, (Logger.init W).1 = Panic msg) <->
   (exists err, Logger.OpenFile W "./logs/logs.txt" = Err err) \/
   (exists err, Logger.OpenFile W "./logs/errors.txt" = Err err)) /\
  (forall msg, (Logger.init W).1 = Panic msg ->
     forall ev, In ev (Logger.init W).2 ->
       match ev with
       | Logger.EvELK _ | Logger.EvNewRelic _ | Logger.EvLog _ _ => False
       | _ => True
       end).
Proof.
  assert (Hquiet : forall (t0 tail : list Logger.Event) ev,
            (t0 = [] \/ (exists e, t0 = [Logger.EvMkdir "./logs" e]) \/
             exists e text, t0 = [Logger.EvMkdir "./logs" e; Logger.EvPrint text]) ->
            (forall ev', In ev' tail -> exists path r, ev' = Logger.EvOpenFile path r) ->
            In ev (t0 ++ tail) ->
            match ev with
            | Logger.EvELK _ | Logger.EvNewRelic _ | Logger.EvLog _ _ => False
            | _ => True
            end).
  { intros t0 tail ev Ht0 Htail Hin. apply in_app_or in Hin as [Hin|Hin].
    - destruct Ht0 as [->|[(e & ->)|(e & text & ->)]]; simpl in Hin;
        repeat (destruct Hin as [<-|Hin]; [exact I|]); destruct Hin.
    - destruct (Htail ev Hin) as (path & r & ->). exact I. }
  destruct (LoggerFacts.init_cases W)
    as [(err & t0 & H1 & Hi & Ht)
       |[(file & err & t0 & H1 & H2 & Hi & Ht)
        |(file & errorLog & g & t & H1 & H2 & Hi)]]; rewrite Hi; simpl.
  - split; [split; eauto|]. intros msg _ ev Hin.
    refine (Hquiet t0 _ ev Ht _ Hin).
    intros ev' [<-|[]]. eauto.
  - split; [split; eauto|]. intros msg _ ev Hin.
    refine (Hquiet t0 _ ev Ht _ Hin).
    intros ev' [<-|[<-|[]]]; eauto.
  - split; [split|].
    + intros (msg & Hm). discriminate.
    + intros [(err & He)|(err & He)]; congruence.
    + intros msg Hm. discriminate.
Qed.

(** * Which call does what to the outside *)

Module ELKEvents.

Import ELK ELKCalls.

Lemma forget_trace {A : Type} (r : outcome A * ELKRemoteSyncWriter * list Event) :
  (forget r).2 = r.2.
Proof. destruct r as [[[a|msg] w] t]; reflexivity. Qed.

Section Events.

Variable E : Env.

(** A property of events that holds of every clock reading, Encode and
    printed line. *)
Variable P : Event -> Prop.
Hypothesis P_now : forall tm, P (EvNow tm).
Hypothesis P_encode : forall c entry r, P (EvEncode c entry r).
Hypothesis P_print : forall text, P (EvPrint text).

Lemma delivered_events c entries : Forall P (delivered c entries).
Proof. induction entries; simpl; constructor; auto. Qed.

Lemma flushBuffer_events w t :
  exists new, (flushBuffer E w t).2 = t ++ new /\ Forall P new.
Proof.
  destruct (ELKFacts.flushBuffer_cases E w t)
    as [(_ & ->)|[(_ & c & ->)|[(_ & c & done & entry & rest & err & _ & _ & _ & ->)
                                |(_ & _ & _ & msg & ->)]]]; simpl.
  - exists []. rewrite app_nil_r. auto.
  - eexists. split; [reflexivity|]. apply delivered_events.
  - eexists. split; [reflexivity|]. apply Forall_app. split; [apply delivered_events|].
    repeat constructor; auto. apply P_print.
  - exists []. rewrite app_nil_r. auto.
Qed.

Lemma Write_events p w t :
  exists new, (Write E p w t).2 = t ++ new /\ Forall P new.
Proof.
  destruct (Decode E p) as [[m|]|err] eqn:Hd.
  - destruct (Z.le_gt_cases (batchSize w) (len (buffer w) + 1)) as [Hle|Hgt].
    + rewrite (ELKFacts.Write_flushing E p w t m Hd Hle).
      set (w1 := set_buffer _ w).
      destruct (flushBuffer_events w1 (t ++ [EvNow (Now E t)])) as (new & Hnew & HP).
      destruct (flushBuffer E w1 (t ++ [EvNow (Now E t)])) as [[[[]|msg] w2] t2];
        simpl in *; subst t2; exists (EvNow (Now E t) :: new);
        rewrite <- app_assoc; (split; [reflexivity|constructor; auto]).
    + rewrite (ELKFacts.Write_below E p w t m Hd) by lia.
      exists [EvNow (Now E t)]. simpl. auto.
  - rewrite (ELKFacts.Write_nil_map E p w t Hd). exists [EvNow (Now E t)]. simpl. auto.
  - rewrite (ELKFacts.Write_decode_error E p w t err Hd). exists []. simpl.
    rewrite app_nil_r. auto.
Qed.

Lemma Sync_events w t :
  exists new, (Sync E w t).2 = t ++ new /\ Forall P new.
Proof.
  unfold Sync. destruct (flushBuffer_events w t) as (new & Hnew & HP).
  destruct (flushBuffer E w t) as [[[[]|msg] w1] t1]; simpl in *; eauto.
Qed.

Lemma Close_events w t :
  (forall c r, P (EvClose c r)) ->
  exists new, (Close E w t).2 = t ++ new /\ Forall P new.
Proof.
  intros P_close. unfold Close. destruct (flushBuffer_events w t) as (new & Hnew & HP).
  destruct (flushBuffer E w t) as [[[[]|msg] w1] t1]; simpl in *; [|eauto].
  destruct (conn w1) as [c|]; simpl; [|eauto].
  subst t1. eexists. rewrite <- app_assoc. split; [reflexivity|].
  apply Forall_app. split; [exact HP|]. repeat constructor. apply P_close.
Qed.

Lemma reconnectionTick_events w t :
  (forall d, P (EvSleep d)) ->
  (forall tls address r, P (EvDial tls address r)) ->
  exists new, (reconnectionTick E w t).2 = t ++ new /\ Forall P new.
Proof.
  intros P_sleep P_dial.
  destruct (conn w) as [c0|] eqn:Hc.
  - unfold reconnectionTick. rewrite Hc. simpl. eexists. split; [reflexivity|].
    repeat constructor. apply P_sleep.
  - destruct (Dial E (t ++ [EvSleep (reconnectInterval w)]) (useTLS w)
                   (host w +:+ ":" +:+ port w)) as [c|err] eqn:Hd.
    + rewrite (ELKTurns.reconnectionTick_dial_ok E w t c Hc Hd).
      match goal with |- context [flushBuffer E ?w1 ?t1] =>
        destruct (flushBuffer_events w1 t1) as (new & -> & HP)
      end.
      eexists. rewrite <- app_assoc. split; [reflexivity|].
      simpl. repeat (constructor; auto).
    + rewrite (ELKTurns.reconnectionTick_dial_failed E w t err Hc Hd). simpl.
      eexists. split; [reflexivity|]. repeat (constructor; auto).
Qed.

Lemma calls_events cs :
  (In CallClose cs -> forall c r, P (EvClose c r)) ->
  (In CallTick cs ->
   (forall d, P (EvSleep d)) /\ (forall tls address r, P (EvDial tls address r))) ->
  forall w t, exists new, (calls E cs w t).2 = t ++ new /\ Forall P new.
Proof.
  induction cs as [|c cs IH]; intros Hclose Htick w t; simpl.
  - exists []. rewrite app_nil_r. auto.
  - assert (Hc : exists new, (call E c w t).2 = t ++ new /\ Forall P new).
    { destruct c as [p| | |]; simpl; rewrite ?forget_trace.
      - apply Write_events.
      - apply Sync_events.
      - apply Close_events. apply Hclose. left. reflexivity.
      - apply reconnectionTick_events; apply Htick; left; reflexivity. }
    destruct Hc as (new1 & Hnew1 & HP1).
    destruct (call E c w t) as [[[[]|msg] w1] t1]; simpl in *; [|eauto].
    destruct (IH (fun H => Hclose (or_intror H)) (fun H => Htick (or_intror H)) w1 t1)
      as (new2 & -> & HP2).
    subst t1. exists (new1 ++ new2). rewrite <- app_assoc. split; [reflexivity|].
    apply Forall_app. auto.
Qed.

End Events.

End ELKEvents.

(** X16.  The writer closes a connection only in Close and dials only in
    the reconnection loop.  In any sequence of Write, Sync and turns of
    the loop no connection is ever closed, so a connection dropped after a
    failed Encode stays open; and in any sequence of Write, Sync and Close
    nothing is dialled, so without the loop a writer that lost its
    connection stays disconnected. *)
Theorem only_Close_closes_only_loop_dials (E : ELK.Env) (cs : list ELKCalls.Call)
  (w : ELK.ELKRemoteSyncWriter) (t : list ELK.Event) :
  (~ In ELKCalls.CallClose cs ->
   Forall (fun ev => match ev with ELK.EvClose _ _ => False | _ => True end)
          (since t (ELKCalls.calls E cs w t).2)) /\
  (~ In ELKCalls.CallTick cs ->
   Forall (fun ev => match ev with
                     | ELK.EvDial _ _ _ | ELK.EvSleep _ => False
                     | _ => True
                     end)
          (since t (ELKCalls.calls E cs w t).2)).
Proof.
  split; intros Hnot.
  - destruct (ELKEvents.calls_events E
                (fun ev => match ev with ELK.EvClose _ _ => False | _ => True end)
                (fun _ => I) (fun _ _ _ => I) (fun _ => I) cs) with (w := w) (t := t)
      as (new & -> & HP); [contradiction|intros _; split; intros; exact I|].
    rewrite since_app. exact HP.
  - destruct (ELKEvents.calls_events E
                (fun ev => match ev with
                           | ELK.EvDial _ _ _ | ELK.EvSleep _ => False
                           | _ => True
                           end)
                (fun _ => I) (fun _ _ _ => I) (fun _ => I) cs) with (w := w) (t := t)
      as (new & -> & HP); [intros _ c r; exact I|contradiction|].
    rewrite since_app. exact HP.
Qed.

Lemma only_Close_closes_only_loop_dials_witness :
  Forall (fun ev => match ev with ELK.EvClose _ _ => False | _ => True end)
         (since Outage.beforeBreak.2
            (ELKCalls.calls Outage.flaky
               [ELKCalls.CallWrite Scenario.line; ELKCalls.CallTick; ELKCalls.CallSync]
               Outage.beforeBreak.1 Outage.beforeBreak.2).2) /\
  Forall (fun ev => match ev with
                    | ELK.EvDial _ _ _ | ELK.EvSleep _ => False
                    | _ => True
                    end)
         (since Outage.beforeBreak.2
            (ELKCalls.calls Outage.flaky
               [ELKCalls.CallWrite Scenario.line; ELKCalls.CallSync; ELKCalls.CallClose]
               Outage.beforeBreak.1 Outage.beforeBreak.2).2).
Proof.
  split.
  - apply (proj1 (only_Close_closes_only_loop_dials Outage.flaky
                    [ELKCalls.CallWrite Scenario.line; ELKCalls.CallTick; ELKCalls.CallSync]
                    Outage.beforeBreak.1 Outage.beforeBreak.2)).
    intros [H|[H|[H|[]]]]; discriminate.
  - apply (proj2 (only_Close_closes_only_loop_dials Outage.flaky
                    [ELKCalls.CallWrite Scenario.line; ELKCalls.CallSync; ELKCalls.CallClose]
                    Outage.beforeBreak.1 Outage.beforeBreak.2)).
    intros [H|[H|[H|[]]]]; discriminate.
Defined.
